(** * polymarket_monitor_engine: a shallow embedding of the order-book
    registry, the websocket subscription frames, the signal detectors, the
    multiplex sink, market selection and the /events catalog filter.

    Conventions.
    - Python floats are modelled by exact rationals [Q]; the claims below
      never depend on rounding, infinities or NaN.
    - A decoded JSON value (what [orjson.loads] / [json.loads] hands the code)
      is the inductive [json]; a Python [dict] read with [.get] is an
      association list, [.get] of a missing key yielding [JNull] (Python's
      [None]).
    - Python dicts written by the code keep insertion order; they are
      association lists updated in place ([dict_set], [dict_pop]).
    - [list.sort] / [sorted] are stable: they are [sort_by], a stable
      insertion sort. *)

From Stdlib Require Import String Ascii List Bool ZArith QArith Lia Permutation.
Import ListNotations.
Open Scope string_scope.
Close Scope Q_scope.
Open Scope Z_scope.
Open Scope list_scope.

(* ------------------------------------------------------------------ *)
(** ** Python values *)

Set Warnings "-register-all".
Inductive json : Type :=
| JNull
| JBool (b : bool)
| JInt (z : Z)
| JFloat (q : Q)
| JStr (s : string)
| JList (l : list json)
| JObj (fields : list (string * json)).

Definition dict := list (string * json).

(** [d.get(k)]: [None] when the key is absent. *)
Fixpoint get (d : dict) (k : string) : json :=
  match d with
  | [] => JNull
  | (k', v) :: d' => if String.eqb k k' then v else get d' k
  end.

Definition is_none (v : json) : bool :=
  match v with JNull => true | _ => false end.

(** Python truthiness. *)
Definition truthy (v : json) : bool :=
  match v with
  | JNull => false
  | JBool b => b
  | JInt z => negb (Z.eqb z 0)
  | JFloat q => negb (Qeq_bool q 0)
  | JStr s => negb (String.eqb s "")
  | JList l => match l with [] => false | _ => true end
  | JObj f => match f with [] => false | _ => true end
  end.

(** [a or b] *)
Definition py_or (a b : json) : json := if truthy a then a else b.

(** [_coalesce(values...)]: the first value that is not [None]. *)
Fixpoint coalesce (vs : list json) : json :=
  match vs with
  | [] => JNull
  | v :: vs' => if is_none v then coalesce vs' else v
  end.

Definition is_ws (c : ascii) : bool :=
  match nat_of_ascii c with
  | 32%nat | 9%nat | 10%nat | 11%nat | 12%nat | 13%nat => true
  | _ => false
  end.

Fixpoint lstrip (s : string) : string :=
  match s with
  | EmptyString => EmptyString
  | String c s' => if is_ws c then lstrip s' else s
  end.

Definition rev_str (s : string) : string :=
  string_of_list_ascii (rev (list_ascii_of_string s)).

(** [s.strip()] (ASCII whitespace). *)
Definition strip (s : string) : string := rev_str (lstrip (rev_str (lstrip s))).

Definition ascii_upper (c : ascii) : ascii :=
  let n := nat_of_ascii c in
  if Nat.leb 97 n && Nat.leb n 122 then ascii_of_nat (n - 32)%nat else c.

Definition ascii_lower (c : ascii) : ascii :=
  let n := nat_of_ascii c in
  if Nat.leb 65 n && Nat.leb n 90 then ascii_of_nat (n + 32)%nat else c.

(** [s.upper()] and [s.lower()] on the ASCII range. *)
Fixpoint upper (s : string) : string :=
  match s with
  | EmptyString => EmptyString
  | String c s' => String (ascii_upper c) (upper s')
  end.

Fixpoint lower (s : string) : string :=
  match s with
  | EmptyString => EmptyString
  | String c s' => String (ascii_lower c) (lower s')
  end.

Definition digit_val (c : ascii) : option Z :=
  let n := nat_of_ascii c in
  if Nat.leb 48 n && Nat.leb n 57 then Some (Z.of_nat (n - 48)%nat) else None.

(** Decimal digits [ds] read onto accumulator [acc]; also their count. *)
Fixpoint read_digits (s : string) (acc : Z) (cnt : nat) : Z * nat * string :=
  match s with
  | EmptyString => (acc, cnt, EmptyString)
  | String c s' =>
      match digit_val c with
      | Some d => read_digits s' (acc * 10 + d) (S cnt)
      | None => (acc, cnt, s)
      end
  end.

Definition split_sign (s : string) : Z * string :=
  match s with
  | String "-"%char s' => (-1, s')
  | String "+"%char s' => (1, s')
  | _ => (1, s)
  end.

(** [int(s)] for a [str]: surrounding whitespace, an optional sign and
    decimal digits (digit-group underscores are not modelled). *)
Definition parse_int (s : string) : option Z :=
  let '(sg, body) := split_sign (strip s) in
  match read_digits body 0 0%nat with
  | (v, S _, EmptyString) => Some (sg * v)
  | _ => None
  end.

(** [float(s)] for a [str]: whitespace, sign, digits with an optional
    fraction and exponent.  ["inf"] and ["nan"] have no rational value and
    are read as a failed conversion. *)
Definition parse_float (s : string) : option Q :=
  let '(sg, body) := split_sign (strip s) in
  let '(ip, ni, rest) := read_digits body 0 0%nat in
  let '(fp, nf, rest2) :=
    match rest with
    | String "."%char r => read_digits r 0 0%nat
    | _ => (0%Z, 0%nat, rest)
    end in
  let has_dot := match rest with String "."%char _ => true | _ => false end in
  let mant : Q := Qmake (ip * 10 ^ Z.of_nat nf + fp) (Z.to_pos (10 ^ Z.of_nat nf)) in
  if Nat.eqb (ni + nf)%nat 0%nat then None else
  let mant := if has_dot then mant else inject_Z ip in
  let rest2 := if has_dot then rest2 else rest in
  match rest2 with
  | EmptyString => Some (inject_Z sg * mant)%Q
  | String c r =>
      if orb (Ascii.eqb c "e"%char) (Ascii.eqb c "E"%char) then
        let '(esg, eb) := split_sign r in
        match read_digits eb 0 0%nat with
        | (e, S _, EmptyString) =>
            let e := (esg * e)%Z in
            Some (inject_Z sg * mant *
                  (if Z.leb 0 e then inject_Z (10 ^ e) else / inject_Z (10 ^ (- e))))%Q
        | _ => None
        end
      else None
  end.

(** [int(value)]; [None] where Python raises [TypeError]/[ValueError].
    [int] of a float truncates toward zero. *)
Definition py_int (v : json) : option Z :=
  match v with
  | JBool b => Some (if b then 1 else 0)%Z
  | JInt z => Some z
  | JFloat q => Some (Z.quot (Qnum q) (Zpos (Qden q)))
  | JStr s => parse_int s
  | _ => None
  end.

(** [_to_float(value)] *)
Definition to_float (v : json) : option Q :=
  match v with
  | JNull => None
  | JBool b => Some (if b then 1 else 0)%Q
  | JInt z => Some (inject_Z z)
  | JFloat q => Some q
  | JStr s => parse_float s
  | _ => None
  end.

Fixpoint digits_of_pos (p : positive) (fuel : nat) (acc : string) : string :=
  match fuel with
  | O => acc
  | S fuel' =>
      let z := Zpos p in
      let d := Z.modulo z 10 in
      let c := ascii_of_nat (48 + Z.to_nat d)%nat in
      match Z.div z 10 with
      | Zpos p' => digits_of_pos p' fuel' (String c acc)
      | _ => String c acc
      end
  end.

Definition z_to_string (z : Z) : string :=
  match z with
  | Z0 => "0"
  | Zpos p => digits_of_pos p 64%nat ""
  | Zneg p => String.append "-" (digits_of_pos p 64%nat "")
  end.

(** [str(value)].  The repr of a non-integral float and of containers is
    not reproduced digit for digit: such values are rendered as the exact
    fraction and as ["[...]"] / ["{...}"]; none of them spells a token id
    or a side. *)
Definition py_str (v : json) : string :=
  match v with
  | JNull => "None"
  | JBool b => if b then "True" else "False"
  | JInt z => z_to_string z
  | JFloat q =>
      if Z.eqb (Zpos (Qden q)) 1 then String.append (z_to_string (Qnum q)) ".0"
      else String.append (z_to_string (Qnum q))
             (String.append "/" (z_to_string (Zpos (Qden q))))
  | JStr s => s
  | JList _ => "[...]"
  | JObj _ => "{...}"
  end.

(* ------------------------------------------------------------------ *)
(** ** Stable sorting ([list.sort], [sorted]) *)

Section StableSort.
  Context {A : Type} (lt : A -> A -> bool).

  (** [x] precedes every element of [l] in the input, so it goes before
      the first element it is not greater than: equal keys keep their
      input order. *)
Fixpoint insert_sorted (x : A) (l : list A) : list A :=
    match l with
    | [] => [x]
    | y :: l' => if lt y x then y :: insert_sorted x l' else x :: l
    end.

Fixpoint sort_by (l : list A) : list A :=
    match l with
    | [] => []
    | x :: l' => insert_sorted x (sort_by l')
    end.

  (** No element is strictly smaller than its predecessor. *)
Fixpoint sorted_by (l : list A) : Prop :=
    match l with
    | x :: (y :: _) as l' => lt y x = false /\ sorted_by l'
    | _ => True
    end.
End StableSort.

(** [l.sort(key=k, reverse=rev)] with [<] on keys given by [ltk]. *)
Definition sort_key {A K} (ltk : K -> K -> bool) (k : A -> K) (reverse : bool)
  (l : list A) : list A :=
  sort_by (fun a b => if reverse then ltk (k b) (k a) else ltk (k a) (k b)) l.

Definition Qltb (a b : Q) : bool := negb (Qle_bool b a).

(** Insertion-ordered dictionaries written by the code. *)
Section Dict.
  Context {K V : Type} (keq : K -> K -> bool).

Fixpoint dict_lookup (d : list (K * V)) (k : K) : option V :=
    match d with
    | [] => None
    | (k', v) :: d' => if keq k k' then Some v else dict_lookup d' k
    end.

  (** [d[k] = v]: an existing key keeps its position. *)
Fixpoint dict_set (d : list (K * V)) (k : K) (v : V) : list (K * V) :=
    match d with
    | [] => [(k, v)]
    | (k', v') :: d' => if keq k k' then (k', v) :: d' else (k', v') :: dict_set d' k v
    end.

  (** [d.pop(k, None)] *)
Fixpoint dict_pop (d : list (K * V)) (k : K) : list (K * V) :=
    match d with
    | [] => []
    | (k', v') :: d' => if keq k k' then d' else (k', v') :: dict_pop d' k
    end.
End Dict.

(* ------------------------------------------------------------------ *)
(** ** application/orderbook.py *)

Module OrderBook.

Record BookLevel := { price : Q; size : Q }.

(** [BookSnapshot] (its [raw] field is not read by the registry). *)
Record BookSnapshot := {
  bs_token_id : string;
  bs_bids : list BookLevel;
  bs_asks : list BookLevel;
  bs_ts_ms : Z }.

Record OrderBookUpdateResult := {
  r_token_id : option string;
  r_snapshot : option BookSnapshot;
  r_resync_needed : bool;
  r_expected_seq : option Z;
  r_received_seq : option Z }.

Definition mk_result tok snap :=
  {| r_token_id := tok; r_snapshot := snap; r_resync_needed := false;
     r_expected_seq := None; r_received_seq := None |}.

(** [dict[float, float]] of price levels. *)
Definition levels := list (Q * Q).

Record OrderBookState := {
  token_id : string;
  bids : levels;
  asks : levels;
  last_seq : option Z;
  last_ts_ms : option Z }.

Definition levels_of (ls : list BookLevel) : levels :=
  fold_left (fun d l => dict_set Qeq_bool d (price l) (size l)) ls [].

Definition apply_snapshot (st : OrderBookState) (snap : BookSnapshot) (seq : option Z)
  : OrderBookState :=
  {| token_id := token_id st;
     bids := levels_of (bs_bids snap);
     asks := levels_of (bs_asks snap);
     last_seq := match seq with Some s => Some s | None => last_seq st end;
     last_ts_ms := Some (bs_ts_ms snap) |}.

Definition book_change (book : levels) (price size : Q) : levels :=
  if Qle_bool size 0 then dict_pop Qeq_bool book price
  else dict_set Qeq_bool book price size.

Definition apply_change (st : OrderBookState) (side : string) (price size : Q)
  : OrderBookState :=
  if String.eqb side "BUY" then
    {| token_id := token_id st; bids := book_change (bids st) price size;
       asks := asks st; last_seq := last_seq st; last_ts_ms := last_ts_ms st |}
  else
    {| token_id := token_id st; bids := bids st;
       asks := book_change (asks st) price size;
       last_seq := last_seq st; last_ts_ms := last_ts_ms st |}.

Definition to_levels (d : levels) : list BookLevel :=
  map (fun '(p, s) => {| price := p; size := s |}) d.

Definition to_snapshot (st : OrderBookState) : BookSnapshot :=
  {| bs_token_id := token_id st;
     bs_bids := sort_key Qltb price true (to_levels (bids st));
     bs_asks := sort_key Qltb price false (to_levels (asks st));
     bs_ts_ms := match last_ts_ms st with Some t => t | None => 0 end |}.

Definition clear (st : OrderBookState) : OrderBookState :=
  {| token_id := token_id st; bids := []; asks := []; last_seq := None;
     last_ts_ms := last_ts_ms st |}.

Definition new_state (tok : string) : OrderBookState :=
  {| token_id := tok; bids := []; asks := []; last_seq := None; last_ts_ms := None |}.

(** [_sequence_gap(last_seq, next_seq)] *)
Definition sequence_gap (last next : option Z) : bool * option Z :=
  match next, last with
  | None, _ => (false, None)
  | Some _, None => (false, None)
  | Some n, Some l => if Z.eqb n (l + 1) then (false, Some (l + 1)) else (true, Some (l + 1))
  end.

Fixpoint first_seq (payload : dict) (keys : list string) : option Z :=
  match keys with
  | [] => None
  | k :: ks =>
      let v := get payload k in
      if is_none v then first_seq payload ks else py_int v
  end.

(** [_extract_sequence]: the first key present decides, a failed [int()]
    gives [None]. *)
Definition extract_sequence (payload : dict) : option Z :=
  first_seq payload ["sequence"; "seq"; "sequence_number"; "seqNum"].

Fixpoint first_str (payload : dict) (keys : list string) : option string :=
  match keys with
  | [] => None
  | k :: ks =>
      let v := get payload k in
      if is_none v then first_str payload ks else Some (py_str v)
  end.

Definition extract_token_id (payload : dict) : option string :=
  first_str payload ["asset_id"; "assetId"; "token_id"; "tokenId"; "clobTokenId"].

Definition extract_ts_ms (payload : dict) : option Z :=
  let v := py_or (py_or (get payload "ts_ms") (get payload "timestamp")) (get payload "ts") in
  if is_none v then None else py_int v.

Definition parse_change (item : json) : option (string * Q * Q) :=
  let parts :=
    match item with
    | JObj f =>
        let side_raw := py_or (get f "side") (get f "type") in
        Some (upper (py_str (py_or side_raw (JStr ""))),
              to_float (coalesce [get f "price"; get f "p"]),
              to_float (coalesce [get f "size"; get f "s"; get f "quantity"]))
    | JList (x0 :: x1 :: x2 :: _) =>
        Some (upper (py_str (py_or x2 (JStr ""))), to_float x0, to_float x1)
    | _ => None
    end in
  match parts with
  | Some (side, Some p, Some s) =>
      if String.eqb side "BUY" || String.eqb side "SELL" then Some (side, p, s) else None
  | _ => None
  end.

(** [_parse_price_changes] *)
Definition parse_price_changes (payload : dict) : list (string * Q * Q) :=
  match py_or (py_or (get payload "price_changes") (get payload "changes")) (JList []) with
  | JList items => flat_map (fun it => match parse_change it with
                                       | Some c => [c] | None => [] end) items
  | _ => []
  end.

(** [OrderBookRegistry._books] *)
Definition Registry := list (string * OrderBookState).

Definition reg_get (reg : Registry) (tok : string) : option OrderBookState :=
  dict_lookup String.eqb reg tok.

Definition reg_set (reg : Registry) (tok : string) (st : OrderBookState) : Registry :=
  dict_set String.eqb reg tok st.

(** [OrderBookRegistry.apply_snapshot(snapshot, payload)] *)
Definition registry_apply_snapshot (reg : Registry) (snap : BookSnapshot) (payload : dict)
  : OrderBookUpdateResult * Registry :=
  let tok := bs_token_id snap in
  let seq := extract_sequence payload in
  let st := match reg_get reg tok with Some s => s | None => new_state tok end in
  let '(resync, expected) := sequence_gap (last_seq st) seq in
  if resync then
    ({| r_token_id := Some tok; r_snapshot := None; r_resync_needed := true;
        r_expected_seq := expected; r_received_seq := seq |},
     reg_set reg tok (clear st))
  else
    (mk_result (Some tok) (Some snap), reg_set reg tok (apply_snapshot st snap seq)).

(** [OrderBookRegistry.apply_price_change(payload)]; the state object is
    shared with [_books], so its mutations are written back. *)
Definition registry_apply_price_change (reg : Registry) (payload : dict)
  : OrderBookUpdateResult * Registry :=
  match extract_token_id payload with
  | None => (mk_result None None, reg)
  | Some tok =>
      match reg_get reg tok with
      | None => (mk_result (Some tok) None, reg)
      | Some st =>
          let seq := extract_sequence payload in
          let '(resync, expected) := sequence_gap (last_seq st) seq in
          if resync then
            ({| r_token_id := Some tok; r_snapshot := None; r_resync_needed := true;
                r_expected_seq := expected; r_received_seq := seq |},
             reg_set reg tok (clear st))
          else
            match parse_price_changes payload with
            | [] => (mk_result (Some tok) None, reg)
            | changes =>
                let st1 := fold_left (fun s '(sd, p, sz) => apply_change s sd p sz) changes st in
                let ts := match extract_ts_ms payload with
                          | Some t => if Z.eqb t 0 then last_ts_ms st1 else Some t
                          | None => last_ts_ms st1 end in
                let st2 := {| token_id := token_id st1; bids := bids st1; asks := asks st1;
                              last_seq := match seq with Some s => Some s
                                          | None => last_seq st1 end;
                              last_ts_ms := ts |} in
                (mk_result (Some tok) (Some (to_snapshot st2)), reg_set reg tok st2)
            end
      end
  end.

End OrderBook.

(** Properties of the registry and concrete messages. *)
Module OrderBookSpec.
Import OrderBook.

(** The outcome of a message that hit a sequence gap. *)
Definition gap_outcome (tok : string) (s r : Z) (out : OrderBookUpdateResult * Registry) : Prop :=
  let '(res, reg') := out in
  r_snapshot res = None /\ r_resync_needed res = true /\
  r_expected_seq res = Some (s + 1) /\ r_received_seq res = Some r /\
  exists st', reg_get reg' tok = Some st' /\ bids st' = [] /\ asks st' = [].

Definition pos_levels (d : levels) : Prop := Forall (fun kv => (0 < snd kv)%Q) d.

(** Every retained level of every book has a positive size. *)
Definition reg_inv (reg : Registry) : Prop :=
  Forall (fun e => pos_levels (bids (snd e)) /\ pos_levels (asks (snd e))) reg.

Fixpoint bids_desc (l : list BookLevel) : Prop :=
  match l with
  | x :: (y :: _) as l' => (price y <= price x)%Q /\ bids_desc l'
  | _ => True
  end.

Fixpoint asks_asc (l : list BookLevel) : Prop :=
  match l with
  | x :: (y :: _) as l' => (price x <= price y)%Q /\ asks_asc l'
  | _ => True
  end.

Definition snap1 : BookSnapshot :=
  {| bs_token_id := "tok";
     bs_bids := [{| price := 1 # 2; size := 10 |}];
     bs_asks := [{| price := 3 # 5; size := 5 |}];
     bs_ts_ms := 1000 |}.

Definition payload_snap (seq : Z) : dict := [("asset_id", JStr "tok"); ("seq", JInt seq)].

Definition payload_change (seq : Z) (changes : list json) : dict :=
  [("asset_id", JStr "tok"); ("seq", JInt seq); ("price_changes", JList changes)].

Definition buy_change (p s : string) : json :=
  JObj [("side", JStr "BUY"); ("price", JStr p); ("size", JStr s)].

(** The registry after the snapshot with [seq = 1]. *)
Definition reg_after_snap1 : Registry := snd (registry_apply_snapshot [] snap1 (payload_snap 1)).

(** A snapshot as received: unsorted bids and a zero-size level. *)
Definition snap_raw : BookSnapshot :=
  {| bs_token_id := "tok";
     bs_bids := [{| price := 1 # 2; size := 0 |}; {| price := 3 # 5; size := 4 |}];
     bs_asks := [];
     bs_ts_ms := 1000 |}.

End OrderBookSpec.

(* ------------------------------------------------------------------ *)
(** ** domain/events.py *)

Module Events.

Inductive EventType :=
| CANDIDATE_SELECTED | SUBSCRIPTION_CHANGED | MONITORING_STATUS | TRADE_SIGNAL
| BOOK_SIGNAL | PRICE_SIGNAL | MARKET_LIFECYCLE | HEALTH_EVENT.

(** [event_type.value] *)
Definition et_value (e : EventType) : string :=
  match e with
  | CANDIDATE_SELECTED => "CandidateSelected"
  | SUBSCRIPTION_CHANGED => "SubscriptionChanged"
  | MONITORING_STATUS => "MonitoringStatus"
  | TRADE_SIGNAL => "TradeSignal"
  | BOOK_SIGNAL => "BookSignal"
  | PRICE_SIGNAL => "PriceSignal"
  | MARKET_LIFECYCLE => "MarketLifecycle"
  | HEALTH_EVENT => "HealthEvent"
  end.

(** [event_type.name] *)
Definition et_name (e : EventType) : string :=
  match e with
  | CANDIDATE_SELECTED => "CANDIDATE_SELECTED"
  | SUBSCRIPTION_CHANGED => "SUBSCRIPTION_CHANGED"
  | MONITORING_STATUS => "MONITORING_STATUS"
  | TRADE_SIGNAL => "TRADE_SIGNAL"
  | BOOK_SIGNAL => "BOOK_SIGNAL"
  | PRICE_SIGNAL => "PRICE_SIGNAL"
  | MARKET_LIFECYCLE => "MARKET_LIFECYCLE"
  | HEALTH_EVENT => "HEALTH_EVENT"
  end.

(** [DomainEvent] (the fields read or written by the modelled code). *)
Record DomainEvent := {
  ev_ts_ms : Z;
  ev_event_type : EventType;
  ev_market_id : option string;
  ev_token_id : option string;
  ev_metrics : dict;
  ev_raw : option dict }.

End Events.

(* ------------------------------------------------------------------ *)
(** ** adapters/multiplex_sink.py *)

Module Multiplex.
Import Events.

(** A child sink: whether its [publish] raises on a given event. *)
Record Sink := { sink_raises : DomainEvent -> bool }.

Record MultiplexEventSink := {
  sinks : list (string * Sink);
  mode : string;
  required : list string;            (* set(required_sinks or []) *)
  routes : list (string * list string);
  transform : string }.

Record PublishOutcome := {
  called : list string;              (* children whose publish was invoked *)
  errors : list string;              (* keys of the [errors] dict *)
  raised : option (list string) }.   (* [RuntimeError] naming these sinks *)

Definition mem (x : string) (l : list string) : bool := existsb (String.eqb x) l.

Definition routes_get (routes : list (string * list string)) (k : string) : list string :=
  match dict_lookup String.eqb routes k with Some l => l | None => [] end.

(** [_resolve_targets]: a missing or empty route falls back to all sinks. *)
Definition resolve_targets (m : MultiplexEventSink) (et : EventType) : list string :=
  match routes_get (routes m) (et_value et) with
  | [] => match routes_get (routes m) (et_name et) with
          | [] => map fst (sinks m)
          | routed => routed
          end
  | routed => routed
  end.

(** [_transform_event]: ["compact"] drops [raw]. *)
Definition transform_event (m : MultiplexEventSink) (ev : DomainEvent) : DomainEvent :=
  if String.eqb (transform m) "compact" then
    {| ev_ts_ms := ev_ts_ms ev; ev_event_type := ev_event_type ev;
       ev_market_id := ev_market_id ev; ev_token_id := ev_token_id ev;
       ev_metrics := ev_metrics ev; ev_raw := None |}
  else ev.

(** The [for name in target_names] loop: (called, errors). *)
Fixpoint publish_loop (sinks : list (string * Sink)) (payload : DomainEvent)
  (names : list string) (called errs : list string) : list string * list string :=
  match names with
  | [] => (called, errs)
  | name :: rest =>
      match dict_lookup String.eqb sinks name with
      | None => publish_loop sinks payload rest called errs
      | Some sink =>
          (* [errors[name] = exc]: a key already present keeps its place *)
          let errs' := if sink_raises sink payload
                       then (if mem name errs then errs else errs ++ [name])
                       else errs in
          publish_loop sinks payload rest (called ++ [name]) errs'
      end
  end.

(** The check after all attempts: [Some missing] when [publish] raises
    [RuntimeError(f"Required sinks failed: {missing}")]. *)
Definition raise_check (m : MultiplexEventSink) (errs : list string) : option (list string) :=
  match errs with
  | [] => None
  | _ =>
      if String.eqb (mode m) "required_sinks" || negb (match required m with
                                                       | [] => true | _ => false end) then
        let missing := sort_key String.ltb (fun s => s) false
                         (filter (fun n => mem n (required m)) errs) in
        match missing with [] => None | _ => Some missing end
      else None
  end.

(** [MultiplexEventSink.publish(event)] *)
Definition publish (m : MultiplexEventSink) (ev : DomainEvent) : PublishOutcome :=
  let targets := resolve_targets m (ev_event_type ev) in
  let payload := transform_event m ev in
  let '(called, errs) := publish_loop (sinks m) payload targets [] [] in
  {| called := called; errors := errs; raised := raise_check m errs |}.

(** Concrete sinks and events. *)
Definition ok_sink : Sink := {| sink_raises := fun _ => false |}.
Definition failing_sink : Sink := {| sink_raises := fun _ => true |}.

Definition sample_event : DomainEvent :=
  {| ev_ts_ms := 1; ev_event_type := TRADE_SIGNAL; ev_market_id := None;
     ev_token_id := None; ev_metrics := []; ev_raw := Some [("payload", JBool true)] |}.

Definition mux_ab (mode : string) (required : list string) : MultiplexEventSink :=
  {| sinks := [("a", ok_sink); ("b", failing_sink)]; mode := mode;
     required := required; routes := []; transform := "full" |}.

End Multiplex.

(* ------------------------------------------------------------------ *)
(** ** adapters/clob_ws.py: subscription frames *)

Module ClobWs.

Definition dq : ascii := ascii_of_nat 34.
Definition bsl : ascii := ascii_of_nat 92.

Definition hex_digit (n : nat) : ascii :=
  if Nat.ltb n 10 then ascii_of_nat (48 + n) else ascii_of_nat (87 + n).

(** One character of a JSON string as [orjson.dumps] writes it (Rocq
    string literals have no escapes: ["\n"] is backslash, n). *)
Definition json_escape_char (c : ascii) : string :=
  let n := nat_of_ascii c in
  if Nat.eqb n 34 then String bsl (String dq EmptyString) else
  if Nat.eqb n 92 then String bsl (String bsl EmptyString) else
  if Nat.eqb n 10 then "\n" else
  if Nat.eqb n 13 then "\r" else
  if Nat.eqb n 9 then "\t" else
  if Nat.eqb n 8 then "\b" else
  if Nat.eqb n 12 then "\f" else
  if Nat.ltb n 32 then
    String.append "\u00"
      (String (hex_digit (n / 16)) (String (hex_digit (n mod 16)) EmptyString))
  else String c EmptyString.

Fixpoint json_escape (s : string) : string :=
  match s with
  | EmptyString => EmptyString
  | String c s' => String.append (json_escape_char c) (json_escape s')
  end.

Definition json_string (s : string) : string :=
  String dq (String.append (json_escape s) (String dq EmptyString)).

Definition json_bool (b : bool) : string := if b then "true" else "false".

Fixpoint json_items (ids : list string) : string :=
  match ids with
  | [] => EmptyString
  | [x] => json_string x
  | x :: rest => String.append (json_string x) (String.append "," (json_items rest))
  end.

Definition json_str_list (ids : list string) : string :=
  String.append "[" (String.append (json_items ids) "]").

(** A JSON object with the keys in insertion order, compact, as
    [orjson.dumps] produces it. *)
Fixpoint json_fields (fs : list (string * string)) : string :=
  match fs with
  | [] => EmptyString
  | [(k, v)] => String.append (json_string k) (String.append ":" v)
  | (k, v) :: rest =>
      String.append (json_string k) (String.append ":" (String.append v
        (String.append "," (json_fields rest))))
  end.

Definition json_object (fs : list (string * string)) : string :=
  String.append "{" (String.append (json_fields fs) "}").

Record Feed := {
  channel : string;
  custom_feature_enabled : bool;
  initial_dump : bool;
  ws_open : bool;                 (* [not self._is_closed()] *)
  desired_ids : list string;      (* a set: sorted, without duplicates *)
  subscribed_ids : list string;   (* a set: sorted, without duplicates *)
  sent : list string }.           (* frames handed to [ws.send], in order *)

Definition mem (x : string) (l : list string) : bool := existsb (String.eqb x) l.

Fixpoint dedup (l : list string) : list string :=
  match l with
  | [] => []
  | x :: l' => if mem x l' then dedup l' else x :: dedup l'
  end.

(** [sorted(set(xs))] *)
Definition sorted_set (xs : list string) : list string :=
  sort_key String.ltb (fun s => s) false (dedup xs).

Definition set_minus (a b : list string) : list string := filter (fun x => negb (mem x b)) a.

Definition with_sent (f : Feed) (frame : string) (desired subscribed : list string) : Feed :=
  {| channel := channel f; custom_feature_enabled := custom_feature_enabled f;
     initial_dump := initial_dump f; ws_open := ws_open f;
     desired_ids := desired; subscribed_ids := subscribed; sent := sent f ++ [frame] |}.

Definition set_ids (f : Feed) (desired subscribed : list string) : Feed :=
  {| channel := channel f; custom_feature_enabled := custom_feature_enabled f;
     initial_dump := initial_dump f; ws_open := ws_open f;
     desired_ids := desired; subscribed_ids := subscribed; sent := sent f |}.

(** [_send(payload)]: nothing is sent without a socket. *)
Definition send (f : Feed) (frame : string) : Feed :=
  if ws_open f then with_sent f frame (desired_ids f) (subscribed_ids f) else f.

(** The frame of [_send_initial_subscription(token_ids)]. *)
Definition initial_frame (f : Feed) (token_ids : list string) : string :=
  json_object [("type", json_string (channel f));
               ("assets_ids", json_str_list token_ids);
               ("custom_feature_enabled", json_bool (custom_feature_enabled f));
               ("initial_dump", json_bool (initial_dump f))].

Definition send_initial_subscription (f : Feed) (token_ids : list string) : Feed :=
  match token_ids with
  | [] => f
  | _ => send f (initial_frame f token_ids)
  end.

(** The frame of [_send_operation(operation, token_ids)]. *)
Definition operation_frame (f : Feed) (operation : string) (token_ids : list string) : string :=
  json_object [("assets_ids", json_str_list token_ids);
               ("operation", json_string operation);
               ("custom_feature_enabled", json_bool (custom_feature_enabled f))].

Definition send_operation (f : Feed) (operation : string) (token_ids : list string) : Feed :=
  match token_ids with
  | [] => f
  | _ => send f (operation_frame f operation token_ids)
  end.

(** [_apply_subscription_changes(initial)] *)
Definition apply_subscription_changes (f : Feed) (initial : bool) : Feed :=
  if negb (ws_open f) then f else
  if initial || match subscribed_ids f with [] => true | _ => false end then
    let f1 := send_initial_subscription f (desired_ids f) in
    set_ids f1 (desired_ids f1) (desired_ids f)
  else
    let to_add := set_minus (desired_ids f) (subscribed_ids f) in
    let to_remove := set_minus (subscribed_ids f) (desired_ids f) in
    let f1 := match to_add with
              | [] => f
              | _ => let g := send_operation f "subscribe" to_add in
                     set_ids g (desired_ids g) (sorted_set (subscribed_ids g ++ to_add))
              end in
    match to_remove with
    | [] => f1
    | _ => let g := send_operation f1 "unsubscribe" to_remove in
           set_ids g (desired_ids g) (set_minus (subscribed_ids g) to_remove)
    end.

(** [subscribe(token_ids)] *)
Definition subscribe (f : Feed) (token_ids : list string) : Feed :=
  let f1 := set_ids f (sorted_set token_ids) (subscribed_ids f) in
  if negb (ws_open f1) then f1 else apply_subscription_changes f1 false.

Definition pad3 (i : nat) : string :=
  String (ascii_of_nat (48 + i / 100)) (String (ascii_of_nat (48 + (i / 10) mod 10))
    (String (ascii_of_nat (48 + i mod 10)) EmptyString)).

(** The spec's chunking scenario: ids [token-000] .. [token-059] on a
    connected feed of the ["market"] channel. *)
Definition tokens60 : list string := map (fun i => String.append "token-" (pad3 i)) (seq 0 60).

Definition feed0 : Feed :=
  {| channel := "market"; custom_feature_enabled := true; initial_dump := true;
     ws_open := true; desired_ids := []; subscribed_ids := []; sent := [] |}.

End ClobWs.

(* ------------------------------------------------------------------ *)
(** ** Shared signal-detection data: application/types.py, domain/models.py *)

Module Signals.

Record TokenMeta := {
  tm_token_id : string;
  tm_market_id : string;
  tm_category : string;
  tm_title : option string;
  tm_side : option string;
  tm_topic_key : option string;
  tm_end_ts : option Z }.

Record TradeTick := {
  tt_token_id : string;
  tt_price : Q;
  tt_size : Q;
  tt_ts_ms : Z }.

(** [TradeWindow]: a deque of [(ts_ms, notional)] and its running total. *)
Record TradeWindow := { entries : list (Z * Q); total : Q }.

Definition empty_window : TradeWindow := {| entries := []; total := 0 |}.

Definition window_add (w : TradeWindow) (ts : Z) (notional : Q) : TradeWindow :=
  {| entries := entries w ++ [(ts, notional)]; total := total w + notional |}%Q.

Fixpoint trim_entries (es : list (Z * Q)) (tot : Q) (cutoff : Z) : TradeWindow :=
  match es with
  | (ts, n) :: rest =>
      if Z.ltb ts cutoff then trim_entries rest (tot - n)%Q cutoff
      else {| entries := es; total := tot |}
  | [] => {| entries := []; total := tot |}
  end.

Definition window_trim (w : TradeWindow) (cutoff : Z) : TradeWindow :=
  trim_entries (entries w) (total w) cutoff.

Definition qabs (x : Q) : Q := if Qle_bool 0 x then x else (- x)%Q.
Definition qmax (a b : Q) : Q := if Qltb a b then b else a.

(** [round(x, 4)]: to four decimals, ties to even. *)
Definition round4 (x : Q) : Q :=
  let n := (Qnum x * 10000)%Z in
  let d := Zpos (Qden x) in
  let q := Z.div n d in
  let r := Z.modulo n d in
  let k := if Z.ltb (2 * r) d then q
           else if Z.ltb d (2 * r) then q + 1
           else if Z.even q then q else q + 1 in
  Qmake k 10000.

Definition is_source (src : string) (kind : string) : bool :=
  String.eqb src kind || String.eqb src "any".

Definition meta_dict := list (string * TokenMeta).
Definition cooldown_key := (string * string)%type.
Definition pair_eqb (a b : string * string) : bool :=
  String.eqb (fst a) (fst b) && String.eqb (snd a) (snd b).

End Signals.

(* ------------------------------------------------------------------ *)
(** ** application/monitor.py: [SignalDetector] (the detector wired by
    [__main__] and [PolymarketComponent]) *)

Module Detector.
Import Events Signals.

Record Config := {
  big_trade_usd : Q;
  big_volume_1m_usd : Q;
  cooldown_ms : Z;
  major_change_pct : Q;
  major_change_window_ms : Z;
  major_change_min_notional : Q;
  major_change_source : string }.  (* lower-cased *)

Record State := {
  windows : list (string * TradeWindow);
  cooldowns : list (cooldown_key * Z);
  token_meta : meta_dict;
  last_price : list (string * (Q * Z));
  published : list DomainEvent }.    (* what the sink received *)

(** [_emit_signal]; [now] is [self._clock.now_ms()]. *)
Definition emit_signal (cfg : Config) (st : State) (meta : TokenMeta) (signal_type : string)
  (metrics : dict) (et : EventType) (now : Z) : State :=
  let key := (tm_token_id meta, signal_type) in
  let last := match dict_lookup pair_eqb (cooldowns st) key with Some t => t | None => 0 end in
  if Z.ltb (now - last) (cooldown_ms cfg) then st else
  let ev := {| ev_ts_ms := now; ev_event_type := et; ev_market_id := Some (tm_market_id meta);
               ev_token_id := Some (tm_token_id meta);
               ev_metrics := ("signal", JStr signal_type) :: metrics; ev_raw := None |} in
  {| windows := windows st; cooldowns := dict_set pair_eqb (cooldowns st) key now;
     token_meta := token_meta st; last_price := last_price st;
     published := published st ++ [ev] |}.

Definition set_last_price (st : State) (tok : string) (v : Q * Z) : State :=
  {| windows := windows st; cooldowns := cooldowns st; token_meta := token_meta st;
     last_price := dict_set String.eqb (last_price st) tok v; published := published st |}.

(** [_maybe_emit_major_change] *)
Definition maybe_emit_major_change (cfg : Config) (st : State) (meta : TokenMeta)
  (price : Q) (ts : Z) (notional : option Q) (source : string) (now : Z) : State :=
  if Qle_bool (major_change_pct cfg) 0 then st else
  let previous := dict_lookup String.eqb (last_price st) (tm_token_id meta) in
  let st := set_last_price st (tm_token_id meta) (price, ts) in
  match previous with
  | None => st
  | Some (prev_price, prev_ts) =>
      if Qle_bool prev_price 0 then st else
      if Z.ltb (major_change_window_ms cfg) (ts - prev_ts) then st else
      let pct_change := (qabs (price - prev_price) / prev_price * 100)%Q in
      if Qltb pct_change (major_change_pct cfg) then st else
      if Qltb 0 (major_change_min_notional cfg) &&
         match notional with None => true
                        | Some n => Qltb n (major_change_min_notional cfg) end
      then st else
      emit_signal cfg st meta "major_change"
        [("pct_change", JFloat (round4 pct_change)); ("price", JFloat price);
         ("prev_price", JFloat prev_price);
         ("window_sec", JInt (Z.div (major_change_window_ms cfg) 1000));
         ("notional", JFloat (match notional with Some n => n | None => 0 end));
         ("source", JStr source)] TRADE_SIGNAL now
  end.

(** [SignalDetector.handle_trade(trade)] *)
Definition handle_trade (cfg : Config) (st : State) (trade : TradeTick) (now : Z) : State :=
  match dict_lookup String.eqb (token_meta st) (tt_token_id trade) with
  | None => st
  | Some meta =>
      let notional := (tt_price trade * tt_size trade)%Q in
      let w0 := match dict_lookup String.eqb (windows st) (tt_token_id trade) with
                | Some w => w | None => empty_window end in
      let w := window_trim (window_add w0 (tt_ts_ms trade) notional) (now - 60000) in
      let st := {| windows := dict_set String.eqb (windows st) (tt_token_id trade) w;
                   cooldowns := cooldowns st; token_meta := token_meta st;
                   last_price := last_price st; published := published st |} in
      let st := if is_source (major_change_source cfg) "trade"
                then maybe_emit_major_change cfg st meta (tt_price trade) (tt_ts_ms trade)
                       (Some notional) "trade" now
                else st in
      let st := if Qle_bool (big_trade_usd cfg) notional
                then emit_signal cfg st meta "big_trade"
                       [("notional", JFloat notional); ("price", JFloat (tt_price trade));
                        ("size", JFloat (tt_size trade))] TRADE_SIGNAL now
                else st in
      if Qle_bool (big_volume_1m_usd cfg) (total w)
      then emit_signal cfg st meta "volume_spike_1m"
             [("vol_1m", JFloat (total w)); ("price", JFloat (tt_price trade));
              ("size", JFloat (tt_size trade))] TRADE_SIGNAL now
      else st
  end.

(** The configuration and registry of the repository's test
    [test_merge_big_trade_and_volume_spike_same_trade]. *)
Definition test_cfg : Config :=
  {| big_trade_usd := 100; big_volume_1m_usd := 100; cooldown_ms := 0;
     major_change_pct := 0; major_change_window_ms := 60000;
     major_change_min_notional := 0; major_change_source := "trade" |}.

Definition meta1 : TokenMeta :=
  {| tm_token_id := "token-1"; tm_market_id := "m1"; tm_category := "finance";
     tm_title := Some "Test"; tm_side := Some "YES"; tm_topic_key := Some "test";
     tm_end_ts := None |}.

Definition test_state : State :=
  {| windows := []; cooldowns := []; token_meta := [("token-1", meta1)];
     last_price := []; published := [] |}.

Definition test_now : Z := 1700000000000.

Definition test_trade : TradeTick :=
  {| tt_token_id := "token-1"; tt_price := 2; tt_size := 60; tt_ts_ms := test_now |}.

End Detector.

(* ------------------------------------------------------------------ *)
(** ** application/signals/detector.py: [SignalEngine] *)

Module Engine.
Import Events Signals.

(** domain/schemas/event_payloads.py: the signal payloads. *)
Inductive SignalPayload :=
  | MajorChangePayload (pct_change pct_change_signed : Q) (direction : string)
      (price prev_price : Q) (window_sec : Z) (notional : Q) (source : string)
  | BigTradePayload (notional price size : Q) (vol_1m : option Q)
  | VolumeSpikePayload (vol_1m price size : Q)
  | BigWallPayload (max_bid max_ask threshold : Q).

(** [payload.signal.value] *)
Definition signal_value (p : SignalPayload) : string :=
  match p with
  | MajorChangePayload _ _ _ _ _ _ _ _ => "major_change"
  | BigTradePayload _ _ _ _ => "big_trade"
  | VolumeSpikePayload _ _ _ => "volume_spike_1m"
  | BigWallPayload _ _ _ => "big_wall"
  end.

(** The fields of [SignalEngine] fixed at construction, as [__init__]
    stores them (clamped where it clamps). *)
Record Config := {
  big_trade_usd : Q;
  big_volume_1m_usd : Q;
  cooldown_ms : Z;
  major_change_pct : Q;
  major_change_window_ms : Z;
  major_change_min_notional : Q;
  major_change_source : string;
  major_change_low_price_max : Q;
  major_change_low_price_abs : Q;
  major_change_spread_gate_k : Q;
  high_confidence_threshold : Q;
  reverse_allow_threshold : Q;
  merge_window_sec : Q;
  drop_expired_markets : bool }.

Definition clamp01 (x : Q) : Q := if Qltb 1 (qmax 0 x) then 1 else qmax 0 x.

(** [SignalEngine.__init__] *)
Definition mk_config (big_trade big_volume : Q) (cooldown_sec : Z) (pct : Q)
  (window_sec : Z) (min_notional : Q) (source : string) (low_max low_abs gate_k : Q)
  (hc ra merge : Q) (drop : bool) : Config :=
  {| big_trade_usd := big_trade; big_volume_1m_usd := big_volume;
     cooldown_ms := cooldown_sec * 1000; major_change_pct := pct;
     major_change_window_ms := window_sec * 1000;
     major_change_min_notional := min_notional; major_change_source := lower source;
     major_change_low_price_max := qmax 0 low_max;
     major_change_low_price_abs := qmax 0 low_abs;
     major_change_spread_gate_k := qmax 0 gate_k;
     high_confidence_threshold := clamp01 hc; reverse_allow_threshold := clamp01 ra;
     merge_window_sec := qmax 0 merge; drop_expired_markets := drop |}.

(** [TradeSignalBucket] (its flush task is the separate step
    [flush_trade_bucket] below). *)
Record TradeSignalBucket := {
  b_market_id : string; b_token_id : string; b_side : option string;
  b_category : string; b_title : option string; b_topic_key : option string;
  b_end_ts : option Z;
  total_notional : Q; total_size : Q; b_last_price : Q; b_last_size : Q;
  max_vol_1m : option Q; has_big_trade : bool; has_volume_spike : bool }.

(** What [_emit_signal] hands to the sink: the [DomainEvent], whose model
    declares no [payload] field (pydantic drops the keyword), together with
    the payload the engine built for it. *)
Record Signal := { sg_event : DomainEvent; sg_payload : SignalPayload }.

Record State := {
  windows : list (string * TradeWindow);
  cooldowns : list (cooldown_key * Z);
  token_meta : meta_dict;
  last_price : list (string * (Q * Z));
  best_quote : list (string * (Q * Q));
  trade_buckets : list ((string * string) * TradeSignalBucket);
  published : list Signal }.

Definition set_cooldowns (st : State) c : State :=
  {| windows := windows st; cooldowns := c; token_meta := token_meta st;
     last_price := last_price st; best_quote := best_quote st;
     trade_buckets := trade_buckets st; published := published st |}.
Definition set_published (st : State) p : State :=
  {| windows := windows st; cooldowns := cooldowns st; token_meta := token_meta st;
     last_price := last_price st; best_quote := best_quote st;
     trade_buckets := trade_buckets st; published := p |}.
Definition set_windows (st : State) w : State :=
  {| windows := w; cooldowns := cooldowns st; token_meta := token_meta st;
     last_price := last_price st; best_quote := best_quote st;
     trade_buckets := trade_buckets st; published := published st |}.
Definition set_last_price (st : State) l : State :=
  {| windows := windows st; cooldowns := cooldowns st; token_meta := token_meta st;
     last_price := l; best_quote := best_quote st;
     trade_buckets := trade_buckets st; published := published st |}.
Definition set_buckets (st : State) b : State :=
  {| windows := windows st; cooldowns := cooldowns st; token_meta := token_meta st;
     last_price := last_price st; best_quote := best_quote st;
     trade_buckets := b; published := published st |}.

Definition key_eqb := Signals.pair_eqb.

(** [_is_market_expired] *)
Definition is_market_expired (cfg : Config) (meta : TokenMeta) (now : Z) : bool :=
  if negb (drop_expired_markets cfg) then false else
  match tm_end_ts meta with None => false | Some e => Z.leb e now end.

(** [_is_high_confidence_market] *)
Definition is_high_confidence_market (cfg : Config) (price : Q) : bool :=
  if Qle_bool (high_confidence_threshold cfg) 0 then false else
  if Qltb price 0 || Qltb 1 price then false else
  Qle_bool (high_confidence_threshold cfg) (qmax price (1 - price)).

(** [_is_reverse_allow_price] *)
Definition is_reverse_allow_price (cfg : Config) (price : Q) : bool :=
  if Qle_bool (reverse_allow_threshold cfg) 0 then false else
  if Qltb price 0 || Qltb 1 price then false else
  Qle_bool price (reverse_allow_threshold cfg).

(** [_emit_signal]; [now] is [self._clock.now_ms()]. *)
Definition emit_signal (cfg : Config) (st : State) (meta : TokenMeta)
  (payload : SignalPayload) (metrics : dict) (et : EventType) (now : Z) : State :=
  let key := (tm_token_id meta, signal_value payload) in
  let last := match dict_lookup key_eqb (cooldowns st) key with Some t => t | None => 0 end in
  if Z.ltb (now - last) (cooldown_ms cfg) then st else
  let st := set_cooldowns st (dict_set key_eqb (cooldowns st) key now) in
  let ev := {| ev_ts_ms := now; ev_event_type := et; ev_market_id := Some (tm_market_id meta);
               ev_token_id := Some (tm_token_id meta); ev_metrics := metrics;
               ev_raw := None |} in
  set_published st (published st ++ [{| sg_event := ev; sg_payload := payload |}]).

(** [_resolve_spread] *)
Definition resolve_spread (st : State) (tok : string) (best_bid best_ask : option Q)
  : option Q :=
  match best_bid, best_ask with
  | Some b, Some a => Some (qmax 0 (a - b))
  | _, _ => match dict_lookup String.eqb (best_quote st) tok with
            | None => None
            | Some (b, a) => Some (qmax 0 (a - b))
            end
  end.

(** [_use_low_price_abs] *)
Definition use_low_price_abs (cfg : Config) (prev_price price : Q) : bool :=
  if Qle_bool (major_change_low_price_abs cfg) 0 then false else
  if Qle_bool (major_change_low_price_max cfg) 0 then false else
  Qle_bool (if Qltb price prev_price then price else prev_price)
           (major_change_low_price_max cfg).

(** [_maybe_emit_major_change] *)
Definition maybe_emit_major_change (cfg : Config) (st : State) (meta : TokenMeta)
  (price : Q) (ts : Z) (notional : option Q) (source : string)
  (best_bid best_ask : option Q) (now : Z) : State :=
  if Qle_bool (major_change_pct cfg) 0 then st else
  let previous := dict_lookup String.eqb (last_price st) (tm_token_id meta) in
  let st := set_last_price st (dict_set String.eqb (last_price st) (tm_token_id meta) (price, ts)) in
  match previous with
  | None => st
  | Some (prev_price, prev_ts) =>
    if Qle_bool prev_price 0 then st else
    if Z.ltb (major_change_window_ms cfg) (ts - prev_ts) then st else
    let delta := (price - prev_price)%Q in
    let abs_delta := qabs delta in
    let gated :=
      Qltb 0 (major_change_spread_gate_k cfg) &&
      match resolve_spread st (tm_token_id meta) best_bid best_ask with
      | Some spread => Qltb 0 spread &&
                       Qle_bool abs_delta (major_change_spread_gate_k cfg * spread)
      | None => false
      end in
    if gated then st else
    let pct_change_signed := (delta / prev_price * 100)%Q in
    let pct_change := qabs pct_change_signed in
    let low := if use_low_price_abs cfg prev_price price
               then Qltb abs_delta (major_change_low_price_abs cfg)
               else Qltb pct_change (major_change_pct cfg) in
    if low then st else
    if Qltb 0 (major_change_min_notional cfg) &&
       match notional with None => true
                      | Some n => Qltb n (major_change_min_notional cfg) end
    then st else
    emit_signal cfg st meta
      (MajorChangePayload (round4 pct_change) (round4 pct_change_signed)
         (if Qltb 0 pct_change_signed then "up" else "down") price prev_price
         (Z.div (major_change_window_ms cfg) 1000)
         (match notional with Some n => n | None => 0 end) source) [] TRADE_SIGNAL now
  end.

(** [_bucket_key] *)
Definition bucket_key (meta : TokenMeta) : string * string :=
  (tm_market_id meta, upper (match tm_side meta with Some s => s | None => "n/a" end)).

Definition new_bucket (meta : TokenMeta) : TradeSignalBucket :=
  {| b_market_id := tm_market_id meta; b_token_id := tm_token_id meta;
     b_side := tm_side meta; b_category := tm_category meta; b_title := tm_title meta;
     b_topic_key := tm_topic_key meta; b_end_ts := tm_end_ts meta;
     total_notional := 0; total_size := 0; b_last_price := 0; b_last_size := 0;
     max_vol_1m := None; has_big_trade := false; has_volume_spike := false |}.

(** [_enqueue_trade_bucket]: the first deposit creates the bucket (and
    schedules its flush); every deposit then updates it in place. *)
Definition enqueue_trade_bucket (st : State) (meta : TokenMeta) (trade : TradeTick)
  (notional vol_1m : Q) (is_big_trade is_volume_spike : bool) : State :=
  let key := bucket_key meta in
  let b := match dict_lookup key_eqb (trade_buckets st) key with
           | Some b => b | None => new_bucket meta end in
  let b' := {| b_market_id := b_market_id b; b_token_id := tm_token_id meta;
               b_side := tm_side meta; b_category := tm_category meta;
               b_title := tm_title meta; b_topic_key := tm_topic_key meta;
               b_end_ts := tm_end_ts meta;
               total_notional := if is_big_trade then (total_notional b + notional)%Q
                                 else total_notional b;
               total_size := if is_big_trade then (total_size b + tt_size trade)%Q
                             else total_size b;
               b_last_price := tt_price trade; b_last_size := tt_size trade;
               max_vol_1m := if is_volume_spike
                             then match max_vol_1m b with
                                  | None => Some vol_1m
                                  | Some m => Some (qmax m vol_1m) end
                             else max_vol_1m b;
               has_big_trade := has_big_trade b || is_big_trade;
               has_volume_spike := has_volume_spike b || is_volume_spike |} in
  set_buckets st (dict_set key_eqb (trade_buckets st) key b').

(** The payload [_flush_trade_bucket] builds from a bucket. *)
Definition bucket_payload (b : TradeSignalBucket) : SignalPayload :=
  if has_big_trade b then
    let avg_price := if Qltb 0 (total_size b) then (total_notional b / total_size b)%Q
                     else b_last_price b in
    BigTradePayload (total_notional b) avg_price
      (if Qeq_bool (total_size b) 0 then b_last_size b else total_size b) (max_vol_1m b)
  else
    VolumeSpikePayload (match max_vol_1m b with Some v => v | None => 0 end)
      (b_last_price b) (b_last_size b).

(** [_flush_trade_bucket(key)], run [merge_window_sec] after the first
    deposit; [now] is the clock at that time. *)
Definition flush_trade_bucket (cfg : Config) (st : State) (key : string * string) (now : Z)
  : State :=
  match dict_lookup key_eqb (trade_buckets st) key with
  | None => st
  | Some b =>
      let st := set_buckets st (dict_pop key_eqb (trade_buckets st) key) in
      match dict_lookup String.eqb (token_meta st) (b_token_id b) with
      | None => st
      | Some meta =>
          if is_market_expired cfg meta now then st
          else emit_signal cfg st meta (bucket_payload b) [] TRADE_SIGNAL now
      end
  end.

(** [SignalEngine.handle_trade(trade)] *)
Definition handle_trade (cfg : Config) (st : State) (trade : TradeTick) (now : Z) : State :=
  match dict_lookup String.eqb (token_meta st) (tt_token_id trade) with
  | None => st
  | Some meta =>
    if is_market_expired cfg meta now then st else
    let notional := (tt_price trade * tt_size trade)%Q in
    let w0 := match dict_lookup String.eqb (windows st) (tt_token_id trade) with
              | Some w => w | None => empty_window end in
    let w := window_trim (window_add w0 (tt_ts_ms trade) notional) (now - 60000) in
    let st := set_windows st (dict_set String.eqb (windows st) (tt_token_id trade) w) in
    let st := if is_source (major_change_source cfg) "trade"
              then maybe_emit_major_change cfg st meta (tt_price trade) (tt_ts_ms trade)
                     (Some notional) "trade" None None now
              else st in
    let is_big_trade := Qle_bool (big_trade_usd cfg) notional in
    let is_volume_spike := Qle_bool (big_volume_1m_usd cfg) (total w) in
    if (is_big_trade || is_volume_spike) && is_high_confidence_market cfg (tt_price trade)
       && negb (is_reverse_allow_price cfg (tt_price trade)) then st else
    if Qltb 0 (merge_window_sec cfg) && (is_big_trade || is_volume_spike) then
      enqueue_trade_bucket st meta trade notional (total w) is_big_trade is_volume_spike
    else if is_big_trade && is_volume_spike then
      emit_signal cfg st meta
        (BigTradePayload notional (tt_price trade) (tt_size trade) (Some (total w)))
        [] TRADE_SIGNAL now
    else
      let st := if is_big_trade
                then emit_signal cfg st meta
                       (BigTradePayload notional (tt_price trade) (tt_size trade) None)
                       [] TRADE_SIGNAL now
                else st in
      if is_volume_spike
      then emit_signal cfg st meta
             (VolumeSpikePayload (total w) (tt_price trade) (tt_size trade)) [] TRADE_SIGNAL now
      else st
  end.

Definition empty_state (metas : meta_dict) : State :=
  {| windows := []; cooldowns := []; token_meta := metas; last_price := [];
     best_quote := []; trade_buckets := []; published := [] |}.

(** A merging engine: high-confidence threshold 0.75, reverse-allow 0.125,
    merge window 1 s, big trade at 0.25 USD notional. *)
Definition merge_cfg : Config :=
  mk_config (1#4) 100 0 0 60 0 "trade" 0 0 0 (3#4) (1#8) 1 true.

Definition meta_yes : TokenMeta :=
  {| tm_token_id := "tok-yes"; tm_market_id := "m1"; tm_category := "politics";
     tm_title := None; tm_side := Some "YES"; tm_topic_key := None; tm_end_ts := None |}.

Definition t0 : Z := 1700000000000.
Definition cheap_trade : TradeTick :=
  {| tt_token_id := "tok-yes"; tt_price := 1#16; tt_size := 5; tt_ts_ms := t0 |}.
Definition even_trade : TradeTick :=
  {| tt_token_id := "tok-yes"; tt_price := 1#2; tt_size := 2; tt_ts_ms := t0 + 100 |}.

(** Both trades deposited, then the flush one second later. *)
Definition merged_run : State :=
  let st := handle_trade merge_cfg (empty_state [("tok-yes", meta_yes)]) cheap_trade t0 in
  let st := handle_trade merge_cfg st even_trade (t0 + 100) in
  flush_trade_bucket merge_cfg st ("m1", "YES") (t0 + 1000).

(** The state just before that flush. *)
Definition pre_flush : State :=
  handle_trade merge_cfg
    (handle_trade merge_cfg (empty_state [("tok-yes", meta_yes)]) cheap_trade t0)
    even_trade (t0 + 100).

(** The detector configuration of [test_merge_big_trade_and_volume_spike_same_trade],
    merging off. *)
Definition test_cfg : Config :=
  mk_config 100 100 0 0 60 0 "trade" 0 0 0 0 0 0 true.

End Engine.

(* ------------------------------------------------------------------ *)
(** ** domain/selection.py *)

Module Selection.

(** domain/models.py [Market], the fields selection and the catalog read or
    write; the others ([event_id], [category], [enable_orderbook],
    [token_ids], [outcomes], [raw]) are carried along untouched. *)
Record Market := {
  market_id : string;
  question : string;
  active : bool;
  closed : bool;
  resolved : bool;
  end_ts : option Z;
  liquidity : option Q;
  volume_24h : option Q;
  topic_key : option string }.

Definition set_topic_key (m : Market) (k : string) : Market :=
  {| market_id := market_id m; question := question m; active := active m;
     closed := closed m; resolved := resolved m; end_ts := end_ts m;
     liquidity := liquidity m; volume_24h := volume_24h m; topic_key := Some k |}.

Definition is_lower_alnum (c : ascii) : bool :=
  let n := nat_of_ascii c in
  (Nat.leb 97 n && Nat.leb n 122) || (Nat.leb 48 n && Nat.leb n 57).

(** [re.sub(pattern, " ", s)]: every maximal run of characters matched by
    the class [p] becomes one space. *)
Fixpoint sub_runs (p : ascii -> bool) (s : string) (in_run : bool) : string :=
  match s with
  | EmptyString => EmptyString
  | String c s' =>
      if p c then (if in_run then sub_runs p s' true else String " " (sub_runs p s' true))
      else String c (sub_runs p s' false)
  end.

(** [normalize_topic] *)
Definition normalize_topic (text : string) : string :=
  let lowered := lower text in
  let cleaned := strip (sub_runs (fun c => negb (is_lower_alnum c)) lowered false) in
  sub_runs is_ws cleaned false.

Definition str_truthy (s : option string) : bool :=
  match s with Some s => negb (String.eqb s "") | None => false end.

(** [assign_topic_keys]: the markets are updated in place, so the caller's
    objects and the ones selection returns are the updated ones. *)
Definition assign_topic_key (m : Market) : Market :=
  if str_truthy (topic_key m) then m else set_topic_key m (normalize_topic (question m)).

Definition assign_topic_keys (ms : list Market) : list Market := map assign_topic_key ms.

Definition q_or0 (x : option Q) : Q := match x with Some q => q | None => 0 end.

(** [_priority_value] *)
Definition priority_value (m : Market) (key : string) : Q :=
  if String.eqb key "liquidity" then (- q_or0 (liquidity m))%Q
  else if String.eqb key "volume_24h" then (- q_or0 (volume_24h m))%Q
  else if String.eqb key "end_ts" then
    inject_Z (match end_ts m with
              | Some e => if Z.eqb e 0 then 2 ^ 63 else e
              | None => 2 ^ 63 end)
  else 0.

Definition priority_key (keys : list string) (m : Market) : list Q :=
  map (priority_value m) keys.

(** Python's [<] on tuples: the first unequal position decides, else the
    shorter tuple is smaller. *)
Fixpoint tuple_lt (a b : list Q) : bool :=
  match a, b with
  | x :: a', y :: b' => if Qeq_bool x y then tuple_lt a' b' else Qltb x y
  | [], _ :: _ => true
  | _, _ => false
  end.

(** [xs[:k]] *)
Definition py_prefix {A} (xs : list A) (k : Z) : list A :=
  if Z.leb 0 k then firstn (Z.to_nat k) xs
  else firstn (Z.to_nat (Z.max 0 (Z.of_nat (length xs) + k))) xs.

Definition group_key (m : Market) : string :=
  match topic_key m with
  | Some s => if String.eqb s "" then market_id m else s
  | None => market_id m
  end.

(** [grouped.setdefault(key, []).append(market)] *)
Definition group_step (g : list (string * list Market)) (m : Market)
  : list (string * list Market) :=
  let k := group_key m in
  dict_set String.eqb g k
    ((match dict_lookup String.eqb g k with Some l => l | None => [] end) ++ [m]).

Definition group_markets (ms : list Market) : list (string * list Market) :=
  fold_left group_step ms [].

(** [select_primary_markets] *)
Definition select_primary_markets (markets : list Market) (priority : list string)
  (max_per_topic : Z) : list Market :=
  let markets := assign_topic_keys markets in
  concat (map (fun kg => py_prefix (sort_key tuple_lt (priority_key priority) false (snd kg))
                           max_per_topic)
              (group_markets markets)).

(** [kw in question] *)
Fixpoint contains (kw s : string) : bool :=
  String.prefix kw s || match s with EmptyString => false | String _ s' => contains kw s' end.

Definition keep_market (min_liquidity : option Q) (allow block : list string) (m : Market)
  : bool :=
  let q := lower (question m) in
  (match min_liquidity with
   | Some ml => negb (Qltb (q_or0 (liquidity m)) ml)
   | None => true end)
  && (match allow with [] => true | _ => existsb (fun kw => contains kw q) allow end)
  && negb (match block with [] => false | _ => existsb (fun kw => contains kw q) block end).

(** [select_top_markets] *)
Definition select_top_markets (markets : list Market) (top_k : Z) (hot_sort : list string)
  (min_liquidity : option Q) (keyword_allow keyword_block : list string) : list Market :=
  let allow := map lower keyword_allow in
  let block := map lower keyword_block in
  let filtered := filter (keep_market min_liquidity allow block) markets in
  py_prefix (sort_key tuple_lt (priority_key hot_sort) false filtered) top_k.

Definition mk_market (id q : string) (liq : option Q) : Market :=
  {| market_id := id; question := q; active := true; closed := false; resolved := false;
     end_ts := None; liquidity := liq; volume_24h := None; topic_key := None |}.

Definition mkt_a : Market := mk_market "a" "Will it rain?" (Some 10%Q).
Definition mkt_b : Market := mk_market "b" "Will it rain?" (Some 10%Q).
Definition mkt_c : Market := mk_market "c" "Who wins the cup?" (Some 5%Q).

End Selection.

(* ------------------------------------------------------------------ *)
(** ** adapters/gamma_http.py: [GammaHttpCatalog], the /events path *)

Module Gamma.

(** The catalog settings [list_markets] reads, as [__init__] stores them. *)
Record Catalog := {
  events_limit_per_category : option Z;
  events_sort_primary : option string;
  events_sort_secondary : option string;
  events_sort_desc : bool }.

(** [_normalize_limit] (on an [int] or [None]) *)
Definition normalize_limit (v : option Z) : option Z :=
  match v with None => None | Some l => if Z.leb l 0 then None else Some l end.

(** [_normalize_sort_key] *)
Definition normalize_sort_key (v : option string) : option string :=
  match v with
  | None => None
  | Some s => let t := strip s in if String.eqb t "" then None else Some t
  end.

Definition mk_catalog (limit : option Z) (primary secondary : option string) (desc : bool)
  : Catalog :=
  {| events_limit_per_category := normalize_limit limit;
     events_sort_primary := normalize_sort_key primary;
     events_sort_secondary := normalize_sort_key secondary;
     events_sort_desc := desc |}.

(** The constructor's defaults. *)
Definition default_catalog : Catalog :=
  mk_catalog None (Some "volume24hr") (Some "liquidity") true.

Definition str_mem (s : string) (l : list string) : bool := existsb (String.eqb s) l.

(** [_to_bool] *)
Definition to_bool (v : json) (default : bool) : bool :=
  match v with
  | JNull => default
  | JBool b => b
  | JInt z => negb (Z.eqb z 0)
  | JFloat q => negb (Qeq_bool q 0)
  | JStr s =>
      let lowered := lower (strip s) in
      if str_mem lowered ["true"; "1"; "yes"] then true
      else if str_mem lowered ["false"; "0"; "no"] then false
      else default
  | _ => default
  end.

(** [_event_is_active] *)
Definition event_is_active (event : dict) : bool :=
  let active := to_bool (get event "active") true in
  let closed := to_bool (get event "closed") false in
  let archived := to_bool (get event "archived") false in
  if negb active || closed || archived then false else
  let pending := to_bool (get event "pendingDeployment") false in
  let deploying := to_bool (get event "deploying") false in
  negb (pending || deploying).

Fixpoint or_chain (d : dict) (ks : list string) (last : json) : json :=
  match ks with [] => last | k :: ks' => py_or (get d k) (or_chain d ks' last) end.

(** [_sum_market_metric] *)
Definition sum_market_metric (event : dict) (metric : string) : Q :=
  match py_or (get event "markets") (JList []) with
  | JList items =>
      fold_left (fun total item =>
        match item with
        | JObj it =>
            let value :=
              if String.eqb metric "volume"
              then to_float (or_chain it ["volume_24h"; "volume24h"; "volume24hr"] (get it "volume24hrClob"))
              else if String.eqb metric "liquidity"
              then to_float (or_chain it ["liquidity"; "liquidityUSD"] (get it "liquidityNum"))
              else None in
            match value with Some v => (total + v)%Q | None => total end
        | _ => total
        end) items 0%Q
  | _ => 0%Q
  end.

Fixpoint first_float (event : dict) (ks : list string) : option Q :=
  match ks with
  | [] => None
  | k :: ks' => match to_float (get event k) with Some v => Some v | None => first_float event ks' end
  end.

(** [_event_volume_24h] and [_event_liquidity] *)
Definition event_volume_24h (event : dict) : Q :=
  match first_float event ["volume_24h"; "volume24h"; "volume24hr"; "volume24hrClob"] with
  | Some v => v | None => sum_market_metric event "volume" end.

Definition event_liquidity (event : dict) : Q :=
  match first_float event ["liquidity"; "liquidityUSD"; "liquidityNum"] with
  | Some v => v | None => sum_market_metric event "liquidity" end.

(** [_event_metric] *)
Definition event_metric (event : dict) (key : option string) : Q :=
  match key with
  | None => 0
  | Some k =>
      if String.eqb k "" then 0 else
      let key_norm := lower (strip k) in
      if str_mem key_norm ["volume24hr"; "volume24h"; "volume_24h"; "volume24hrclob"]
      then event_volume_24h event
      else if str_mem key_norm ["liquidity"; "liquidityusd"; "liquiditynum"]
      then event_liquidity event
      else 0
  end.

(** [_sort_events] *)
Definition sort_events (cat : Catalog) (events : list dict) : list dict :=
  match events_sort_primary cat with
  | None => events
  | Some primary =>
      sort_key Selection.tuple_lt
        (fun ev => [event_metric ev (Some primary); event_metric ev (events_sort_secondary cat)])
        (events_sort_desc cat) events
  end.

(** [_parse_market], projected on the fields [list_markets] filters on:
    [market_id], [active], [closed], [resolved]. *)
Record MarketHead := {
  mh_market_id : string; mh_active : bool; mh_closed : bool; mh_resolved : bool }.

Definition parse_market (raw : dict) : MarketHead :=
  {| mh_market_id :=
       py_str (or_chain raw ["conditionId"; "condition_id"; "id"; "market_id"; "marketId"]
                 (JStr ""));
     mh_active := to_bool (get raw "active") true;
     mh_closed := to_bool (get raw "closed") false;
     mh_resolved := to_bool (get raw "resolved") false |}.

Fixpoint dict_items (l : list json) : list dict :=
  match l with
  | [] => []
  | JObj d :: l' => d :: dict_items l'
  | _ :: l' => dict_items l'
  end.

(** [_extract_markets_from_event]: the enrichment writes [_event_id],
    [endDate] and [enableOrderBook] into each item and the event title
    fills an empty question; none of these feeds the projected fields. *)
Definition extract_markets_from_event (event : dict) : list MarketHead :=
  match py_or (get event "markets") (JList []) with
  | JList items => map parse_market (dict_items items)
  | _ => []
  end.

(** The list comprehension that ends [list_markets]. *)
Definition market_kept (active closed : bool) (m : MarketHead) : bool :=
  negb (String.eqb (mh_market_id m) "")
  && (if active then mh_active m else true)
  && (if negb closed then negb (mh_closed m) else true)
  && negb (mh_resolved m).

(** [list_markets(tag_id, active, closed)] with the events endpoint, from
    the events [_paginate("/events", ...)] returned. *)
Definition list_markets_events (cat : Catalog) (events : list dict) (active closed : bool)
  : list MarketHead :=
  let events := filter event_is_active events in
  let events := sort_events cat events in
  let events := match events_limit_per_category cat with
                | Some l => if Z.ltb l (Z.of_nat (length events))
                            then firstn (Z.to_nat l) events else events
                | None => events
                end in
  let markets := flat_map extract_markets_from_event events in
  filter (market_kept active closed) markets.

(** An active event that ended on 2020-01-01. *)
Definition past_event : dict :=
  [("id", JStr "e1"); ("active", JBool true); ("closed", JBool false);
   ("endDate", JStr "2020-01-01T00:00:00Z"); ("end_ts", JInt 1577836800000);
   ("markets", JList [JObj [("conditionId", JStr "0xabc"); ("question", JStr "Old?")]])].

Definition archived_event : dict :=
  [("id", JStr "e2"); ("archived", JStr "yes");
   ("markets", JList [JObj [("conditionId", JStr "0xdef")]])].

End Gamma.
(* ------------------------------------------------------------------ *)
(** ** Order-book registry: price keys and sequence tracking *)

Module OrderBookFacts.
Import OrderBook.

(** No two prices of the list are equal as numbers. *)
Fixpoint q_distinct (l : list Q) : Prop :=
  match l with
  | [] => True
  | x :: l' => Forall (fun y => ~ (x == y)%Q) l' /\ q_distinct l'
  end.

Fixpoint q_distinctb (l : list Q) : bool :=
  match l with
  | [] => true
  | x :: l' => forallb (fun y => negb (Qeq_bool x y)) l' && q_distinctb l'
  end.

(** A [dict[float, float]] never holds two keys that compare equal. *)
Definition book_distinct (b : levels) : Prop := q_distinct (map fst b).

Definition reg_distinct (reg : Registry) : Prop :=
  Forall (fun kv => book_distinct (bids (snd kv)) /\ book_distinct (asks (snd kv))) reg.

(** The book [apply_change] writes for [side] ([book = self.bids if side
    == "BUY" else self.asks]) and the other one. *)
Definition side_book (st : OrderBookState) (side : string) : levels :=
  if String.eqb side "BUY" then bids st else asks st.

Definition other_book (st : OrderBookState) (side : string) : levels :=
  if String.eqb side "BUY" then asks st else bids st.

(** [book.get(price)] *)
Definition lookup_price (b : levels) (p : Q) : option Q := dict_lookup Qeq_bool b p.

Definition ex_book_state : OrderBookState :=
  {| token_id := "tok-1"; bids := [((1#2)%Q, 10%Q); ((2#5)%Q, 4%Q)]; asks := [((3#5)%Q, 7%Q)];
     last_seq := Some 41; last_ts_ms := Some 1000 |}.

(** A price-change message of [tok-1] with sequence 42. *)
Definition ex_change_payload : dict :=
  [("asset_id", JStr "tok-1"); ("seq", JInt 42); ("timestamp", JInt 2000);
   ("price_changes", JList [JObj [("side", JStr "buy"); ("price", JStr "0.45");
                                  ("size", JStr "3")]])].

Definition ex_registry : Registry := [("tok-1", ex_book_state)].

Definition ex_snapshot : BookSnapshot :=
  {| bs_token_id := "tok-1"; bs_bids := [{| price := 1#2; size := 5 |}];
     bs_asks := [{| price := 3#5; size := 1 |}]; bs_ts_ms := 3000 |}.

End OrderBookFacts.
(* ------------------------------------------------------------------ *)
(** ** adapters/clob_ws.py: the connection URL *)

Module ClobWsUrl.

Fixpoint lstrip_slash (s : string) : string :=
  match s with
  | String c s' => if Ascii.eqb c "/"%char then lstrip_slash s' else s
  | EmptyString => EmptyString
  end.

(** [s.rstrip('/')] *)
Definition rstrip_slash (s : string) : string := rev_str (lstrip_slash (rev_str s)).

(** [_resolve_ws_url()] on [self._ws_url = ws_url] and [self._channel = channel]. *)
Definition resolve_ws_url (ws_url channel : string) : string :=
  if Selection.contains "/ws/" ws_url then ws_url
  else String.append (rstrip_slash ws_url) (String.append "/ws/" channel).

End ClobWsUrl.

Module ClobWsFacts.
Import ClobWs.

(** A connected feed already subscribed to [a] and [b]. *)
Definition feed_ab : Feed :=
  {| channel := "market"; custom_feature_enabled := true; initial_dump := true;
     ws_open := true; desired_ids := ["a"; "b"]; subscribed_ids := ["a"; "b"]; sent := [] |}.

End ClobWsFacts.

(* ------------------------------------------------------------------ *)
(** ** application/monitor.py: the rest of [SignalDetector] *)

Module DetectorMore.
Import Events Signals Detector.

(** [token in token_meta] *)
Definition in_registry (metas : meta_dict) (tok : string) : bool :=
  match dict_lookup String.eqb metas tok with Some _ => true | None => false end.

(** [SignalDetector.update_registry(token_meta)] *)
Definition update_registry (st : State) (metas : meta_dict) : State :=
  {| windows := filter (fun kv => in_registry metas (fst kv)) (windows st);
     cooldowns := filter (fun kv => in_registry metas (fst (fst kv))) (cooldowns st);
     token_meta := metas;
     last_price := filter (fun kv => in_registry metas (fst kv)) (last_price st);
     published := published st |}.

Definition qmin (a b : Q) : Q := if Qltb b a then b else a.

(** [max(xs, default=None)] and [min(xs, default=None)]: the first
    extreme element. *)
Definition py_max (xs : list Q) : option Q :=
  match xs with [] => None | x :: r => Some (fold_left qmax r x) end.
Definition py_min (xs : list Q) : option Q :=
  match xs with [] => None | x :: r => Some (fold_left qmin r x) end.

(** [SignalDetector.handle_book(book)]; [big_wall_size] is the detector's
    [self._big_wall_size]. *)
Definition handle_book (cfg : Config) (big_wall_size : option Q) (st : State)
  (book : OrderBook.BookSnapshot) (now : Z) : State :=
  match dict_lookup String.eqb (token_meta st) (OrderBook.bs_token_id book) with
  | None => st
  | Some meta =>
      let st :=
        if is_source (major_change_source cfg) "book" then
          match py_max (map OrderBook.price (OrderBook.bs_bids book)),
                py_min (map OrderBook.price (OrderBook.bs_asks book)) with
          | Some best_bid, Some best_ask =>
              maybe_emit_major_change cfg st meta ((best_bid + best_ask) / 2)%Q
                (OrderBook.bs_ts_ms book) None "book" now
          | _, _ => st
          end
        else st in
      match big_wall_size with
      | None => st
      | Some thr =>
          let max_bid := match py_max (map OrderBook.size (OrderBook.bs_bids book)) with
                         | Some m => m | None => 0%Q end in
          let max_ask := match py_max (map OrderBook.size (OrderBook.bs_asks book)) with
                         | Some m => m | None => 0%Q end in
          if Qltb (qmax max_bid max_ask) thr then st
          else emit_signal cfg st meta "big_wall"
                 [("max_bid", JFloat max_bid); ("max_ask", JFloat max_ask);
                  ("threshold", JFloat thr)] BOOK_SIGNAL now
      end
  end.

(** A call of the detector, with the clock reading it runs at. *)
Inductive Call :=
| OnTrade (trade : TradeTick) (now : Z)
| OnBook (book : OrderBook.BookSnapshot) (now : Z).

Definition call_now (c : Call) : Z := match c with OnTrade _ n | OnBook _ n => n end.

Definition run_calls (cfg : Config) (big_wall_size : option Q) (st : State)
  (calls : list Call) : State :=
  fold_left (fun s c => match c with
                        | OnTrade t n => handle_trade cfg s t n
                        | OnBook b n => handle_book cfg big_wall_size s b n
                        end) calls st.

(** The events published for token [tok] with signal [sig]. *)
Definition is_signal_of (tok sig : string) (ev : DomainEvent) : bool :=
  match ev_token_id ev with Some t => String.eqb t tok | None => false end
  && match get (ev_metrics ev) "signal" with JStr s => String.eqb s sig | _ => false end.

Definition count_signal (tok sig : string) (evs : list DomainEvent) : nat :=
  length (filter (is_signal_of tok sig) evs).

Fixpoint qsum (xs : list Q) : Q := match xs with [] => 0%Q | x :: r => (x + qsum r)%Q end.

(** A trade window whose running total is the sum of its entries. *)
Definition window_ok (w : TradeWindow) : Prop := (total w == qsum (map snd (entries w)))%Q.

(** A book for [token-1] with a 900-share bid. *)
Definition ex_wall_book : OrderBook.BookSnapshot :=
  {| OrderBook.bs_token_id := "token-1";
     OrderBook.bs_bids := [{| OrderBook.price := 1#2; OrderBook.size := 900 |}];
     OrderBook.bs_asks := [{| OrderBook.price := 3#5; OrderBook.size := 20 |}];
     OrderBook.bs_ts_ms := test_now |}.

(** [test_cfg] with a one-minute cooldown. *)
Definition cool_cfg : Config :=
  {| big_trade_usd := 100; big_volume_1m_usd := 100; cooldown_ms := 60000;
     major_change_pct := 0; major_change_window_ms := 60000;
     major_change_min_notional := 0; major_change_source := "trade" |}.

End DetectorMore.

(* ------------------------------------------------------------------ *)
(** ** application/signals/detector.py: the rest of [SignalEngine] *)

Module EngineMore.
Import Events Signals Engine.

(** [SignalEngine.update_registry(token_meta)]; a dropped bucket's flush
    task is cancelled, so its flush never runs. *)
Definition update_registry (st : State) (metas : meta_dict) : State :=
  let keep := DetectorMore.in_registry metas in
  let active_markets := map (fun kv => tm_market_id (snd kv)) metas in
  {| windows := filter (fun kv => keep (fst kv)) (windows st);
     cooldowns := filter (fun kv => keep (fst (fst kv))) (cooldowns st);
     token_meta := metas;
     last_price := filter (fun kv => keep (fst kv)) (last_price st);
     best_quote := filter (fun kv => keep (fst kv)) (best_quote st);
     trade_buckets :=
       match trade_buckets st with
       | [] => []
       | bs => filter (fun kv => existsb (String.eqb (fst (fst kv))) active_markets) bs
       end;
     published := published st |}.

(** The arguments of one [_enqueue_trade_bucket] call. *)
Record Deposit := {
  d_meta : TokenMeta; d_trade : TradeTick; d_notional : Q; d_vol_1m : Q;
  d_big : bool; d_spike : bool }.

Definition deposit (st : State) (d : Deposit) : State :=
  enqueue_trade_bucket st (d_meta d) (d_trade d) (d_notional d) (d_vol_1m d) (d_big d) (d_spike d).

Definition deposit_all (st : State) (ds : list Deposit) : State := fold_left deposit ds st.

(** Two deposits into the [("m1", "YES")] bucket: a big trade, then a
    volume spike. *)
Definition ex_big_deposit : Deposit :=
  {| d_meta := meta_yes; d_trade := cheap_trade; d_notional := 5#16; d_vol_1m := 5#16;
     d_big := true; d_spike := false |}.
Definition ex_spike_deposit : Deposit :=
  {| d_meta := meta_yes; d_trade := even_trade; d_notional := 1; d_vol_1m := 21#16;
     d_big := false; d_spike := true |}.

(** A call of the engine, with the clock reading it runs at: a trade, or
    the flush of a merge bucket. *)
Inductive Call :=
| OnTrade (trade : TradeTick) (now : Z)
| OnFlush (key : string * string) (now : Z).

Definition call_now (c : Call) : Z := match c with OnTrade _ n | OnFlush _ n => n end.

Definition run_calls (cfg : Config) (st : State) (calls : list Call) : State :=
  fold_left (fun s c => match c with
                        | OnTrade t n => handle_trade cfg s t n
                        | OnFlush k n => flush_trade_bucket cfg s k n
                        end) calls st.

(** The signals published for token [tok] with signal type [sig]. *)
Definition is_signal_of (tok sig : string) (s : Signal) : bool :=
  match ev_token_id (sg_event s) with Some t => String.eqb t tok | None => false end
  && String.eqb (signal_value (sg_payload s)) sig.

Definition count_signal (tok sig : string) (ss : list Signal) : nat :=
  length (filter (is_signal_of tok sig) ss).

(** [merge_cfg] with a one-minute cooldown. *)
Definition cool_merge_cfg : Config :=
  mk_config (1#4) 100 60 0 60 0 "trade" 0 0 0 (3#4) (1#8) 1 true.

End EngineMore.

(* ------------------------------------------------------------------ *)
(** ** adapters/gamma_http.py: outcome tokens and token ids *)

Module GammaTokens.

(** domain/models.py [OutcomeToken] *)
Record OutcomeToken := {
  ot_token_id : string;
  ot_side : option string;
  ot_raw : option dict }.

(** [_attach_outcome_token_ids(outcomes, clob_token_ids)] *)
Definition attach_outcome_token_ids (outcomes : list OutcomeToken) (clob_token_ids : list string)
  : list OutcomeToken :=
  match outcomes, clob_token_ids with
  | [], _ | _, [] => outcomes
  | _, _ =>
      if negb (Nat.eqb (length outcomes) (length clob_token_ids)) then outcomes else
      map (fun oc => {| ot_token_id := if String.eqb (ot_token_id (fst oc)) ""
                                       then snd oc else ot_token_id (fst oc);
                        ot_side := ot_side (fst oc); ot_raw := ot_raw (fst oc) |})
          (combine outcomes clob_token_ids)
  end.

(** [list(dict.fromkeys(xs))]: first occurrences, in order. *)
Definition dict_fromkeys (xs : list string) : list string :=
  fold_left (fun acc x => if existsb (String.eqb x) acc then acc else acc ++ [x]) xs [].

(** The [token_ids] of [_parse_market], from the parsed [clobTokenIds] and
    the outcomes after [_attach_outcome_token_ids]. *)
Definition market_token_ids (clob_token_ids : list string) (outcomes : list OutcomeToken)
  : list string :=
  let token_ids := clob_token_ids
                   ++ map ot_token_id (filter (fun o => negb (String.eqb (ot_token_id o) ""))
                                              outcomes) in
  filter (fun t => negb (String.eqb t "")) (dict_fromkeys token_ids).

(** [s.split(",")] *)
Fixpoint split_on (c : ascii) (s : string) : list string :=
  match s with
  | EmptyString => [EmptyString]
  | String d s' =>
      if Ascii.eqb d c then EmptyString :: split_on c s'
      else match split_on c s' with
           | [] => [String d EmptyString]
           | w :: ws => String d w :: ws
           end
  end.

Section ClobIds.
  (** [json.loads]; [None] when it raises [JSONDecodeError]. *)
  Variable json_loads : string -> option json.

(** [_parse_clob_token_ids(value)] *)
Definition parse_clob_token_ids (value : json) : list string :=
  match value with
  | JNull => []
  | JList l => map py_str (filter truthy l)
  | JStr s =>
      let text := strip s in
      if String.eqb text "" then [] else
      let parsed := if String.prefix "[" text
                    then match json_loads text with
                         | Some (JList l) => Some (map py_str (filter truthy l))
                         | _ => None
                         end
                    else None in
      match parsed with
      | Some ids => ids
      | None =>
          if Selection.contains "," text
          then filter (fun t => negb (String.eqb t "")) (map strip (split_on "," text))
          else [text]
      end
  | _ => []
  end.
End ClobIds.

Definition no_json (s : string) : option json := None.

Definition yes_outcome : OutcomeToken := {| ot_token_id := ""; ot_side := Some "Yes"; ot_raw := None |}.
Definition no_outcome : OutcomeToken :=
  {| ot_token_id := "t-no"; ot_side := Some "No"; ot_raw := None |}.

End GammaTokens.

(* ================================================================== *)
(** * Lemmas *)

Section SortFacts.
  Context {A : Type} (lt : A -> A -> bool).
  Hypothesis lt_asym : forall a b, lt a b = true -> lt b a = false.

Lemma insert_sorted_cons x l y :
    lt x y = false -> sorted_by lt (y :: l) -> sorted_by lt (y :: insert_sorted lt x l).
  Proof.
    revert y; induction l as [|z l IH]; simpl; intros y Hxy Hs.
    - split; [exact Hxy | exact I].
    - destruct Hs as [Hzy Hs]. destruct (lt z x) eqn:E.
      + split; [exact Hzy|]. apply IH; [apply lt_asym; exact E | exact Hs].
      + simpl. split; [exact Hxy|]. split; [exact E | exact Hs].
  Qed.

Lemma insert_sorted_ok x l : sorted_by lt l -> sorted_by lt (insert_sorted lt x l).
  Proof.
    destruct l as [|z l]; simpl; intros Hs; [exact I|].
    destruct (lt z x) eqn:E.
    - apply insert_sorted_cons; [apply lt_asym; exact E | exact Hs].
    - simpl. split; [exact E | exact Hs].
  Qed.

Lemma sort_by_sorted l : sorted_by lt (sort_by lt l).
  Proof.
    induction l as [|x l IH]; simpl; [exact I|]. apply insert_sorted_ok, IH.
  Qed.

Lemma sorted_by_tail x l : sorted_by lt (x :: l) -> sorted_by lt l.
  Proof. destruct l; simpl; tauto. Qed.

  (** Sorting a sorted list changes nothing. *)
Lemma sort_by_sorted_id l : sorted_by lt l -> sort_by lt l = l.
  Proof.
    induction l as [|x l IH]; simpl; intros Hs; [reflexivity|].
    rewrite IH by (eapply sorted_by_tail; exact Hs).
    destruct l as [|y l]; simpl; [reflexivity|].
    destruct Hs as [Hyx _]. rewrite Hyx. reflexivity.
  Qed.

Lemma sorted_by_firstn n l : sorted_by lt l -> sorted_by lt (firstn n l).
  Proof.
    revert n; induction l as [|x l IH]; intros n Hs; destruct n; simpl; try exact I.
    destruct l as [|y l']; destruct n; simpl; try exact I.
    destruct Hs as [H1 H2]. split; [exact H1|].
    specialize (IH (S n) H2). exact IH.
  Qed.
End SortFacts.

Lemma insert_sorted_perm {A} (lt : A -> A -> bool) x l :
  Permutation (insert_sorted lt x l) (x :: l).
Proof.
  induction l as [|y l IH]; simpl; [reflexivity|].
  destruct (lt y x).
  - rewrite IH. apply perm_swap.
  - reflexivity.
Qed.

Lemma sort_by_perm {A} (lt : A -> A -> bool) l : Permutation (sort_by lt l) l.
Proof.
  induction l as [|x l IH]; simpl; [reflexivity|].
  rewrite insert_sorted_perm. apply perm_skip, IH.
Qed.

Lemma Qltb_asym a b : Qltb a b = true -> Qltb b a = false.
Proof.
  unfold Qltb. intros H. apply negb_true_iff in H. apply negb_false_iff.
  apply Qle_bool_iff. apply Qlt_le_weak.
  apply Qnot_le_lt. intro Hc. apply Qle_bool_iff in Hc. congruence.
Qed.

Lemma Qltb_false a b : Qltb a b = false -> (b <= a)%Q.
Proof.
  unfold Qltb. intros H. apply negb_false_iff in H. apply Qle_bool_iff, H.
Qed.

Section DictFacts.
  Context {K V : Type} (keq : K -> K -> bool) (P : V -> Prop).

Lemma dict_set_Forall d k v :
    Forall (fun kv => P (snd kv)) d -> P v -> Forall (fun kv => P (snd kv)) (dict_set keq d k v).
  Proof.
    induction d as [|[k' v'] d IH]; simpl; intros Hd Hv.
    - constructor; [exact Hv | constructor].
    - inversion Hd; subst. destruct (keq k k'); constructor; auto.
  Qed.

Lemma dict_pop_Forall d k :
    Forall (fun kv => P (snd kv)) d -> Forall (fun kv => P (snd kv)) (dict_pop keq d k).
  Proof.
    induction d as [|[k' v'] d IH]; simpl; intros Hd; [constructor|].
    inversion Hd; subst. destruct (keq k k'); auto.
  Qed.

  Hypothesis keq_refl : forall k, keq k k = true.

Lemma dict_lookup_set (d : list (K * V)) k v : dict_lookup keq (dict_set keq d k v) k = Some v.
  Proof.
    induction d as [|[k' v'] d IH]; simpl.
    - rewrite keq_refl. reflexivity.
    - destruct (keq k k') eqn:E; simpl; rewrite ?E; [reflexivity|]. exact IH.
  Qed.
End DictFacts.

Lemma dict_lookup_set_other {V} d k k' (v : V) :
  k' <> k -> dict_lookup String.eqb (dict_set String.eqb d k v) k' = dict_lookup String.eqb d k'.
Proof.
  intros Hne. induction d as [|[k0 v0] d IH]; simpl.
  - destruct (String.eqb k' k) eqn:E; [apply String.eqb_eq in E; congruence | reflexivity].
  - destruct (String.eqb k k0) eqn:E; simpl.
    + apply String.eqb_eq in E; subst k0.
      destruct (String.eqb k' k) eqn:E2; [apply String.eqb_eq in E2; congruence | reflexivity].
    + destruct (String.eqb k' k0); [reflexivity | exact IH].
Qed.

(* ------------------------------------------------------------------ *)
(** ** Order-book registry *)

Module OrderBookProofs.
Import OrderBook OrderBookSpec.

Lemma reg_get_set reg tok st : reg_get (reg_set reg tok st) tok = Some st.
Proof. apply dict_lookup_set, String.eqb_refl. Qed.

Lemma gap_detected s r : r <> s + 1 -> sequence_gap (Some s) (Some r) = (true, Some (s + 1)).
Proof.
  intros Hr. simpl. destruct (Z.eqb r (s + 1)) eqn:E; [apply Z.eqb_eq in E; lia | reflexivity].
Qed.

Lemma no_gap s : sequence_gap (Some s) (Some (s + 1)) = (false, Some (s + 1)).
Proof. simpl. rewrite Z.eqb_refl. reflexivity. Qed.

Lemma reg_inv_get reg tok st :
  reg_inv reg -> reg_get reg tok = Some st -> pos_levels (bids st) /\ pos_levels (asks st).
Proof.
  unfold reg_inv, reg_get. induction reg as [|[k v] reg IH]; simpl; intros Hinv Hget;
    [discriminate|].
  inversion Hinv as [|e l He Hl]; subst. simpl in He.
  destruct (String.eqb tok k); [injection Hget as <-; exact He | auto].
Qed.

Lemma reg_inv_set reg tok st :
  reg_inv reg -> pos_levels (bids st) /\ pos_levels (asks st) -> reg_inv (reg_set reg tok st).
Proof.
  intros Hinv Hst. unfold reg_inv, reg_set.
  apply (dict_set_Forall String.eqb (fun st => pos_levels (bids st) /\ pos_levels (asks st)));
    assumption.
Qed.

Lemma book_change_pos book p sz : pos_levels book -> pos_levels (book_change book p sz).
Proof.
  unfold book_change, pos_levels. intros H. destruct (Qle_bool sz 0) eqn:E.
  - apply (dict_pop_Forall Qeq_bool (fun s => (0 < s)%Q)); exact H.
  - apply (dict_set_Forall Qeq_bool (fun s => (0 < s)%Q)); [exact H|].
    apply Qnot_le_lt. intro Hc. apply Qle_bool_iff in Hc. congruence.
Qed.

Lemma apply_changes_pos (changes : list (string * Q * Q)) st :
  pos_levels (bids st) /\ pos_levels (asks st) ->
  let st' := fold_left (fun s '(sd, p, sz) => apply_change s sd p sz) changes st in
  pos_levels (bids st') /\ pos_levels (asks st').
Proof.
  revert st; induction changes as [|[[sd p] sz] changes IH]; simpl; intros st Hst; [exact Hst|].
  apply IH. unfold apply_change. destruct Hst as [Hb Ha].
  destruct (String.eqb sd "BUY"); simpl; split; auto using book_change_pos.
Qed.

Lemma levels_of_pos ls :
  Forall (fun l => (0 < size l)%Q) ls -> pos_levels (levels_of ls).
Proof.
  unfold levels_of. intros H.
  assert (Hacc : forall acc, pos_levels acc ->
            pos_levels (fold_left (fun d l => dict_set Qeq_bool d (price l) (size l)) ls acc)).
  { induction H as [|l ls Hl Hls IH]; simpl; intros acc Hacc; [exact Hacc|].
    apply IH. apply (dict_set_Forall Qeq_bool (fun s => (0 < s)%Q)); assumption. }
  apply Hacc. constructor.
Qed.

Lemma bids_desc_of_sorted l :
  sorted_by (fun a b => Qltb (price b) (price a)) l -> bids_desc l.
Proof.
  induction l as [|x [|y l] IH]; simpl; intros Hs; try exact I.
  destruct Hs as [H1 H2]. split; [apply Qltb_false; exact H1 | apply IH, H2].
Qed.

Lemma asks_asc_of_sorted l :
  sorted_by (fun a b => Qltb (price a) (price b)) l -> asks_asc l.
Proof.
  induction l as [|x [|y l] IH]; simpl; intros Hs; try exact I.
  destruct Hs as [H1 H2]. split; [apply Qltb_false; exact H1 | apply IH, H2].
Qed.

(** A rebuilt snapshot lists bids by non-increasing and asks by
    non-decreasing price, whatever the state holds. *)
Lemma to_snapshot_sorted st :
  bids_desc (bs_bids (to_snapshot st)) /\ asks_asc (bs_asks (to_snapshot st)).
Proof.
  unfold to_snapshot, sort_key; simpl. split.
  - apply bids_desc_of_sorted, sort_by_sorted. intros a b. apply Qltb_asym.
  - apply asks_asc_of_sorted, sort_by_sorted. intros a b. apply Qltb_asym.
Qed.

(** C2 *)
(** Claim C2: once a token's book has a known [last_seq = s], a snapshot or
    a price change carrying a sequence [r <> s + 1] clears the book (no
    bids, no asks), installs nothing (no snapshot is returned) and reports
    [resync_needed] with [expected_seq = s + 1] and [received_seq = r]. *)
Theorem seq_gap_clears_book reg tok st s r
  (Hst : reg_get reg tok = Some st) (Hs : last_seq st = Some s) (Hr : r <> s + 1) :
  (forall snap payload,
      bs_token_id snap = tok -> extract_sequence payload = Some r ->
      gap_outcome tok s r (registry_apply_snapshot reg snap payload)) /\
  (forall payload,
      extract_token_id payload = Some tok -> extract_sequence payload = Some r ->
      gap_outcome tok s r (registry_apply_price_change reg payload)).
Proof.
  split.
  - intros snap payload Htok Hseq. unfold registry_apply_snapshot.
    rewrite Htok, Hseq, Hst, Hs, (gap_detected s r Hr). simpl.
    repeat split. exists (clear st). rewrite reg_get_set. auto.
  - intros payload Htok Hseq. unfold registry_apply_price_change.
    rewrite Htok, Hst, Hseq, Hs, (gap_detected s r Hr). simpl.
    repeat split. exists (clear st). rewrite reg_get_set. auto.
Qed.

(** The spec's scenario: a snapshot with [seq = 1], then a price change
    with [seq = 3]: resync with expected 2, received 3, empty book. *)
Lemma seq_gap_clears_book_witness :
  gap_outcome "tok" 1 3
    (registry_apply_price_change reg_after_snap1 (payload_change 3 [buy_change "0.5" "20"])).
Proof.
  eapply (proj2 (seq_gap_clears_book reg_after_snap1 "tok" _ 1 3 eq_refl eq_refl _)).
  - reflexivity.
  - reflexivity.
  Unshelve. discriminate.
Defined.

(** C9 *)
(** Claim C9: a price change with the expected sequence [s + 1] whose
    change list parses to no valid entry returns no snapshot and no
    resync, and leaves the registry (hence [last_seq = s]) untouched; a
    following delta with sequence [s + 2] is then reported as a gap. *)
Theorem empty_changes_keep_seq reg tok st s payload
  (Hst : reg_get reg tok = Some st) (Hs : last_seq st = Some s)
  (Htok : extract_token_id payload = Some tok)
  (Hseq : extract_sequence payload = Some (s + 1))
  (Hnone : parse_price_changes payload = []) :
  let '(res, reg') := registry_apply_price_change reg payload in
  r_snapshot res = None /\ r_resync_needed res = false /\ reg' = reg /\
  (exists st', reg_get reg' tok = Some st' /\ last_seq st' = Some s) /\
  (forall payload2,
      extract_token_id payload2 = Some tok -> extract_sequence payload2 = Some (s + 2) ->
      let res2 := fst (registry_apply_price_change reg' payload2) in
      r_resync_needed res2 = true /\ r_expected_seq res2 = Some (s + 1) /\
      r_received_seq res2 = Some (s + 2)).
Proof.
  unfold registry_apply_price_change at 1.
  rewrite Htok, Hst, Hseq, Hs, no_gap, Hnone. simpl.
  split; [reflexivity|]. split; [reflexivity|]. split; [reflexivity|].
  split; [exists st; auto|].
  intros payload2 Htok2 Hseq2.
  pose proof (proj2 (seq_gap_clears_book reg tok st s (s + 2) Hst Hs ltac:(lia))
              payload2 Htok2 Hseq2) as G.
  unfold gap_outcome in G. destruct (registry_apply_price_change reg payload2) as [res2 reg2].
  simpl. destruct G as (_ & H1 & H2 & H3 & _). auto.
Qed.

(** A delta with sequence 2 after the snapshot with sequence 1, whose only
    entry has an unknown side. *)
Lemma empty_changes_keep_seq_witness :
  let payload := payload_change 2 [JObj [("side", JStr "HOLD"); ("price", JStr "0.5");
                                         ("size", JStr "3")]] in
  let '(res, reg') := registry_apply_price_change reg_after_snap1 payload in
  r_snapshot res = None /\ r_resync_needed res = false /\ reg' = reg_after_snap1 /\
  (exists st', reg_get reg' "tok" = Some st' /\ last_seq st' = Some 1) /\
  (forall payload2,
      extract_token_id payload2 = Some "tok" -> extract_sequence payload2 = Some (1 + 2) ->
      let res2 := fst (registry_apply_price_change reg' payload2) in
      r_resync_needed res2 = true /\ r_expected_seq res2 = Some (1 + 1) /\
      r_received_seq res2 = Some (1 + 2)).
Proof.
  intro payload.
  exact (empty_changes_keep_seq reg_after_snap1 "tok" _ 1 payload
           eq_refl eq_refl eq_refl eq_refl eq_refl).
Defined.

(** C3 *)
(** Claim C3 fails on [apply_snapshot]: a received snapshot whose bids are
    listed by increasing price and contain a zero-size level is returned
    as received (bids not non-increasing) and installed as is (a level of
    size 0 is retained). *)
Lemma snapshot_levels_not_normalized :
  let '(res, reg') := registry_apply_snapshot [] snap_raw (payload_snap 1) in
  r_snapshot res = Some snap_raw /\ ~ bids_desc (bs_bids snap_raw) /\ ~ reg_inv reg'.
Proof.
  simpl. split; [reflexivity|]. split.
  - intros [H _]. unfold Qle in H. simpl in H. lia.
  - intros H. inversion H as [|e l [Hb _] _]; subst.
    inversion Hb as [|kv l' Hkv _]; subst. unfold Qlt in Hkv. simpl in Hkv. lia.
Qed.

(** Claim C3 as amended: [apply_price_change] keeps every retained level at
    a positive size, and every snapshot it returns lists bids by
    non-increasing and asks by non-decreasing price; [apply_snapshot]
    keeps the invariant for a snapshot whose levels all have positive
    size, and returns the received snapshot itself, unsorted. *)
Theorem book_invariant_amended reg (Hinv : reg_inv reg) :
  (forall payload,
      let '(res, reg') := registry_apply_price_change reg payload in
      reg_inv reg' /\
      (forall snap, r_snapshot res = Some snap ->
                    bids_desc (bs_bids snap) /\ asks_asc (bs_asks snap))) /\
  (forall snap payload,
      Forall (fun l => (0 < size l)%Q) (bs_bids snap) ->
      Forall (fun l => (0 < size l)%Q) (bs_asks snap) ->
      let '(res, reg') := registry_apply_snapshot reg snap payload in
      reg_inv reg' /\ (r_snapshot res = None \/ r_snapshot res = Some snap)).
Proof.
  split.
  - intros payload. unfold registry_apply_price_change.
    destruct (extract_token_id payload) as [tok|]; [|split; [exact Hinv | discriminate]].
    destruct (reg_get reg tok) as [st|] eqn:Hst; [|split; [exact Hinv | discriminate]].
    destruct (sequence_gap (last_seq st) (extract_sequence payload)) as [[|] expected].
    + split; [|discriminate]. apply reg_inv_set; [exact Hinv|]. simpl.
      split; constructor.
    + destruct (parse_price_changes payload) as [|c cs] eqn:Hc;
        [split; [exact Hinv | discriminate]|].
      pose proof (apply_changes_pos (c :: cs) st (reg_inv_get reg tok st Hinv Hst)) as Hp.
      simpl in Hp. split.
      * apply reg_inv_set; [exact Hinv | exact Hp].
      * intros snap Hsnap. injection Hsnap as <-. apply to_snapshot_sorted.
  - intros snap payload Hb Ha. unfold registry_apply_snapshot.
    destruct (sequence_gap _ _) as [[|] expected].
    + split; [|left; reflexivity]. apply reg_inv_set; [exact Hinv|]. simpl.
      split; constructor.
    + split; [|right; reflexivity]. apply reg_inv_set; [exact Hinv|]. simpl.
      split; apply levels_of_pos; assumption.
Qed.

(** The registry after the snapshot with [seq = 1] satisfies the invariant. *)
Lemma book_invariant_amended_witness :
  reg_inv reg_after_snap1 /\
  (forall payload,
      let '(res, reg') := registry_apply_price_change reg_after_snap1 payload in
      reg_inv reg' /\
      (forall snap, r_snapshot res = Some snap ->
                    bids_desc (bs_bids snap) /\ asks_asc (bs_asks snap))).
Proof.
  assert (H : reg_inv reg_after_snap1).
  { unfold reg_inv, pos_levels. vm_compute.
    repeat constructor; unfold Qlt; simpl; lia. }
  split; [exact H | exact (proj1 (book_invariant_amended reg_after_snap1 H))].
Defined.

End OrderBookProofs.

(* ------------------------------------------------------------------ *)
(** ** Multiplex sink *)

Module MultiplexProofs.
Import Events Multiplex.

Definition present (sinks : list (string * Sink)) (n : string) : bool :=
  match dict_lookup String.eqb sinks n with Some _ => true | None => false end.

Definition fails (sinks : list (string * Sink)) (payload : DomainEvent) (n : string) : Prop :=
  exists s, dict_lookup String.eqb sinks n = Some s /\ sink_raises s payload = true.

Lemma mem_In x l : mem x l = true <-> In x l.
Proof.
  unfold mem. rewrite existsb_exists. split.
  - intros [y [Hy Heq]]. apply String.eqb_eq in Heq. subst. exact Hy.
  - intros H. exists x. split; [exact H | apply String.eqb_refl].
Qed.

Lemma publish_loop_spec sinks payload names :
  forall called errs,
  let '(c, e) := publish_loop sinks payload names called errs in
  c = called ++ filter (present sinks) names /\
  (forall n, In n e <-> In n errs \/ (In n names /\ fails sinks payload n)).
Proof.
  induction names as [|x names IH]; intros called errs; simpl.
  - rewrite app_nil_r. split; [reflexivity|]. intros n. split; [auto|].
    intros [H | [[] _]]. exact H.
  - assert (Hp : present sinks x = match dict_lookup String.eqb sinks x with
                                     | Some _ => true | None => false end) by reflexivity.
    rewrite Hp. destruct (dict_lookup String.eqb sinks x) as [s|] eqn:Hx.
    + set (errs' := if sink_raises s payload then
                      (if mem x errs then errs else errs ++ [x]) else errs).
      specialize (IH (called ++ [x]) errs').
      destruct (publish_loop sinks payload names (called ++ [x]) errs') as [c e].
      destruct IH as [Hc He]. split; [rewrite Hc, <- app_assoc; reflexivity|].
      intros n. rewrite He. unfold errs'. unfold fails.
      destruct (sink_raises s payload) eqn:Hr.
      * destruct (mem x errs) eqn:Hm.
        -- apply mem_In in Hm. split.
           ++ intros [H | [H1 H2]]; auto.
           ++ intros [H | [[<- | H1] H2]]; auto.
        -- rewrite in_app_iff. simpl. split.
           ++ intros [[H | [<- | []]] | [H1 H2]]; auto.
              right. split; [left; reflexivity | exists s; auto].
           ++ intros [H | [[<- | H1] H2]]; auto.
      * split.
        -- intros [H | [H1 H2]]; auto.
        -- intros [H | [[<- | H1] [s' [Hs' Hr']]]]; auto.
           rewrite Hx in Hs'. injection Hs' as <-. congruence.
           right. split; [exact H1 | exists s'; auto].
    + specialize (IH called errs).
      destruct (publish_loop sinks payload names called errs) as [c e].
      destruct IH as [Hc He]. split; [exact Hc|].
      intros n. rewrite He. split.
      * intros [H | [H1 H2]]; auto.
      * intros [H | [[<- | H1] H2]]; auto.
        destruct H2 as [s' [Hs' _]]. congruence.
Qed.

Lemma raise_check_spec m errs :
  (raise_check m errs <> None <-> exists n, In n errs /\ In n (required m)) /\
  (forall missing, raise_check m errs = Some missing ->
                   forall n, In n missing <-> In n errs /\ In n (required m)).
Proof.
  unfold raise_check.
  set (F := filter (fun n => mem n (required m)) errs).
  assert (HF : forall n, In n F <-> In n errs /\ In n (required m)).
  { intros n. unfold F. rewrite filter_In, mem_In. reflexivity. }
  assert (HP : Permutation (sort_key String.ltb (fun s => s) false F) F)
    by (unfold sort_key; apply sort_by_perm).
  destruct errs as [|e0 es].
  - split; [split; [intros H; congruence | intros [n [[] _]]] | discriminate].
  - destruct (String.eqb (mode m) "required_sinks" ||
              negb match required m with [] => true | _ => false end) eqn:Hc.
    + destruct (sort_key String.ltb (fun s => s) false F) as [|x xs] eqn:Hs.
      * split; [|discriminate]. split; [intros H; congruence|].
        intros [n Hn]. apply HF in Hn. apply Permutation_sym in HP.
        apply (Permutation_in _ HP) in Hn. destruct Hn.
      * split.
        -- split; [intros _|discriminate].
           exists x. apply HF. apply (Permutation_in _ HP). left. reflexivity.
        -- intros missing Hm. injection Hm as <-. intros n. rewrite <- HF.
           split; intros Hn; [apply (Permutation_in _ HP), Hn|].
           apply Permutation_sym in HP. apply (Permutation_in _ HP), Hn.
    + apply orb_false_iff in Hc. destruct Hc as [_ Hc].
      destruct (required m) as [|r rs]; [|discriminate].
      split; [split; [intros H; congruence | intros [n [_ []]]] | discriminate].
Qed.

(** C5 *)
(** Claim C5 fails on [mode = "required_sinks"]: with no [required_sinks]
    listed, a failing sink makes no error surface. *)
Lemma required_mode_alone_swallows :
  let o := publish (mux_ab "required_sinks" []) sample_event in
  called o = ["a"; "b"] /\ errors o = ["b"] /\ raised o = None.
Proof. vm_compute. auto. Qed.

(** Claim C5 as amended: every resolved target present in [sinks] is
    called, in order; the failing ones are recorded; [publish] raises,
    naming exactly the failing sinks listed in [required_sinks], iff one
    of those failed; the mode adds nothing to [required_sinks]. *)
Theorem publish_raises_iff_required_failed m ev :
  let targets := resolve_targets m (ev_event_type ev) in
  let o := publish m ev in
  called o = filter (present (sinks m)) targets /\
  (forall n, In n (errors o) <-> In n targets /\ fails (sinks m) (transform_event m ev) n) /\
  (raised o <> None <-> exists n, In n (errors o) /\ In n (required m)) /\
  (forall missing, raised o = Some missing ->
                   forall n, In n missing <-> In n (errors o) /\ In n (required m)).
Proof.
  intros targets. unfold publish. fold targets.
  pose proof (publish_loop_spec (sinks m) (transform_event m ev) targets [] []) as H.
  destruct (publish_loop (sinks m) (transform_event m ev) targets [] []) as [c e].
  destruct H as [Hc He]. simpl.
  split; [exact Hc|]. split.
  - intros n. rewrite He. split; [intros [[] | H]; exact H | intros H; right; exact H].
  - apply raise_check_spec.
Qed.

(** The spec's scenario: sinks [a] (ok) and [b] (raises), [required = ["b"]]:
    publish raises naming [b], and [a] was called. *)
Lemma publish_required_example :
  let o := publish (mux_ab "best_effort" ["b"]) sample_event in
  In "a" (called o) /\ raised o = Some ["b"].
Proof. vm_compute. auto. Qed.

Lemma filter_all_false {A} (f : A -> bool) l :
  (forall x, In x l -> f x = false) -> filter f l = [].
Proof.
  induction l as [|x l IH]; simpl; intros H; [reflexivity|].
  rewrite (H x (or_introl eq_refl)). apply IH. intros y Hy. apply H. right. exact Hy.
Qed.

(** C10 *)
(** Claim C10: names routed to but absent from [sinks] are skipped: never
    called, never recorded as errors; when every routed name is absent,
    [publish] calls no sink and returns normally, whatever
    [required_sinks] lists. *)
Theorem absent_route_names_skipped m ev :
  let o := publish m ev in
  (forall n, dict_lookup String.eqb (sinks m) n = None ->
             ~ In n (called o) /\ ~ In n (errors o)) /\
  ((forall n, In n (resolve_targets m (ev_event_type ev)) ->
              dict_lookup String.eqb (sinks m) n = None) ->
   called o = [] /\ errors o = [] /\ raised o = None).
Proof.
  destruct (publish_raises_iff_required_failed m ev) as (Hc & He & _).
  simpl in Hc, He |- *. split.
  - intros n Hn. split.
    + rewrite Hc. rewrite filter_In. unfold present. rewrite Hn. intros [_ Hf]; discriminate.
    + rewrite He. intros [_ [s [Hs _]]]. congruence.
  - intros Hall.
    assert (Hc0 : called (publish m ev) = []).
    { rewrite Hc. apply filter_all_false. intros n Hin.
      unfold present. rewrite (Hall n Hin). reflexivity. }
    assert (He0 : errors (publish m ev) = []).
    { destruct (errors (publish m ev)) as [|n l] eqn:E; [reflexivity|].
      exfalso. destruct (proj1 (He n) (or_introl eq_refl)) as [Hin [s [Hs _]]].
      rewrite (Hall n Hin) in Hs.
      discriminate. }
    split; [exact Hc0|]. split; [exact He0|].
    unfold publish in *. 
    destruct (publish_loop _ _ _ _ _) as [c e]. simpl in He0 |- *. subst e. reflexivity.
Qed.

(** A route to an unknown sink [ghost], listed as required, next to a
    failing sink [b]. *)
Lemma absent_route_names_skipped_witness :
  let m := {| sinks := [("a", ok_sink); ("b", failing_sink)]; mode := "required_sinks";
              required := ["ghost"]; routes := [("TradeSignal", ["ghost"])];
              transform := "full" |} in
  called (publish m sample_event) = [] /\ errors (publish m sample_event) = [] /\
  raised (publish m sample_event) = None.
Proof.
  intro m. apply (proj2 (absent_route_names_skipped m sample_event)).
  intros n Hn. vm_compute in Hn. destruct Hn as [<- | []]. reflexivity.
Defined.

End MultiplexProofs.

(* ------------------------------------------------------------------ *)
(** ** Subscription frames *)

Module ClobWsProofs.
Import ClobWs.

(** C1 *)
(** Claim C1 at the spec's chunking scenario: subscribing a connected feed
    to the 60 ids [token-000] .. [token-059] sends a single frame holding
    all of them, 802 bytes long; no frame size bound takes part, so with
    [max_frame_bytes = 200] the frame exceeds the bound and no chunking
    happens. *)
Theorem subscribe_sends_single_oversized_frame :
  let f := subscribe feed0 tokens60 in
  sent f = [initial_frame feed0 tokens60] /\ map String.length (sent f) = [802%nat] /\
  (200 < 802)%nat.
Proof. split; [vm_compute; reflexivity|]. split; [vm_compute; reflexivity | lia]. Qed.

End ClobWsProofs.

(* ------------------------------------------------------------------ *)
(** ** Signal detection *)

Module SignalProofs.
Import Events Signals.

(** C6 (code_bug): on the input of the repository's test
    [test_merge_big_trade_and_volume_spike_same_trade] (big-trade and
    volume thresholds 100, no cooldown, one trade of price 2 and size 60),
    the [SignalDetector] that the application wires emits two separate
    signals, [big_trade] and [volume_spike_1m]; only the unwired
    [SignalEngine] emits the single merged [big_trade] with [vol_1m = 120]. *)
Theorem detector_splits_big_trade_and_spike :
  map ev_metrics
    (Detector.published
       (Detector.handle_trade Detector.test_cfg Detector.test_state
          Detector.test_trade Detector.test_now)) =
    [[("signal", JStr "big_trade"); ("notional", JFloat 120); ("price", JFloat 2);
      ("size", JFloat 60)];
     [("signal", JStr "volume_spike_1m"); ("vol_1m", JFloat 120); ("price", JFloat 2);
      ("size", JFloat 60)]]
  /\ map Engine.sg_payload
       (Engine.published
          (Engine.handle_trade Engine.test_cfg
             (Engine.empty_state [("token-1", Detector.meta1)])
             Detector.test_trade Detector.test_now)) =
     [Engine.BigTradePayload 120 2 60 (Some 120%Q)].
Proof. split; vm_compute; reflexivity. Qed.

(** C4 (counterexample): with high-confidence threshold 0.75, reverse-allow
    0.125 and merging on, a trade at 1/16 (reverse-allowed) and one at 1/2
    (not high-confidence) both enter the bucket of market m1, side YES.  At
    flush the bucket's average price is 3/16, which is high-confidence
    ([max(3/16, 13/16) >= 0.75]) and not reverse-allowed, the market is not
    expired, and the flush still emits a [big_trade] at that price. *)
Theorem flush_emits_high_confidence_bucket :
  map Engine.sg_payload (Engine.published Engine.pre_flush) = []
  /\ map Engine.sg_payload (Engine.published Engine.merged_run) =
     [Engine.BigTradePayload (42 # 32) (42 # 224) 7 None]
  /\ (42 # 224 == 3 # 16)%Q
  /\ Engine.is_high_confidence_market Engine.merge_cfg (42 # 224) = true
  /\ Engine.is_reverse_allow_price Engine.merge_cfg (42 # 224) = false
  /\ Engine.is_market_expired Engine.merge_cfg Engine.meta_yes (Engine.t0 + 1000) = false.
Proof. repeat split; vm_compute; reflexivity. Qed.

(** C4 (amended): the flush of a pending bucket whose token is still known
    removes the bucket and re-applies the expiry gate and the
    [(token_id, signal)] cooldown: if the market has expired or the
    cooldown has not elapsed nothing is emitted, and otherwise exactly the
    bucket's merged payload is emitted.  No other gate is consulted. *)
Theorem flush_trade_bucket_regates (cfg : Engine.Config) (st : Engine.State)
  (key : string * string) (now : Z) (b : Engine.TradeSignalBucket) (meta : TokenMeta) :
  dict_lookup Engine.key_eqb (Engine.trade_buckets st) key = Some b ->
  dict_lookup String.eqb (Engine.token_meta st) (Engine.b_token_id b) = Some meta ->
  let last := match dict_lookup Engine.key_eqb (Engine.cooldowns st)
                      (tm_token_id meta, Engine.signal_value (Engine.bucket_payload b)) with
              | Some t => t | None => 0 end in
  let st' := Engine.flush_trade_bucket cfg st key now in
  Engine.trade_buckets st' = dict_pop Engine.key_eqb (Engine.trade_buckets st) key
  /\ (Engine.is_market_expired cfg meta now = true \/ now - last < Engine.cooldown_ms cfg ->
      Engine.published st' = Engine.published st)
  /\ (Engine.is_market_expired cfg meta now = false -> Engine.cooldown_ms cfg <= now - last ->
      map Engine.sg_payload (Engine.published st') =
      map Engine.sg_payload (Engine.published st) ++ [Engine.bucket_payload b]).
Proof.
  intros Hb Hm last st'. subst st'.
  unfold Engine.flush_trade_bucket. rewrite Hb. simpl. rewrite Hm.
  destruct (Engine.is_market_expired cfg meta now) eqn:He.
  - split; [reflexivity|]. split; [reflexivity|]. discriminate.
  - unfold Engine.emit_signal. simpl. fold last.
    destruct (Z.ltb (now - last) (Engine.cooldown_ms cfg)) eqn:Hc.
    + apply Z.ltb_lt in Hc. split; [reflexivity|]. split; [reflexivity|].
      intros _ Hle. lia.
    + apply Z.ltb_ge in Hc. split; [reflexivity|]. split.
      * intros [Hx | Hx]; [discriminate | lia].
      * intros _ _. simpl. rewrite map_app. reflexivity.
Qed.

Lemma flush_trade_bucket_regates_witness :
  exists b meta,
    dict_lookup Engine.key_eqb (Engine.trade_buckets Engine.pre_flush) ("m1", "YES") = Some b
    /\ dict_lookup String.eqb (Engine.token_meta Engine.pre_flush) (Engine.b_token_id b) = Some meta
    /\ let last := match dict_lookup Engine.key_eqb (Engine.cooldowns Engine.pre_flush)
                      (tm_token_id meta, Engine.signal_value (Engine.bucket_payload b)) with
                   | Some t => t | None => 0 end in
       let st' := Engine.flush_trade_bucket Engine.merge_cfg Engine.pre_flush ("m1", "YES")
                    (Engine.t0 + 1000) in
       Engine.trade_buckets st' =
         dict_pop Engine.key_eqb (Engine.trade_buckets Engine.pre_flush) ("m1", "YES")
       /\ (Engine.is_market_expired Engine.merge_cfg meta (Engine.t0 + 1000) = true
           \/ Engine.t0 + 1000 - last < Engine.cooldown_ms Engine.merge_cfg ->
           Engine.published st' = Engine.published Engine.pre_flush)
       /\ (Engine.is_market_expired Engine.merge_cfg meta (Engine.t0 + 1000) = false ->
           Engine.cooldown_ms Engine.merge_cfg <= Engine.t0 + 1000 - last ->
           map Engine.sg_payload (Engine.published st') =
           map Engine.sg_payload (Engine.published Engine.pre_flush) ++ [Engine.bucket_payload b]).
Proof.
  eexists. eexists. split; [reflexivity|]. split; [reflexivity|].
  apply (flush_trade_bucket_regates Engine.merge_cfg Engine.pre_flush ("m1", "YES")
           (Engine.t0 + 1000)); reflexivity.
Defined.

End SignalProofs.

(* ------------------------------------------------------------------ *)
(** ** Market selection *)

Module SelectionProofs.
Import Selection.

Lemma Qeq_bool_sym x y : Qeq_bool y x = Qeq_bool x y.
Proof.
  destruct (Qeq_bool x y) eqn:E.
  - apply Qeq_bool_iff. apply Qeq_bool_iff in E. symmetry. exact E.
  - destruct (Qeq_bool y x) eqn:E'; [|reflexivity].
    apply Qeq_bool_iff in E'. rewrite <- E. symmetry. apply Qeq_bool_iff.
    symmetry. exact E'.
Qed.

Lemma tuple_lt_asym a b : tuple_lt a b = true -> tuple_lt b a = false.
Proof.
  revert b; induction a as [|x a IH]; intros [|y b]; simpl; try discriminate; auto.
  rewrite (Qeq_bool_sym x y).
  destruct (Qeq_bool x y); [apply IH | apply Qltb_asym].
Qed.

Lemma In_firstn {A} n (l : list A) x : In x (firstn n l) -> In x l.
Proof.
  revert l; induction n as [|n IH]; intros [|y l]; simpl; try contradiction.
  intros [<- | H]; [left; reflexivity | right; apply IH; exact H].
Qed.

Lemma In_py_prefix {A} (l : list A) k x : In x (py_prefix l k) -> In x l.
Proof. unfold py_prefix. destruct (Z.leb 0 k); apply In_firstn. Qed.

Lemma py_prefix_nonneg {A} (l : list A) k : 0 <= k -> py_prefix l k = firstn (Z.to_nat k) l.
Proof. intros Hk. unfold py_prefix. apply Z.leb_le in Hk. rewrite Hk. reflexivity. Qed.

Lemma In_sort_key p l x : In x (sort_key tuple_lt (priority_key p) false l) -> In x l.
Proof.
  intros H. eapply Permutation_in; [apply sort_by_perm | exact H].
Qed.

(** A prefix of the sorted list is sorted, and cutting it again changes
    nothing: the last step of both selections is a fixed point. *)
Lemma sorted_prefix_fixed p l k :
  0 <= k ->
  py_prefix (sort_key tuple_lt (priority_key p) false
               (py_prefix (sort_key tuple_lt (priority_key p) false l) k)) k =
  py_prefix (sort_key tuple_lt (priority_key p) false l) k.
Proof.
  intros Hk. rewrite !(py_prefix_nonneg _ _ Hk). unfold sort_key.
  rewrite sort_by_sorted_id.
  - apply firstn_all2. apply firstn_le_length.
  - apply sorted_by_firstn. apply sort_by_sorted.
    intros a b; apply tuple_lt_asym.
Qed.

Lemma filter_id {A} (f : A -> bool) l : (forall x, In x l -> f x = true) -> filter f l = l.
Proof.
  induction l as [|y l IH]; simpl; intros H; [reflexivity|].
  rewrite (H y (or_introl eq_refl)). f_equal. apply IH. intros x Hx; apply H; right; exact Hx.
Qed.

Lemma filter_none {A} (f : A -> bool) l : (forall x, In x l -> f x = false) -> filter f l = [].
Proof.
  induction l as [|y l IH]; simpl; intros H; [reflexivity|].
  rewrite (H y (or_introl eq_refl)). apply IH. intros x Hx; apply H; right; exact Hx.
Qed.

(** *** Grouping by topic *)

Definition key_step (K : list string) (m : Market) : list string :=
  if existsb (String.eqb (group_key m)) K then K else K ++ [group_key m].

(** The group keys in order of first appearance. *)
Definition keys (l : list Market) : list string := fold_left key_step l [].

Definition of_key (k : string) (l : list Market) : list Market :=
  filter (fun m => String.eqb (group_key m) k) l.

Definition nonempty {A} (l : list A) : bool := match l with [] => false | _ => true end.

Lemma In_existsb k K : existsb (String.eqb k) K = true <-> In k K.
Proof.
  rewrite existsb_exists. split.
  - intros [x [Hx E]]. apply String.eqb_eq in E. subst. exact Hx.
  - intros H. exists k. split; [exact H | apply String.eqb_refl].
Qed.

Lemma key_fold_nodup l acc : NoDup acc -> NoDup (fold_left key_step l acc).
Proof.
  revert acc; induction l as [|m l IH]; intros acc Hnd; simpl; [exact Hnd|].
  apply IH. unfold key_step. destruct (existsb (String.eqb (group_key m)) acc) eqn:E;
    [exact Hnd|].
  apply Permutation_NoDup with (l := group_key m :: acc).
  - apply Permutation_cons_append.
  - constructor; [|exact Hnd]. intros Hin. apply In_existsb in Hin. congruence.
Qed.

Lemma key_fold_mono l acc k : In k acc -> In k (fold_left key_step l acc).
Proof.
  revert acc; induction l as [|m l IH]; intros acc H; simpl; [exact H|].
  apply IH. unfold key_step. destruct existsb; [exact H | apply in_or_app; left; exact H].
Qed.

Lemma key_fold_in l acc x : In x l -> In (group_key x) (fold_left key_step l acc).
Proof.
  revert acc; induction l as [|m l IH]; intros acc H; simpl; [contradiction|].
  destruct H as [<- | H]; [|apply IH; exact H].
  apply key_fold_mono. unfold key_step.
  destruct (existsb (String.eqb (group_key m)) acc) eqn:E.
  - apply In_existsb; exact E.
  - apply in_or_app; right; left; reflexivity.
Qed.

Lemma of_key_nil k l : ~ In k (keys l) -> of_key k l = [].
Proof.
  intros Hk. apply filter_none. intros x Hx.
  destruct (String.eqb (group_key x) k) eqn:E; [|reflexivity].
  apply String.eqb_eq in E. subst. exfalso. apply Hk. apply key_fold_in. exact Hx.
Qed.

Lemma dict_lookup_keys (f : string -> list Market) K k :
  In k K -> dict_lookup String.eqb (map (fun k => (k, f k)) K) k = Some (f k).
Proof.
  induction K as [|k' K IH]; simpl; [contradiction|]. intros H.
  destruct (String.eqb k k') eqn:E.
  - apply String.eqb_eq in E. subst. reflexivity.
  - destruct H as [-> | H]; [rewrite String.eqb_refl in E; discriminate | apply IH; exact H].
Qed.

Lemma dict_lookup_keys_none (f : string -> list Market) K k :
  ~ In k K -> dict_lookup String.eqb (map (fun k => (k, f k)) K) k = None.
Proof.
  induction K as [|k' K IH]; simpl; intros H; [reflexivity|].
  destruct (String.eqb k k') eqn:E.
  - apply String.eqb_eq in E. subst. exfalso. apply H. left. reflexivity.
  - apply IH. intros Hin. apply H. right. exact Hin.
Qed.

Lemma dict_set_keys (f : string -> list Market) K k0 v :
  NoDup K ->
  dict_set String.eqb (map (fun k => (k, f k)) K) k0 v =
  map (fun k => (k, if String.eqb k0 k then v else f k)) K
  ++ (if existsb (String.eqb k0) K then [] else [(k0, v)]).
Proof.
  induction K as [|k K IH]; intros Hnd; simpl; [reflexivity|].
  inversion Hnd as [|? ? Hk Hnd']; subst.
  destruct (String.eqb k0 k) eqn:E; simpl.
  - apply String.eqb_eq in E. subst. rewrite app_nil_r. f_equal.
    apply map_ext_in. intros a Ha. destruct (String.eqb k a) eqn:E2; [|reflexivity].
    apply String.eqb_eq in E2. subst. contradiction.
  - f_equal. apply IH. exact Hnd'.
Qed.

Lemma group_step_inv P m :
  group_step (map (fun k => (k, of_key k P)) (keys P)) m =
  map (fun k => (k, of_key k (P ++ [m]))) (keys (P ++ [m])).
Proof.
  assert (Hnd : NoDup (keys P)) by (apply key_fold_nodup; constructor).
  unfold keys at 2. rewrite fold_left_app. simpl. fold (keys P).
  unfold group_step, key_step.
  destruct (existsb (String.eqb (group_key m)) (keys P)) eqn:E.
  - pose proof (proj1 (In_existsb _ _) E) as Hin.
    rewrite (dict_lookup_keys _ _ _ Hin), (dict_set_keys _ _ _ _ Hnd), E, app_nil_r.
    apply map_ext. intros k. f_equal. unfold of_key. rewrite filter_app. simpl.
    destruct (String.eqb (group_key m) k) eqn:E2.
    + apply String.eqb_eq in E2. subst. reflexivity.
    + rewrite app_nil_r. reflexivity.
  - assert (Hin : ~ In (group_key m) (keys P))
      by (intros Hin; apply In_existsb in Hin; congruence).
    rewrite (dict_lookup_keys_none _ _ _ Hin), (dict_set_keys _ _ _ _ Hnd), E, map_app.
    simpl. f_equal.
    + apply map_ext_in. intros k Hk. f_equal.
      destruct (String.eqb (group_key m) k) eqn:E2.
      * apply String.eqb_eq in E2. subst. contradiction.
      * unfold of_key. rewrite filter_app. simpl. rewrite E2, app_nil_r. reflexivity.
    + unfold of_key. rewrite filter_app. simpl. rewrite String.eqb_refl.
      fold (of_key (group_key m) P). rewrite (of_key_nil _ _ Hin). reflexivity.
Qed.

Lemma group_fold l P :
  fold_left group_step l (map (fun k => (k, of_key k P)) (keys P)) =
  map (fun k => (k, of_key k (P ++ l))) (keys (P ++ l)).
Proof.
  revert P; induction l as [|m l IH]; intros P; simpl.
  - rewrite app_nil_r. reflexivity.
  - rewrite group_step_inv, IH, <- app_assoc. reflexivity.
Qed.

(** Grouping yields, per key in order of first appearance, the markets of
    that key in input order. *)
Lemma group_markets_spec l :
  group_markets l = map (fun k => (k, of_key k l)) (keys l).
Proof. exact (group_fold l []). Qed.

Lemma select_primary_spec ms pr n :
  select_primary_markets ms pr n =
  concat (map (fun k => py_prefix (sort_key tuple_lt (priority_key pr) false
                                     (of_key k (assign_topic_keys ms))) n)
              (keys (assign_topic_keys ms))).
Proof. unfold select_primary_markets. rewrite group_markets_spec, map_map. reflexivity. Qed.

Lemma assign_topic_key_idem m : assign_topic_key (assign_topic_key m) = assign_topic_key m.
Proof.
  unfold assign_topic_key at 2. destruct (str_truthy (topic_key m)) eqn:E.
  - unfold assign_topic_key. rewrite E. reflexivity.
  - unfold assign_topic_key. rewrite E. simpl.
    destruct (negb (String.eqb (normalize_topic (question m)) "")); reflexivity.
Qed.

Lemma fold_uniform b k acc :
  (forall x, In x b -> group_key x = k) ->
  fold_left key_step b acc =
  if nonempty b then (if existsb (String.eqb k) acc then acc else acc ++ [k]) else acc.
Proof.
  revert acc; induction b as [|y b IH]; intros acc H; simpl; [reflexivity|].
  rewrite IH by (intros x Hx; apply H; right; exact Hx).
  unfold key_step. rewrite (H y (or_introl eq_refl)).
  destruct (existsb (String.eqb k) acc) eqn:E.
  - rewrite E. destruct (nonempty b); reflexivity.
  - destruct (nonempty b); [|reflexivity].
    rewrite existsb_app. simpl. rewrite String.eqb_refl, orb_true_r. reflexivity.
Qed.

Section Blocks.
  Variable B : string -> list Market.
  Hypothesis B_uniform : forall k x, In x (B k) -> group_key x = k.

Lemma keys_concat K acc :
    NoDup K -> (forall k, In k K -> ~ In k acc) ->
    fold_left key_step (concat (map B K)) acc = acc ++ filter (fun k => nonempty (B k)) K.
  Proof.
    revert acc; induction K as [|k K IH]; intros acc Hnd Hacc; simpl.
    - rewrite app_nil_r. reflexivity.
    - inversion Hnd as [|? ? Hk Hnd']; subst.
      rewrite fold_left_app, (fold_uniform (B k) k acc (B_uniform k)).
      assert (E : existsb (String.eqb k) acc = false).
      { destruct (existsb (String.eqb k) acc) eqn:E; [|reflexivity].
        apply In_existsb in E. exfalso. exact (Hacc k (or_introl eq_refl) E). }
      rewrite E. destruct (nonempty (B k)).
      + rewrite IH; [rewrite <- app_assoc; reflexivity | exact Hnd' |].
        intros k' Hk' Hin. apply in_app_or in Hin. destruct Hin as [Hin | [<- | []]].
        * exact (Hacc k' (or_intror Hk') Hin).
        * contradiction.
      + apply IH; [exact Hnd' |]. intros k' Hk'. exact (Hacc k' (or_intror Hk')).
  Qed.

Lemma of_key_concat K k :
    NoDup K -> of_key k (concat (map B K)) = if existsb (String.eqb k) K then B k else [].
  Proof.
    induction K as [|k0 K IH]; intros Hnd; simpl; [reflexivity|].
    inversion Hnd as [|? ? Hk Hnd']; subst.
    unfold of_key. rewrite filter_app. fold (of_key k (concat (map B K))).
    rewrite (IH Hnd').
    destruct (String.eqb k k0) eqn:E; simpl.
    - apply String.eqb_eq in E. subst.
      rewrite filter_id by (intros x Hx; rewrite (B_uniform _ _ Hx); apply String.eqb_refl).
      destruct (existsb (String.eqb k0) K) eqn:E2.
      + apply In_existsb in E2. contradiction.
      + apply app_nil_r.
    - rewrite filter_none; [reflexivity|].
      intros x Hx. rewrite (B_uniform _ _ Hx). destruct (String.eqb k0 k) eqn:E2; [|reflexivity].
      apply String.eqb_eq in E2. subst. rewrite String.eqb_refl in E. discriminate.
  Qed.

Lemma concat_filter_nonempty K :
    concat (map B (filter (fun k => nonempty (B k)) K)) = concat (map B K).
  Proof.
    induction K as [|k K IH]; simpl; [reflexivity|].
    destruct (B k) eqn:E; simpl; rewrite <- IH; [reflexivity|]. rewrite E. reflexivity.
  Qed.
End Blocks.

Lemma top_output_kept ms k hot ml allow block x :
  In x (select_top_markets ms k hot ml allow block) ->
  keep_market ml (map lower allow) (map lower block) x = true.
Proof.
  unfold select_top_markets. intros H.
  apply In_py_prefix, In_sort_key, filter_In in H. exact (proj2 H).
Qed.

Lemma top_idempotent ms k hot ml allow block :
  0 <= k ->
  select_top_markets (select_top_markets ms k hot ml allow block) k hot ml allow block =
  select_top_markets ms k hot ml allow block.
Proof.
  intros Hk. unfold select_top_markets at 1.
  rewrite filter_id by (apply top_output_kept).
  unfold select_top_markets. apply sorted_prefix_fixed. exact Hk.
Qed.

Lemma primary_idempotent ms pr n :
  0 <= n ->
  select_primary_markets (select_primary_markets ms pr n) pr n =
  select_primary_markets ms pr n.
Proof.
  intros Hn.
  set (A := assign_topic_keys ms).
  set (B := fun k => py_prefix (sort_key tuple_lt (priority_key pr) false (of_key k A)) n).
  assert (HB : forall k x, In x (B k) -> group_key x = k /\ In x A).
  { intros k x Hx. apply In_py_prefix, In_sort_key in Hx. unfold of_key in Hx.
    apply filter_In in Hx. destruct Hx as [Hx E]. apply String.eqb_eq in E. auto. }
  assert (Hnd : NoDup (keys A)) by (apply key_fold_nodup; constructor).
  assert (HO : select_primary_markets ms pr n = concat (map B (keys A)))
    by (rewrite select_primary_spec; reflexivity).
  rewrite HO, select_primary_spec.
  assert (Hfix : assign_topic_keys (concat (map B (keys A))) = concat (map B (keys A))).
  { unfold assign_topic_keys. rewrite <- map_id. apply map_ext_in. intros x Hx.
    apply in_concat in Hx. destruct Hx as [l [Hl Hx]]. apply in_map_iff in Hl.
    destruct Hl as [k [<- _]]. apply HB in Hx. destruct Hx as [_ Hx].
    unfold A, assign_topic_keys in Hx. apply in_map_iff in Hx.
    destruct Hx as [m [<- _]]. apply assign_topic_key_idem. }
  assert (HK : keys (concat (map B (keys A))) = filter (fun k => nonempty (B k)) (keys A))
    by exact (keys_concat B (fun k x Hx => proj1 (HB k x Hx)) (keys A) [] Hnd
                (fun _ _ H => H)).
  rewrite Hfix, HK.
  transitivity (concat (map B (filter (fun k => nonempty (B k)) (keys A))));
    [f_equal | apply concat_filter_nonempty].
  apply map_ext_in. intros k Hk. apply filter_In in Hk. destruct Hk as [Hk _].
  rewrite (of_key_concat B (fun k x Hx => proj1 (HB k x Hx)) (keys A) k Hnd).
  rewrite (proj2 (In_existsb _ _) Hk). unfold B. apply sorted_prefix_fixed. exact Hn.
Qed.

(** C7 (counterexample): selection depends on the order of its input.
    With no sort keys (as discovery calls [select_top_markets]) and
    [top_k = 1], the inputs [a; b; c] and [b; a; c] give [a] and [b];
    [select_primary_markets] with priority [liquidity] and one market per
    topic keeps [a] or [b] of the tied topic "will it rain" likewise.  With
    [top_k = -1] the slice drops the last market each time, so
    re-selection is not idempotent either. *)
Theorem selection_depends_on_input_order :
  map market_id (select_top_markets [mkt_a; mkt_b; mkt_c] 1 [] None [] []) = ["a"]
  /\ map market_id (select_top_markets [mkt_b; mkt_a; mkt_c] 1 [] None [] []) = ["b"]
  /\ map market_id (select_primary_markets [mkt_a; mkt_b; mkt_c] ["liquidity"] 1) = ["a"; "c"]
  /\ map market_id (select_primary_markets [mkt_b; mkt_a; mkt_c] ["liquidity"] 1) = ["b"; "c"]
  /\ map market_id (select_top_markets [mkt_a; mkt_b; mkt_c] (-1) [] None [] []) = ["a"; "b"]
  /\ map market_id (select_top_markets (select_top_markets [mkt_a; mkt_b; mkt_c] (-1) [] None [] [])
                      (-1) [] None [] []) = ["a"].
Proof. repeat split; vm_compute; reflexivity. Qed.

(** C7 (amended): for every market list and every fixed parameters with
    [top_k >= 0] and [max_per_topic >= 0], applying [select_top_markets],
    and applying [select_primary_markets], to its own output returns that
    output unchanged. *)
Theorem selection_idempotent (ms : list Market) (top_k : Z) (hot_sort : list string)
  (min_liquidity : option Q) (allow block : list string) (priority : list string)
  (max_per_topic : Z) :
  0 <= top_k -> 0 <= max_per_topic ->
  select_top_markets (select_top_markets ms top_k hot_sort min_liquidity allow block)
    top_k hot_sort min_liquidity allow block =
  select_top_markets ms top_k hot_sort min_liquidity allow block
  /\ select_primary_markets (select_primary_markets ms priority max_per_topic)
       priority max_per_topic =
     select_primary_markets ms priority max_per_topic.
Proof.
  intros Hk Hn. split; [apply top_idempotent | apply primary_idempotent]; assumption.
Qed.

Lemma selection_idempotent_witness :
  (0 <= 1 /\ 0 <= 1) /\
  select_top_markets (select_top_markets [mkt_a; mkt_b; mkt_c] 1 ["liquidity"] (Some 1%Q)
                        ["rain"] ["cup"]) 1 ["liquidity"] (Some 1%Q) ["rain"] ["cup"] =
  select_top_markets [mkt_a; mkt_b; mkt_c] 1 ["liquidity"] (Some 1%Q) ["rain"] ["cup"]
  /\ select_primary_markets (select_primary_markets [mkt_a; mkt_b; mkt_c] ["liquidity"] 1)
       ["liquidity"] 1 =
     select_primary_markets [mkt_a; mkt_b; mkt_c] ["liquidity"] 1.
Proof.
  split; [split; lia|].
  apply (selection_idempotent [mkt_a; mkt_b; mkt_c] 1 ["liquidity"] (Some 1%Q) ["rain"] ["cup"]
           ["liquidity"] 1); lia.
Defined.

End SelectionProofs.

(* ------------------------------------------------------------------ *)
(** ** Catalog /events filter *)

Module GammaProofs.
Import Gamma.

(** C8 (counterexample): an event that is active, not closed and whose end
    (2020-01-01) is long past passes [_event_is_active]; with the default
    catalog its market 0xabc is returned, whatever the current time (the
    catalog reads no clock).  An archived event is dropped. *)
Theorem past_event_market_listed :
  event_is_active past_event = true
  /\ map mh_market_id (list_markets_events default_catalog [past_event; archived_event] true false)
     = ["0xabc"].
Proof. split; vm_compute; reflexivity. Qed.

Lemma event_is_active_spec ev :
  event_is_active ev = true <->
  to_bool (get ev "active") true = true /\ to_bool (get ev "closed") false = false
  /\ to_bool (get ev "archived") false = false
  /\ to_bool (get ev "pendingDeployment") false = false
  /\ to_bool (get ev "deploying") false = false.
Proof.
  unfold event_is_active.
  destruct (to_bool (get ev "active") true), (to_bool (get ev "closed") false),
    (to_bool (get ev "archived") false), (to_bool (get ev "pendingDeployment") false),
    (to_bool (get ev "deploying") false); simpl; intuition congruence.
Qed.

Lemma sort_events_perm cat evs : Permutation (sort_events cat evs) evs.
Proof.
  unfold sort_events. destruct (events_sort_primary cat); [apply sort_by_perm | reflexivity].
Qed.

Lemma In_limit (cat : Catalog) (evs : list dict) ev :
  In ev (match events_limit_per_category cat with
         | Some l => if Z.ltb l (Z.of_nat (length evs)) then firstn (Z.to_nat l) evs else evs
         | None => evs end) -> In ev evs.
Proof.
  destruct (events_limit_per_category cat) as [l|]; [|auto].
  destruct (Z.ltb l (Z.of_nat (length evs))); [apply SelectionProofs.In_firstn | auto].
Qed.

(** C8 (amended): with the /events strategy every returned market comes
    from an input event with active = true, closed = false,
    archived = false, pendingDeployment = false and deploying = false (each
    read by [_to_bool] with defaults true, false, false, false, false), and
    passes the market filter (non-empty id, active if requested, not closed
    unless requested, not resolved); no end time is consulted.  Without a
    per-category limit, every such market of every such event is
    returned. *)
Theorem events_filter_amended (cat : Catalog) (evs : list dict) (active closed : bool)
  (m : MarketHead) :
  (In m (list_markets_events cat evs active closed) ->
   exists ev, In ev evs
     /\ to_bool (get ev "active") true = true /\ to_bool (get ev "closed") false = false
     /\ to_bool (get ev "archived") false = false
     /\ to_bool (get ev "pendingDeployment") false = false
     /\ to_bool (get ev "deploying") false = false
     /\ In m (extract_markets_from_event ev) /\ market_kept active closed m = true)
  /\ (events_limit_per_category cat = None ->
      forall ev, In ev evs -> event_is_active ev = true ->
      In m (extract_markets_from_event ev) -> market_kept active closed m = true ->
      In m (list_markets_events cat evs active closed)).
Proof.
  split.
  - unfold list_markets_events. intros H. apply filter_In in H. destruct H as [H Hk].
    apply in_flat_map in H. destruct H as [ev [Hev Hm]].
    apply In_limit in Hev.
    apply (Permutation_in _ (sort_events_perm cat _)) in Hev.
    apply filter_In in Hev. destruct Hev as [Hev Ha].
    apply event_is_active_spec in Ha. exists ev. tauto.
  - intros Hl ev Hev Ha Hm Hk. unfold list_markets_events. rewrite Hl.
    apply filter_In. split; [|exact Hk].
    apply in_flat_map. exists ev. split; [|exact Hm].
    apply (Permutation_in _ (Permutation_sym (sort_events_perm cat _))).
    apply filter_In. auto.
Qed.

Lemma events_filter_amended_witness :
  In {| mh_market_id := "0xabc"; mh_active := true; mh_closed := false; mh_resolved := false |}
     (list_markets_events default_catalog [past_event; archived_event] true false)
  /\ exists ev, In ev [past_event; archived_event]
     /\ to_bool (get ev "active") true = true /\ to_bool (get ev "closed") false = false
     /\ to_bool (get ev "archived") false = false
     /\ to_bool (get ev "pendingDeployment") false = false
     /\ to_bool (get ev "deploying") false = false
     /\ In {| mh_market_id := "0xabc"; mh_active := true; mh_closed := false;
              mh_resolved := false |} (extract_markets_from_event ev)
     /\ market_kept true false
          {| mh_market_id := "0xabc"; mh_active := true; mh_closed := false;
             mh_resolved := false |} = true.
Proof.
  assert (H : In {| mh_market_id := "0xabc"; mh_active := true; mh_closed := false;
                    mh_resolved := false |}
                 (list_markets_events default_catalog [past_event; archived_event] true false))
    by (vm_compute; left; reflexivity).
  split; [exact H|].
  exact (proj1 (events_filter_amended default_catalog [past_event; archived_event] true false _) H).
Defined.

End GammaProofs.
(* ------------------------------------------------------------------ *)
(** ** Order-book registry: price keys and sequence tracking *)

Module OrderBookExtraProofs.
Import OrderBook OrderBookFacts.

Lemma q_distinctb_ok l : q_distinctb l = true -> q_distinct l.
Proof.
  induction l as [|x l IH]; simpl; [auto|]. intros H.
  apply andb_true_iff in H. destruct H as [H1 H2]. split; [|apply IH, H2].
  apply Forall_forall. intros y Hy E. rewrite forallb_forall in H1.
  specialize (H1 y Hy). apply Qeq_bool_iff in E. rewrite E in H1. discriminate.
Qed.

Lemma Qeq_bool_false_sym p k : Qeq_bool p k = false -> ~ (k == p)%Q.
Proof.
  intros E H. assert (Qeq_bool p k = true) by (apply Qeq_bool_iff, Qeq_sym, H). congruence.
Qed.

Lemma lookup_absent (d : levels) p :
  Forall (fun k => ~ (p == k)%Q) (map fst d) -> dict_lookup Qeq_bool d p = None.
Proof.
  induction d as [|[k v] d IH]; simpl; intros H; [reflexivity|].
  destruct (Qeq_bool p k) eqn:E.
  - apply Qeq_bool_iff in E. exfalso. exact (Forall_inv H E).
  - apply IH, (Forall_inv_tail H).
Qed.

Lemma lookup_pop_same (d : levels) p :
  book_distinct d -> dict_lookup Qeq_bool (dict_pop Qeq_bool d p) p = None.
Proof.
  unfold book_distinct. induction d as [|[k v] d IH]; simpl; [intros; reflexivity|].
  intros [Hk Hd]. destruct (Qeq_bool p k) eqn:E.
  - apply Qeq_bool_iff in E. apply lookup_absent.
    apply Forall_forall. intros y Hy Hpy. rewrite Forall_forall in Hk.
    apply (Hk y Hy). apply Qeq_trans with p; [apply Qeq_sym; exact E | exact Hpy].
  - simpl. rewrite E. apply IH, Hd.
Qed.

Lemma lookup_pop_other (d : levels) p p' :
  ~ (p' == p)%Q -> dict_lookup Qeq_bool (dict_pop Qeq_bool d p) p' = dict_lookup Qeq_bool d p'.
Proof.
  intros Hne. induction d as [|[k v] d IH]; simpl; [reflexivity|].
  destruct (Qeq_bool p k) eqn:E.
  - destruct (Qeq_bool p' k) eqn:E2; [|reflexivity].
    exfalso. apply Hne. apply Qeq_bool_iff in E, E2.
    apply Qeq_trans with k; [exact E2 | apply Qeq_sym, E].
  - simpl. destruct (Qeq_bool p' k); [reflexivity | exact IH].
Qed.

Lemma lookup_set_same (d : levels) p v : dict_lookup Qeq_bool (dict_set Qeq_bool d p v) p = Some v.
Proof. apply dict_lookup_set. intros k. apply Qeq_bool_iff, Qeq_refl. Qed.

Lemma lookup_set_other (d : levels) p p' v :
  ~ (p' == p)%Q -> dict_lookup Qeq_bool (dict_set Qeq_bool d p v) p' = dict_lookup Qeq_bool d p'.
Proof.
  intros Hne. induction d as [|[k v0] d IH]; simpl.
  - destruct (Qeq_bool p' p) eqn:E; [apply Qeq_bool_iff in E; contradiction | reflexivity].
  - destruct (Qeq_bool p k) eqn:E; simpl.
    + destruct (Qeq_bool p' k) eqn:E2; [|reflexivity].
      exfalso. apply Hne. apply Qeq_bool_iff in E, E2.
      apply Qeq_trans with k; [exact E2 | apply Qeq_sym, E].
    + destruct (Qeq_bool p' k); [reflexivity | exact IH].
Qed.

Lemma keys_set (d : levels) p v x :
  In x (map fst (dict_set Qeq_bool d p v)) -> In x (map fst d) \/ x = p.
Proof.
  induction d as [|[k v0] d IH]; simpl.
  - intros [<- | []]. right. reflexivity.
  - destruct (Qeq_bool p k); simpl; intros [<- | H].
    + left; left; reflexivity.
    + left; right; exact H.
    + left; left; reflexivity.
    + destruct (IH H) as [H1 | H1]; [left; right; exact H1 | right; exact H1].
Qed.

Lemma keys_pop (d : levels) p x : In x (map fst (dict_pop Qeq_bool d p)) -> In x (map fst d).
Proof.
  induction d as [|[k v0] d IH]; simpl; [intros []|].
  destruct (Qeq_bool p k); simpl; intros H; [right; exact H|].
  destruct H as [<- | H]; [left; reflexivity | right; apply IH, H].
Qed.

Lemma set_distinct (d : levels) p v : book_distinct d -> book_distinct (dict_set Qeq_bool d p v).
Proof.
  unfold book_distinct. induction d as [|[k v0] d IH]; simpl.
  - intros _. split; [constructor | exact I].
  - intros [Hk Hd]. destruct (Qeq_bool p k) eqn:E; simpl; [split; assumption|].
    split; [|apply IH, Hd].
    apply Forall_forall. intros y Hy. destruct (keys_set d p v y Hy) as [Hy' | ->].
    + rewrite Forall_forall in Hk. apply Hk, Hy'.
    + apply Qeq_bool_false_sym, E.
Qed.

Lemma pop_distinct (d : levels) p : book_distinct d -> book_distinct (dict_pop Qeq_bool d p).
Proof.
  unfold book_distinct. induction d as [|[k v0] d IH]; simpl; [auto|].
  intros [Hk Hd]. destruct (Qeq_bool p k); simpl; [exact Hd|].
  split; [|apply IH, Hd].
  rewrite Forall_forall in *. intros y Hy. apply Hk, (keys_pop d p), Hy.
Qed.

Lemma book_change_spec b p sz :
  book_distinct b ->
  dict_lookup Qeq_bool (book_change b p sz) p = (if Qle_bool sz 0 then None else Some sz) /\
  (forall p', ~ (p' == p)%Q ->
     dict_lookup Qeq_bool (book_change b p sz) p' = dict_lookup Qeq_bool b p') /\
  book_distinct (book_change b p sz).
Proof.
  intros Hd. unfold book_change. destruct (Qle_bool sz 0).
  - split; [apply lookup_pop_same, Hd|].
    split; [intros; apply lookup_pop_other; assumption | apply pop_distinct, Hd].
  - split; [apply lookup_set_same|].
    split; [intros; apply lookup_set_other; assumption | apply set_distinct, Hd].
Qed.

Lemma levels_of_distinct ls : book_distinct (levels_of ls).
Proof.
  unfold levels_of.
  assert (H : forall acc, book_distinct acc ->
            book_distinct (fold_left (fun d l => dict_set Qeq_bool d (price l) (size l)) ls acc)).
  { induction ls as [|l ls IH]; simpl; intros acc Hacc; [exact Hacc | apply IH, set_distinct, Hacc]. }
  apply H. exact I.
Qed.

Lemma reg_distinct_get reg tok st :
  reg_distinct reg -> reg_get reg tok = Some st -> book_distinct (bids st) /\ book_distinct (asks st).
Proof.
  unfold reg_distinct, reg_get. induction reg as [|[k v] reg IH]; simpl; intros Hinv Hget;
    [discriminate|].
  destruct (String.eqb tok k).
  - injection Hget as <-. exact (Forall_inv Hinv).
  - exact (IH (Forall_inv_tail Hinv) Hget).
Qed.

Lemma reg_distinct_set reg tok st :
  reg_distinct reg -> book_distinct (bids st) /\ book_distinct (asks st) ->
  reg_distinct (reg_set reg tok st).
Proof.
  intros Hinv Hst. unfold reg_distinct, reg_set.
  apply (dict_set_Forall String.eqb (fun st => book_distinct (bids st) /\ book_distinct (asks st)));
    assumption.
Qed.

Lemma apply_changes_distinct (changes : list (string * Q * Q)) st :
  book_distinct (bids st) /\ book_distinct (asks st) ->
  let st' := fold_left (fun s '(sd, p, sz) => apply_change s sd p sz) changes st in
  book_distinct (bids st') /\ book_distinct (asks st').
Proof.
  revert st; induction changes as [|[[sd p] sz] changes IH]; simpl; intros st Hst; [exact Hst|].
  apply IH. unfold apply_change. destruct Hst as [Hb Ha].
  destruct (String.eqb sd "BUY"); simpl; split; auto;
    apply (book_change_spec _ p sz); assumption.
Qed.

Lemma apply_changes_seq (changes : list (string * Q * Q)) st :
  last_seq (fold_left (fun s '(sd, p, sz) => apply_change s sd p sz) changes st) = last_seq st.
Proof.
  revert st; induction changes as [|[[sd p] sz] changes IH]; simpl; intros st; [reflexivity|].
  rewrite IH. unfold apply_change. destruct (String.eqb sd "BUY"); reflexivity.
Qed.

Lemma q_distinct_perm l l' : Permutation l l' -> q_distinct l -> q_distinct l'.
Proof.
  induction 1 as [| x l l' Hp IH | x y l | l l' l'' H1 IH1 H2 IH2]; simpl.
  - auto.
  - intros [Hx Hl]. split; [|apply IH, Hl].
    rewrite Forall_forall in *. intros z Hz. apply Hx.
    apply (Permutation_in _ (Permutation_sym Hp)), Hz.
  - intros [Hy [Hx Hl]].
    split; [constructor; [intros E; apply (Forall_inv Hy), Qeq_sym, E | exact Hx]|].
    split; [exact (Forall_inv_tail Hy) | exact Hl].
  - intros H. apply IH2, IH1, H.
Qed.

Lemma to_levels_prices d : map price (to_levels d) = map fst d.
Proof. induction d as [|[p s] d IH]; simpl; [reflexivity | rewrite IH; reflexivity]. Qed.

Lemma to_snapshot_distinct st :
  book_distinct (bids st) -> book_distinct (asks st) ->
  q_distinct (map price (bs_bids (to_snapshot st))) /\
  q_distinct (map price (bs_asks (to_snapshot st))).
Proof.
  intros Hb Ha. unfold to_snapshot, sort_key; simpl. split.
  - apply (q_distinct_perm (map price (to_levels (bids st)))).
    + apply Permutation_map, Permutation_sym, sort_by_perm.
    + rewrite to_levels_prices. exact Hb.
  - apply (q_distinct_perm (map price (to_levels (asks st)))).
    + apply Permutation_map, Permutation_sym, sort_by_perm.
    + rewrite to_levels_prices. exact Ha.
Qed.

Lemma snapshot_accept_core reg snap payload st :
  match reg_get reg (bs_token_id snap) with Some s => s | None => new_state (bs_token_id snap) end
    = st ->
  last_seq st = None ->
  registry_apply_snapshot reg snap payload =
  (mk_result (Some (bs_token_id snap)) (Some snap),
   reg_set reg (bs_token_id snap) (apply_snapshot st snap (extract_sequence payload))).
Proof.
  intros Hst Hseq. unfold registry_apply_snapshot. rewrite Hst, Hseq.
  destruct (extract_sequence payload); reflexivity.
Qed.

Lemma apply_snapshot_seq st snap seq :
  last_seq st = None -> last_seq (apply_snapshot st snap seq) = seq.
Proof. intros H. unfold apply_snapshot. simpl. destruct seq; [reflexivity | exact H]. Qed.


(** [OrderBookState.apply_change] as a dictionary insert/delete: on a book
    with distinct prices, a positive size sets the level of [price] to that
    size and a size [<= 0] removes it; every other price of that book keeps
    its size, the other side is untouched and prices stay distinct. *)
Theorem apply_change_lookup st side p sz :
  book_distinct (side_book st side) ->
  lookup_price (side_book (apply_change st side p sz) side) p
    = (if Qle_bool sz 0 then None else Some sz)
  /\ (forall p', ~ (p' == p)%Q ->
        lookup_price (side_book (apply_change st side p sz) side) p'
        = lookup_price (side_book st side) p')
  /\ other_book (apply_change st side p sz) side = other_book st side
  /\ book_distinct (side_book (apply_change st side p sz) side).
Proof.
  intros Hd. unfold apply_change, side_book, other_book, lookup_price in *.
  destruct (String.eqb side "BUY"); simpl;
    destruct (book_change_spec _ p sz Hd) as (H1 & H2 & H3); auto.
Qed.

Lemma apply_change_lookup_witness :
  book_distinct (side_book ex_book_state "BUY")
  /\ lookup_price (side_book (apply_change ex_book_state "BUY" (1#2) 0) "BUY") (1#2) = None
  /\ lookup_price (side_book (apply_change ex_book_state "BUY" (1#2) 0) "BUY") (2#5)
     = Some 4%Q.
Proof.
  assert (H : book_distinct (side_book ex_book_state "BUY"))
    by (apply q_distinctb_ok; vm_compute; reflexivity).
  destruct (apply_change_lookup ex_book_state "BUY" (1#2) 0 H) as (H1 & H2 & _).
  split; [exact H|]. split; [exact H1|].
  rewrite H2; [vm_compute; reflexivity|]. intros E. vm_compute in E. discriminate.
Defined.

(** Every book the registry holds keeps distinct prices on both sides
    through [apply_snapshot] and [apply_price_change], whatever the
    message; so a snapshot rebuilt by [apply_price_change] never lists one
    price twice on a side. *)
Theorem registry_prices_distinct reg snap payload :
  reg_distinct reg ->
  reg_distinct (snd (registry_apply_snapshot reg snap payload))
  /\ reg_distinct (snd (registry_apply_price_change reg payload))
  /\ (forall sn, r_snapshot (fst (registry_apply_price_change reg payload)) = Some sn ->
        q_distinct (map price (bs_bids sn)) /\ q_distinct (map price (bs_asks sn))).
Proof.
  intros Hinv. split; [|split].
  - unfold registry_apply_snapshot.
    destruct (sequence_gap _ _) as [[|] e]; simpl; apply reg_distinct_set; auto.
    + split; exact I.
    + split; apply levels_of_distinct.
  - unfold registry_apply_price_change.
    destruct (extract_token_id payload) as [tok|]; simpl; [|exact Hinv].
    destruct (reg_get reg tok) as [st|] eqn:Hg; simpl; [|exact Hinv].
    pose proof (reg_distinct_get _ _ _ Hinv Hg) as Hst.
    destruct (sequence_gap _ _) as [[|] e]; simpl.
    + apply reg_distinct_set; [exact Hinv | split; exact I].
    + destruct (parse_price_changes payload) as [|c cs]; simpl; [exact Hinv|].
      apply reg_distinct_set; [exact Hinv|]. simpl.
      exact (apply_changes_distinct (c :: cs) st Hst).
  - unfold registry_apply_price_change.
    destruct (extract_token_id payload) as [tok|]; simpl; [|discriminate].
    destruct (reg_get reg tok) as [st|] eqn:Hg; simpl; [|discriminate].
    pose proof (reg_distinct_get _ _ _ Hinv Hg) as Hst.
    destruct (sequence_gap _ _) as [[|] e]; simpl; [discriminate|].
    destruct (parse_price_changes payload) as [|c cs]; simpl; [discriminate|].
    intros sn Hsn. injection Hsn as <-.
    destruct (apply_changes_distinct (c :: cs) st Hst) as [Hb Ha].
    apply to_snapshot_distinct; assumption.
Qed.

Lemma registry_prices_distinct_witness :
  reg_distinct ex_registry
  /\ reg_distinct (snd (registry_apply_price_change ex_registry ex_change_payload)).
Proof.
  assert (H : reg_distinct ex_registry).
  { constructor; [|constructor]. split; apply q_distinctb_ok; vm_compute; reflexivity. }
  split; [exact H|].
  exact (proj1 (proj2 (registry_prices_distinct ex_registry ex_snapshot ex_change_payload H))).
Defined.

(** A snapshot for a token whose book has no sequence yet (never seen, or
    cleared after a gap) is always accepted, whatever its sequence: it is
    returned, no resync is requested, and the stored book holds exactly the
    snapshot's levels, its timestamp and the payload's sequence. *)
Theorem snapshot_accepted_without_seq reg snap payload :
  (forall st, reg_get reg (bs_token_id snap) = Some st -> last_seq st = None) ->
  r_snapshot (fst (registry_apply_snapshot reg snap payload)) = Some snap
  /\ r_resync_needed (fst (registry_apply_snapshot reg snap payload)) = false
  /\ exists st', reg_get (snd (registry_apply_snapshot reg snap payload)) (bs_token_id snap)
                 = Some st'
       /\ bids st' = levels_of (bs_bids snap) /\ asks st' = levels_of (bs_asks snap)
       /\ last_seq st' = extract_sequence payload /\ last_ts_ms st' = Some (bs_ts_ms snap).
Proof.
  intros Hnone.
  set (st := match reg_get reg (bs_token_id snap) with
             | Some s => s | None => new_state (bs_token_id snap) end).
  assert (Hs : last_seq st = None).
  { unfold st. destruct (reg_get reg (bs_token_id snap)) eqn:E; [apply Hnone; reflexivity|].
    reflexivity. }
  rewrite (snapshot_accept_core reg snap payload st eq_refl Hs). simpl.
  split; [reflexivity|]. split; [reflexivity|].
  eexists. split; [apply OrderBookProofs.reg_get_set|].
  split; [reflexivity|]. split; [reflexivity|].
  split; [apply apply_snapshot_seq, Hs | reflexivity].
Qed.

Lemma snapshot_accepted_without_seq_witness :
  r_snapshot (fst (registry_apply_snapshot [] ex_snapshot [("seq", JInt 7)])) = Some ex_snapshot.
Proof.
  apply (snapshot_accepted_without_seq [] ex_snapshot [("seq", JInt 7)]).
  intros st H. discriminate.
Defined.

(** Recovery after a gap: once a price change with a sequence other than
    [last_seq + 1] has requested a resync, the next snapshot of that token
    is accepted whatever its sequence, and its sequence becomes the book's
    [last_seq]. *)
Theorem resync_then_snapshot_accepted reg tok st s r payload snap payload' :
  reg_get reg tok = Some st -> last_seq st = Some s ->
  extract_token_id payload = Some tok -> extract_sequence payload = Some r -> r <> s + 1 ->
  bs_token_id snap = tok ->
  let reg1 := snd (registry_apply_price_change reg payload) in
  r_resync_needed (fst (registry_apply_price_change reg payload)) = true
  /\ fst (registry_apply_snapshot reg1 snap payload') = mk_result (Some tok) (Some snap)
  /\ exists st', reg_get (snd (registry_apply_snapshot reg1 snap payload')) tok = Some st'
                 /\ last_seq st' = extract_sequence payload'.
Proof.
  intros Hg Hs Ht Hq Hr Hsnap reg1.
  assert (HP : registry_apply_price_change reg payload =
               ({| r_token_id := Some tok; r_snapshot := None; r_resync_needed := true;
                   r_expected_seq := Some (s + 1); r_received_seq := Some r |},
                reg_set reg tok (clear st))).
  { unfold registry_apply_price_change. rewrite Ht, Hg, Hq, Hs.
    rewrite (OrderBookProofs.gap_detected s r Hr). reflexivity. }
  assert (H1 : reg1 = reg_set reg tok (clear st)) by (unfold reg1; rewrite HP; reflexivity).
  split; [rewrite HP; reflexivity|].
  assert (Hst : match reg_get reg1 (bs_token_id snap) with
                | Some s => s | None => new_state (bs_token_id snap) end = clear st)
    by (rewrite H1, Hsnap, OrderBookProofs.reg_get_set; reflexivity).
  rewrite (snapshot_accept_core reg1 snap payload' (clear st) Hst eq_refl), Hsnap. simpl.
  split; [reflexivity|].
  eexists. split; [apply OrderBookProofs.reg_get_set|]. apply apply_snapshot_seq. reflexivity.
Qed.

Lemma resync_then_snapshot_accepted_witness :
  let payload := [("asset_id", JStr "tok-1"); ("seq", JInt 50)] in
  r_resync_needed (fst (registry_apply_price_change ex_registry payload)) = true
  /\ fst (registry_apply_snapshot (snd (registry_apply_price_change ex_registry payload))
            ex_snapshot [("seq", JInt 900)]) = mk_result (Some "tok-1") (Some ex_snapshot).
Proof.
  intros payload.
  destruct (resync_then_snapshot_accepted ex_registry "tok-1" ex_book_state 41 50 payload
              ex_snapshot [("seq", JInt 900)] eq_refl eq_refl eq_refl eq_refl
              ltac:(discriminate) eq_refl) as (H1 & H2 & _).
  split; assumption.
Defined.

(** Whenever [apply_price_change] returns a snapshot, it requested no
    resync and the registry stores, under the message's token, the very
    book the snapshot was built from, with the message's sequence (when it
    has one) as [last_seq]. *)
Theorem price_change_snapshot_is_stored_book reg payload sn :
  r_snapshot (fst (registry_apply_price_change reg payload)) = Some sn ->
  exists tok st, extract_token_id payload = Some tok
    /\ r_resync_needed (fst (registry_apply_price_change reg payload)) = false
    /\ reg_get (snd (registry_apply_price_change reg payload)) tok = Some st
    /\ to_snapshot st = sn
    /\ (forall q, extract_sequence payload = Some q -> last_seq st = Some q).
Proof.
  unfold registry_apply_price_change.
  destruct (extract_token_id payload) as [tok|]; simpl; [|discriminate].
  destruct (reg_get reg tok) as [st|] eqn:Hg; simpl; [|discriminate].
  destruct (sequence_gap _ _) as [[|] e]; simpl; [discriminate|].
  destruct (parse_price_changes payload) as [|c cs]; simpl; [discriminate|].
  intros Hsn. injection Hsn as <-.
  eexists; eexists. split; [reflexivity|]. split; [reflexivity|].
  split; [apply OrderBookProofs.reg_get_set|]. split; [reflexivity|].
  intros q Hq. simpl. rewrite Hq. reflexivity.
Qed.

Lemma price_change_snapshot_is_stored_book_witness :
  exists sn, r_snapshot (fst (registry_apply_price_change ex_registry ex_change_payload)) = Some sn
  /\ exists tok st, extract_token_id ex_change_payload = Some tok
    /\ r_resync_needed (fst (registry_apply_price_change ex_registry ex_change_payload)) = false
    /\ reg_get (snd (registry_apply_price_change ex_registry ex_change_payload)) tok = Some st
    /\ to_snapshot st = sn
    /\ (forall q, extract_sequence ex_change_payload = Some q -> last_seq st = Some q).
Proof.
  eexists. split; [vm_compute; reflexivity|].
  apply price_change_snapshot_is_stored_book. vm_compute. reflexivity.
Defined.

(** A message without a usable sequence ([_extract_sequence] gives
    [None]: no sequence key, or the first one present is not an integer)
    never triggers a resync, and leaves the [last_seq] of every stored book
    as it was. *)
Theorem no_sequence_no_resync reg snap payload :
  extract_sequence payload = None ->
  r_resync_needed (fst (registry_apply_snapshot reg snap payload)) = false
  /\ r_resync_needed (fst (registry_apply_price_change reg payload)) = false
  /\ (forall tok st st', reg_get reg tok = Some st ->
        reg_get (snd (registry_apply_snapshot reg snap payload)) tok = Some st' ->
        last_seq st' = last_seq st)
  /\ (forall tok st st', reg_get reg tok = Some st ->
        reg_get (snd (registry_apply_price_change reg payload)) tok = Some st' ->
        last_seq st' = last_seq st).
Proof.
  intros Hq.
  assert (Hgap : forall l, sequence_gap l None = (false, None)) by reflexivity.
  split; [|split; [|split]].
  - unfold registry_apply_snapshot. rewrite Hq, Hgap. reflexivity.
  - unfold registry_apply_price_change.
    destruct (extract_token_id payload) as [tok|]; [|reflexivity].
    destruct (reg_get reg tok) as [st|]; [|reflexivity].
    rewrite Hq, Hgap. destruct (parse_price_changes payload); reflexivity.
  - intros tok st st' Hg. unfold registry_apply_snapshot. rewrite Hq, Hgap. simpl.
    destruct (String.eqb tok (bs_token_id snap)) eqn:E.
    + apply String.eqb_eq in E. subst tok. rewrite OrderBookProofs.reg_get_set, Hg.
      intros Hs. injection Hs as <-. reflexivity.
    + assert (Hne : tok <> bs_token_id snap) by (intros ->; rewrite String.eqb_refl in E; discriminate).
      unfold reg_set, reg_get in *. rewrite (dict_lookup_set_other _ _ _ _ Hne), Hg.
      intros Hs. injection Hs as <-. reflexivity.
  - intros tok st st' Hg. unfold registry_apply_price_change.
    destruct (extract_token_id payload) as [t|]; simpl; [|rewrite Hg; congruence].
    destruct (reg_get reg t) as [s0|] eqn:Hg0; simpl; [|rewrite Hg; congruence].
    rewrite Hq, Hgap. destruct (parse_price_changes payload) as [|c cs]; simpl;
      [rewrite Hg; congruence|].
    destruct (String.eqb tok t) eqn:E.
    + apply String.eqb_eq in E. subst t. rewrite OrderBookProofs.reg_get_set.
      rewrite Hg in Hg0. injection Hg0 as <-.
      intros Hs. injection Hs as <-. exact (apply_changes_seq (c :: cs) st).
    + assert (Hne : tok <> t) by (intros ->; rewrite String.eqb_refl in E; discriminate).
      unfold reg_set, reg_get in *. rewrite (dict_lookup_set_other _ _ _ _ Hne), Hg.
      intros Hs. injection Hs as <-. reflexivity.
Qed.

Lemma no_sequence_no_resync_witness :
  r_resync_needed (fst (registry_apply_price_change ex_registry
                          [("asset_id", JStr "tok-1"); ("seq", JStr "n/a");
                           ("sequence_number", JInt 42)])) = false.
Proof.
  exact (proj1 (proj2 (no_sequence_no_resync ex_registry ex_snapshot
     [("asset_id", JStr "tok-1"); ("seq", JStr "n/a"); ("sequence_number", JInt 42)]
     ltac:(vm_compute; reflexivity)))).
Defined.

End OrderBookExtraProofs.
(* ------------------------------------------------------------------ *)
(** ** Multiplex sink: fallback routing and error bookkeeping *)

Module MultiplexExtraProofs.
Import Events Multiplex MultiplexProofs.

Lemma lookup_of_In {V} (d : list (string * V)) k v :
  In (k, v) d -> exists v', dict_lookup String.eqb d k = Some v'.
Proof.
  induction d as [|[k' v'] d IH]; simpl; [intros []|]. intros [E | H].
  - injection E as -> ->. rewrite String.eqb_refl. eexists; reflexivity.
  - destruct (String.eqb k k'); [eexists; reflexivity | apply IH, H].
Qed.

Lemma publish_loop_nodup sinks payload names :
  forall called errs, NoDup errs -> NoDup (snd (publish_loop sinks payload names called errs)).
Proof.
  induction names as [|x names IH]; intros called errs Hnd; simpl; [exact Hnd|].
  destruct (dict_lookup String.eqb sinks x) as [s|]; [|apply IH, Hnd].
  apply IH. destruct (sink_raises s payload); [|exact Hnd].
  destruct (mem x errs) eqn:Hm; [exact Hnd|].
  apply Permutation_NoDup with (l := x :: errs); [apply Permutation_cons_append|].
  constructor; [|exact Hnd]. intros Hin. apply mem_In in Hin. congruence.
Qed.

Lemma count_occ_filter_true (f : string -> bool) l n :
  f n = true -> count_occ String.string_dec (filter f l) n = count_occ String.string_dec l n.
Proof.
  intros Hf. induction l as [|x l IH]; simpl; [reflexivity|].
  destruct (f x) eqn:Ex; simpl.
  - destruct (String.string_dec x n); rewrite IH; reflexivity.
  - destruct (String.string_dec x n) as [<- | _]; [congruence | exact IH].
Qed.

(** With no route for the event type (none under its value, none under
    its name, or only empty ones), [publish] hands the event to every sink,
    once each, in the order of the [sinks] dict. *)
Theorem publish_without_route_calls_all_sinks m ev :
  routes_get (routes m) (et_value (ev_event_type ev)) = [] ->
  routes_get (routes m) (et_name (ev_event_type ev)) = [] ->
  called (publish m ev) = map fst (sinks m).
Proof.
  intros H1 H2. unfold publish, resolve_targets. rewrite H1, H2.
  pose proof (publish_loop_spec (sinks m) (transform_event m ev) (map fst (sinks m)) [] [])
    as H.
  destruct (publish_loop (sinks m) (transform_event m ev) (map fst (sinks m)) [] [])
    as [c e].
  destruct H as [Hc _]. simpl. rewrite Hc. simpl.
  apply SelectionProofs.filter_id. intros n Hn. unfold present.
  apply in_map_iff in Hn. destruct Hn as [[k s] [Hk Hin]]. simpl in Hk. subst k.
  destruct (lookup_of_In _ _ _ Hin) as [v' Hv]. rewrite Hv. reflexivity.
Qed.

Lemma publish_without_route_calls_all_sinks_witness :
  called (publish (mux_ab "best_effort" []) sample_event) = ["a"; "b"].
Proof.
  exact (publish_without_route_calls_all_sinks (mux_ab "best_effort" []) sample_event
           eq_refl eq_refl).
Defined.

(** A sink is published to once per occurrence of its name among the
    resolved targets (twice if a route lists it twice), while the errors
    [publish] collects never name a sink twice. *)
Theorem publish_errors_recorded_once m ev :
  NoDup (errors (publish m ev))
  /\ (forall n, present (sinks m) n = true ->
        count_occ String.string_dec (called (publish m ev)) n
        = count_occ String.string_dec (resolve_targets m (ev_event_type ev)) n).
Proof.
  split.
  - unfold publish.
    pose proof (publish_loop_nodup (sinks m) (transform_event m ev)
                  (resolve_targets m (ev_event_type ev)) [] [] (NoDup_nil _)) as H.
    destruct (publish_loop _ _ _ _ _) as [c e]. exact H.
  - intros n Hn. unfold publish.
    pose proof (publish_loop_spec (sinks m) (transform_event m ev)
                  (resolve_targets m (ev_event_type ev)) [] []) as H.
    destruct (publish_loop _ _ _ _ _) as [c e]. destruct H as [Hc _].
    simpl. rewrite Hc. apply count_occ_filter_true, Hn.
Qed.

End MultiplexExtraProofs.

(* ------------------------------------------------------------------ *)
(** ** Subscription bookkeeping *)

Module ClobWsExtraProofs.
Import ClobWs ClobWsUrl.

Lemma ws_mem_In x l : mem x l = true <-> In x l.
Proof.
  unfold mem. rewrite existsb_exists. split.
  - intros [y [Hy Heq]]. apply String.eqb_eq in Heq. subst. exact Hy.
  - intros H. exists x. split; [exact H | apply String.eqb_refl].
Qed.

Lemma In_dedup x l : In x (dedup l) <-> In x l.
Proof.
  induction l as [|y l IH]; simpl; [tauto|].
  destruct (mem y l) eqn:Hm; simpl; rewrite IH; [|tauto].
  apply ws_mem_In in Hm. split; [tauto|]. intros [<- | H]; assumption.
Qed.

Lemma In_sorted_set x l : In x (sorted_set l) <-> In x l.
Proof.
  unfold sorted_set, sort_key. split; intros H.
  - apply In_dedup. exact (Permutation_in _ (sort_by_perm _ _) H).
  - apply In_dedup in H. exact (Permutation_in _ (Permutation_sym (sort_by_perm _ _)) H).
Qed.

Lemma In_set_minus x a b : In x (set_minus a b) <-> In x a /\ ~ In x b.
Proof.
  unfold set_minus. rewrite filter_In, negb_true_iff.
  split; intros [H1 H2]; split; try exact H1.
  - intros H. apply ws_mem_In in H. congruence.
  - destruct (mem x b) eqn:E; [apply ws_mem_In in E; contradiction | reflexivity].
Qed.

Lemma send_operation_ids f op ids :
  desired_ids (send_operation f op ids) = desired_ids f /\
  subscribed_ids (send_operation f op ids) = subscribed_ids f /\
  ws_open (send_operation f op ids) = ws_open f.
Proof.
  unfold send_operation, send. destruct ids; [auto|]. destruct (ws_open f) eqn:E; auto.
Qed.

Lemma send_initial_ids f ids :
  desired_ids (send_initial_subscription f ids) = desired_ids f.
Proof.
  unfold send_initial_subscription, send. destruct ids; [reflexivity|].
  destruct (ws_open f); reflexivity.
Qed.

Lemma send_op_desired f op ids : desired_ids (send_operation f op ids) = desired_ids f.
Proof. apply send_operation_ids. Qed.

Lemma send_op_subscribed f op ids : subscribed_ids (send_operation f op ids) = subscribed_ids f.
Proof. apply send_operation_ids. Qed.

Lemma apply_changes_incremental g :
  ws_open g = true -> subscribed_ids g <> [] ->
  desired_ids (apply_subscription_changes g false) = desired_ids g
  /\ (forall x, In x (subscribed_ids (apply_subscription_changes g false)) <->
                In x (desired_ids g)).
Proof.
  intros Ho Hne. unfold apply_subscription_changes. rewrite Ho.
  assert (Hm : match subscribed_ids g with [] => true | _ => false end = false)
    by (destruct (subscribed_ids g); [congruence | reflexivity]).
  rewrite Hm. cbv zeta. cbn [negb orb].
  remember (set_minus (desired_ids g) (subscribed_ids g)) as A eqn:HA.
  remember (set_minus (subscribed_ids g) (desired_ids g)) as R eqn:HR.
  assert (MA : forall x, In x A <-> In x (desired_ids g) /\ ~ In x (subscribed_ids g))
    by (intros x; rewrite HA; apply In_set_minus).
  assert (MR : forall x, In x R <-> In x (subscribed_ids g) /\ ~ In x (desired_ids g))
    by (intros x; rewrite HR; apply In_set_minus).
  clear HA HR.
  destruct A as [|a al]; destruct R as [|r rl]; unfold set_ids;
    do 3 (cbn [desired_ids subscribed_ids]; rewrite ?send_op_desired, ?send_op_subscribed);
    (split; [reflexivity|]); intros x; rewrite ?In_set_minus, ?In_sorted_set, ?in_app_iff;
    specialize (MA x); specialize (MR x); simpl in *;
    destruct (in_dec String.string_dec x (subscribed_ids g));
    destruct (in_dec String.string_dec x (desired_ids g)); tauto.
Qed.

(** On an open connection, [subscribe(token_ids)] leaves both the desired
    and the subscribed id sets equal to the set of [token_ids], whatever
    was subscribed before (an initial subscription, or the incremental
    subscribe and unsubscribe operations). *)
Theorem subscribe_converges f ids :
  ws_open f = true ->
  desired_ids (subscribe f ids) = sorted_set ids
  /\ (forall x, In x (subscribed_ids (subscribe f ids)) <-> In x ids).
Proof.
  intros Ho. unfold subscribe. cbn [ws_open set_ids]. rewrite Ho. cbn [negb].
  set (f1 := set_ids f (sorted_set ids) (subscribed_ids f)).
  assert (Ho1 : ws_open f1 = true) by exact Ho.
  destruct (subscribed_ids f) as [|s0 ss] eqn:Hs.
  - unfold apply_subscription_changes. rewrite Ho1. cbn [negb orb].
    assert (E : subscribed_ids f1 = []) by reflexivity.
    rewrite E. unfold set_ids at 1. cbn [desired_ids subscribed_ids].
    rewrite send_initial_ids. split; [reflexivity|]. intros x. apply In_sorted_set.
  - destruct (apply_changes_incremental f1 Ho1) as [H1 H2].
    + unfold f1, set_ids. simpl. discriminate.
    + split; [exact H1|]. intros x. rewrite H2. apply In_sorted_set.
Qed.

Lemma subscribe_converges_witness :
  desired_ids (subscribe feed0 ["b"; "a"; "b"]) = ["a"; "b"].
Proof. exact (proj1 (subscribe_converges feed0 ["b"; "a"; "b"] eq_refl)). Defined.


Lemma set_minus_nil a b : (forall x, In x a -> In x b) -> set_minus a b = [].
Proof.
  intros H. apply SelectionProofs.filter_none. intros x Hx.
  apply negb_false_iff, ws_mem_In, H, Hx.
Qed.

(** Subscribing an open connection again to the set it is already
    subscribed to (in any order, with repetitions) sends no frame. *)
Theorem subscribe_same_set_sends_nothing f ids :
  ws_open f = true -> subscribed_ids f <> [] ->
  (forall x, In x (subscribed_ids f) <-> In x ids) ->
  sent (subscribe f ids) = sent f.
Proof.
  intros Ho Hne Hsame. unfold subscribe. cbn [ws_open set_ids]. rewrite Ho. cbn [negb].
  set (f1 := set_ids f (sorted_set ids) (subscribed_ids f)).
  unfold apply_subscription_changes. replace (ws_open f1) with true by (symmetry; exact Ho).
  assert (Hm : match subscribed_ids f1 with [] => true | _ => false end = false)
    by (unfold f1, set_ids; simpl; destruct (subscribed_ids f); [congruence | reflexivity]).
  rewrite Hm. cbv zeta. cbn [negb orb].
  assert (EA : set_minus (desired_ids f1) (subscribed_ids f1) = []).
  { apply set_minus_nil. intros x Hx. unfold f1, set_ids in *. simpl in *.
    apply (proj1 (In_sorted_set x ids)) in Hx. apply Hsame, Hx. }
  assert (ER : set_minus (subscribed_ids f1) (desired_ids f1) = []).
  { apply set_minus_nil. intros x Hx. unfold f1, set_ids in *. simpl in *.
    apply (proj2 (In_sorted_set x ids)), Hsame, Hx. }
  rewrite EA, ER. reflexivity.
Qed.

Lemma subscribe_same_set_sends_nothing_witness :
  sent (subscribe ClobWsFacts.feed_ab ["b"; "a"; "b"]) = [].
Proof.
  apply (subscribe_same_set_sends_nothing ClobWsFacts.feed_ab ["b"; "a"; "b"]);
    [reflexivity | discriminate |].
  intros x. simpl. tauto.
Defined.

Lemma prefix_app s t : String.prefix s (String.append s t) = true.
Proof.
  induction s as [|c s IH]; [destruct t; reflexivity|]. simpl.
  destruct (ascii_dec c c) as [_ | n]; [exact IH | contradiction].
Qed.

Lemma contains_unfold kw s :
  Selection.contains kw s
  = String.prefix kw s || match s with EmptyString => false | String _ s' => Selection.contains kw s' end.
Proof. destruct s; reflexivity. Qed.

Lemma contains_app kw a b :
  Selection.contains kw (String.append a (String.append kw b)) = true.
Proof.
  induction a as [|c a IH]; rewrite contains_unfold.
  - simpl. rewrite prefix_app. reflexivity.
  - simpl. rewrite IH. apply orb_true_r.
Qed.

(** The URL the feed connects to always contains ["/ws/"]: a configured
    URL that has it is used as is, any other gets ["/ws/<channel>"]
    appended; so resolving a resolved URL changes nothing. *)
Theorem resolve_ws_url_idempotent url ch :
  Selection.contains "/ws/" (resolve_ws_url url ch) = true
  /\ resolve_ws_url (resolve_ws_url url ch) ch = resolve_ws_url url ch.
Proof.
  assert (H : Selection.contains "/ws/" (resolve_ws_url url ch) = true).
  { unfold resolve_ws_url. destruct (Selection.contains "/ws/" url) eqn:E; [exact E|].
    apply contains_app. }
  split; [exact H|]. unfold resolve_ws_url at 1. rewrite H. reflexivity.
Qed.

End ClobWsExtraProofs.

(* ------------------------------------------------------------------ *)
(** ** The trade detector of application/monitor.py *)

Module DetectorMoreProofs.
Import Events Signals Detector DetectorMore.

Lemma qsum_app a b : (qsum (a ++ b) == qsum a + qsum b)%Q.
Proof.
  induction a as [|x a IH]; simpl; [ring|]. rewrite IH. ring.
Qed.

Lemma window_add_ok w ts n : window_ok w -> window_ok (window_add w ts n).
Proof.
  unfold window_ok, window_add. simpl. intros H.
  rewrite map_app, qsum_app. simpl. rewrite H. ring.
Qed.

Lemma trim_entries_spec es tot c :
  (tot == qsum (map snd es))%Q ->
  window_ok (trim_entries es tot c)
  /\ (exists pre, es = pre ++ entries (trim_entries es tot c)
                  /\ Forall (fun e => fst e < c) pre)
  /\ (forall e rest, entries (trim_entries es tot c) = e :: rest -> c <= fst e).
Proof.
  revert tot. induction es as [|[ts n] es IH]; intros tot H; simpl.
  - split; [exact H|]. split; [exists []; split; [reflexivity | constructor]|].
    intros e rest E; discriminate.
  - destruct (Z.ltb ts c) eqn:Ec.
    + assert (H' : (tot - n == qsum (map snd es))%Q) by (simpl in H; rewrite H; ring).
      destruct (IH _ H') as (Hw & (pre & Hpre & Hall) & Hfirst).
      split; [exact Hw|]. split; [|exact Hfirst].
      exists ((ts, n) :: pre). split; [simpl; rewrite <- Hpre; reflexivity|].
      constructor; [simpl; apply Z.ltb_lt, Ec | exact Hall].
    + split; [exact H|]. split; [exists []; split; [reflexivity | constructor]|].
      simpl. intros e rest E. injection E as <- _. simpl. apply Z.ltb_ge, Ec.
Qed.

Lemma window_trim_spec w c :
  window_ok w ->
  window_ok (window_trim w c)
  /\ (exists pre, entries w = pre ++ entries (window_trim w c)
                  /\ Forall (fun e => fst e < c) pre)
  /\ (forall e rest, entries (window_trim w c) = e :: rest -> c <= fst e).
Proof. intros H. apply trim_entries_spec, H. Qed.

(** The fields a signal emission leaves alone. *)
Lemma emit_signal_windows cfg st meta sg m et now :
  windows (emit_signal cfg st meta sg m et now) = windows st.
Proof. unfold emit_signal. destruct (Z.ltb _ _); reflexivity. Qed.

Lemma major_change_windows cfg st meta p ts n src now :
  windows (maybe_emit_major_change cfg st meta p ts n src now) = windows st.
Proof.
  unfold maybe_emit_major_change.
  destruct (Qle_bool _ 0); [reflexivity|].
  destruct (dict_lookup _ _ _) as [[pp pt]|]; [|reflexivity].
  repeat match goal with |- context [if ?c then _ else _] => destruct c end;
    rewrite ?emit_signal_windows; reflexivity.
Qed.

Lemma handle_trade_windows cfg st trade now meta :
  dict_lookup String.eqb (token_meta st) (tt_token_id trade) = Some meta ->
  windows (handle_trade cfg st trade now)
  = dict_set String.eqb (windows st) (tt_token_id trade)
      (window_trim (window_add (match dict_lookup String.eqb (windows st) (tt_token_id trade)
                                with Some w => w | None => empty_window end)
                      (tt_ts_ms trade) (tt_price trade * tt_size trade)%Q) (now - 60000)).
Proof.
  intros Hm. unfold handle_trade. rewrite Hm. cbv zeta.
  repeat match goal with |- context [if ?c then _ else _] => destruct c end;
    rewrite ?emit_signal_windows, ?major_change_windows; reflexivity.
Qed.

Lemma empty_window_ok : window_ok empty_window.
Proof. reflexivity. Qed.




Lemma pair_eqb_iff a b : pair_eqb a b = true <-> a = b.
Proof.
  destruct a as [a1 a2], b as [b1 b2]. unfold pair_eqb. simpl.
  rewrite andb_true_iff, !String.eqb_eq. split; [intros [-> ->]; reflexivity|].
  intros E; injection E as -> ->. split; reflexivity.
Qed.

Section LookupFacts.
  Context {K V : Type} (keq : K -> K -> bool).
  Hypothesis keq_iff : forall a b, keq a b = true <-> a = b.

Lemma lookup_set_other_gen (d : list (K * V)) k k' v :
  k' <> k -> dict_lookup keq (dict_set keq d k v) k' = dict_lookup keq d k'.
Proof.
  intros Hne. induction d as [|[k0 v0] d IH]; simpl.
  - destruct (keq k' k) eqn:E; [apply keq_iff in E; congruence | reflexivity].
  - destruct (keq k k0) eqn:E; simpl.
    + apply keq_iff in E; subst k0.
      destruct (keq k' k) eqn:E2; [apply keq_iff in E2; congruence | reflexivity].
    + destruct (keq k' k0); [reflexivity | exact IH].
Qed.

Lemma lookup_filter_gen (g : K -> string) (f : string -> bool) (d : list (K * V)) k :
  dict_lookup keq (filter (fun kv => f (g (fst kv))) d) k
  = if f (g k) then dict_lookup keq d k else None.
Proof.
  induction d as [|[k0 v0] d IH]; simpl; [destruct (f (g k)); reflexivity|].
  destruct (keq k k0) eqn:E.
  - apply keq_iff in E. subst k0. destruct (f (g k)) eqn:F; simpl.
    + assert (keq k k = true) as -> by (apply keq_iff; reflexivity). reflexivity.
    + exact IH.
  - destruct (f (g k0)); simpl; [rewrite E|]; exact IH.
Qed.
End LookupFacts.

(** The invariant behind the cooldown: since the start, at most one event
    for [(tok, sig)] was added, and if one was, the cooldown entry of that
    key is at or after [t0]. *)
Definition cool_inv (tok sig : string) (t0 : Z) (base : nat) (st : State) : Prop :=
  count_signal tok sig (published st) = base
  \/ (count_signal tok sig (published st) = S base
      /\ exists t, dict_lookup pair_eqb (cooldowns st) (tok, sig) = Some t /\ t0 <= t).

Lemma count_signal_app tok sig a b :
  count_signal tok sig (a ++ b) = (count_signal tok sig a + count_signal tok sig b)%nat.
Proof. unfold count_signal. rewrite filter_app, length_app. reflexivity. Qed.

Lemma cool_inv_frame tok sig t0 base st st' :
  published st' = published st -> cooldowns st' = cooldowns st ->
  cool_inv tok sig t0 base st -> cool_inv tok sig t0 base st'.
Proof. unfold cool_inv. intros -> ->. tauto. Qed.

Lemma emit_cool_inv cfg tok sig t0 base st meta sg m et now :
  t0 <= now < t0 + cooldown_ms cfg ->
  cool_inv tok sig t0 base st -> cool_inv tok sig t0 base (emit_signal cfg st meta sg m et now).
Proof.
  intros Hnow Hinv. unfold emit_signal.
  destruct (Z.ltb _ _) eqn:Hlt; [exact Hinv|].
  unfold cool_inv. cbn [published cooldowns]. rewrite count_signal_app.
  match goal with |- context [count_signal tok sig [?ev]] =>
    assert (Hev : count_signal tok sig [ev]
                  = if String.eqb (tm_token_id meta) tok && String.eqb sg sig then 1%nat else 0%nat)
      by (unfold count_signal, is_signal_of; simpl;
          destruct (String.eqb (tm_token_id meta) tok), (String.eqb sg sig); reflexivity);
    rewrite Hev end.
  destruct (String.eqb (tm_token_id meta) tok) eqn:Et, (String.eqb sg sig) eqn:Es; cbn [andb].
  - apply String.eqb_eq in Et, Es. subst tok sig.
    destruct Hinv as [Hc | [Hc [t [Ht Ht0]]]].
    + right. split; [rewrite Hc; lia|]. exists now.
      split; [apply dict_lookup_set; intros k; apply pair_eqb_iff; reflexivity | lia].
    + rewrite Ht in Hlt. apply Z.ltb_ge in Hlt. lia.
  - rewrite Nat.add_0_r. rewrite lookup_set_other_gen by
      (exact pair_eqb_iff || (apply String.eqb_neq in Es; intros E; injection E; congruence)).
    exact Hinv.
  - rewrite Nat.add_0_r. rewrite lookup_set_other_gen by
      (exact pair_eqb_iff || (apply String.eqb_neq in Et; intros E; injection E; congruence)).
    exact Hinv.
  - rewrite Nat.add_0_r. rewrite lookup_set_other_gen by
      (exact pair_eqb_iff || (apply String.eqb_neq in Et; intros E; injection E; congruence)).
    exact Hinv.
Qed.

Lemma major_change_cool_inv cfg tok sig t0 base st meta p ts n src now :
  t0 <= now < t0 + cooldown_ms cfg ->
  cool_inv tok sig t0 base st ->
  cool_inv tok sig t0 base (maybe_emit_major_change cfg st meta p ts n src now).
Proof.
  intros Hnow Hinv. unfold maybe_emit_major_change.
  destruct (Qle_bool _ 0); [exact Hinv|].
  assert (Hs : cool_inv tok sig t0 base (set_last_price st (tm_token_id meta) (p, ts)))
    by (apply (cool_inv_frame _ _ _ _ st); [reflexivity | reflexivity | exact Hinv]).
  destruct (dict_lookup _ _ _) as [[pp pt]|]; [|exact Hs].
  repeat match goal with |- context [if ?c then _ else _] => destruct c end;
    try exact Hs; apply emit_cool_inv; assumption.
Qed.

Ltac cool_solve :=
  repeat match goal with
  | |- cool_inv _ _ _ _ (emit_signal _ _ _ _ _ _ _) => apply emit_cool_inv; [assumption|]
  | |- cool_inv _ _ _ _ (maybe_emit_major_change _ _ _ _ _ _ _ _) =>
      apply major_change_cool_inv; [assumption|]
  | |- cool_inv _ _ _ _ (if ?c then _ else _) => destruct c
  end.

Lemma handle_trade_cool_inv cfg tok sig t0 base st trade now :
  t0 <= now < t0 + cooldown_ms cfg ->
  cool_inv tok sig t0 base st -> cool_inv tok sig t0 base (handle_trade cfg st trade now).
Proof.
  intros Hnow Hinv. unfold handle_trade.
  destruct (dict_lookup _ _ _) as [meta|]; [|exact Hinv]. cbv zeta.
  cool_solve; (eapply cool_inv_frame; [| | exact Hinv]; reflexivity).
Qed.

Lemma handle_book_cool_inv cfg wall tok sig t0 base st book now :
  t0 <= now < t0 + cooldown_ms cfg ->
  cool_inv tok sig t0 base st -> cool_inv tok sig t0 base (handle_book cfg wall st book now).
Proof.
  intros Hnow Hinv. unfold handle_book.
  destruct (dict_lookup _ _ _) as [meta|]; [|exact Hinv]. cbv zeta.
  destruct (py_max (map OrderBook.price (OrderBook.bs_bids book))),
           (py_min (map OrderBook.price (OrderBook.bs_asks book)));
    destruct wall; cool_solve; exact Hinv.
Qed.

(** However many trades and books the detector handles while the clock
    stays within one cooldown period, it publishes at most one event per
    token and signal type. *)
Theorem at_most_one_signal_per_cooldown cfg wall st calls tok sig t0 :
  Forall (fun c => t0 <= call_now c < t0 + cooldown_ms cfg) calls ->
  (count_signal tok sig (published (run_calls cfg wall st calls))
   <= S (count_signal tok sig (published st)))%nat.
Proof.
  intros Hcalls.
  assert (H : forall base, cool_inv tok sig t0 base st ->
                           cool_inv tok sig t0 base (run_calls cfg wall st calls)).
  { unfold run_calls. intros base. revert st.
    induction Hcalls as [|c cs Hc _ IH]; intros s Hs; simpl; [exact Hs|].
    apply IH. destruct c as [t n | b n]; simpl in Hc.
    - apply handle_trade_cool_inv; assumption.
    - apply handle_book_cool_inv; assumption. }
  specialize (H (count_signal tok sig (published st)) (or_introl eq_refl)).
  destruct H as [-> | [-> _]]; lia.
Qed.

Lemma at_most_one_signal_per_cooldown_witness :
  (count_signal "token-1" "big_trade"
     (published (run_calls cool_cfg None test_state
        [OnTrade test_trade test_now; OnTrade test_trade (test_now + 1000)]))
   <= S (count_signal "token-1" "big_trade" (published test_state)))%nat.
Proof.
  apply (at_most_one_signal_per_cooldown cool_cfg None test_state _ _ _ test_now).
  repeat constructor; simpl; unfold test_now; lia.
Defined.


Lemma qmax_spec a b : (a <= qmax a b /\ b <= qmax a b /\ (qmax a b = a \/ qmax a b = b))%Q.
Proof.
  unfold qmax, Qltb. destruct (Qle_bool b a) eqn:E; simpl.
  - apply Qle_bool_iff in E. split; [apply Qle_refl | split; [exact E | left; reflexivity]].
  - assert (H : ~ (b <= a)%Q) by (intros H; apply Qle_bool_iff in H; congruence).
    apply Qnot_le_lt in H. split; [apply Qlt_le_weak, H | split; [apply Qle_refl | right; reflexivity]].
Qed.

Lemma fold_qmax_spec r x :
  In (fold_left qmax r x) (x :: r) /\ (forall y, In y (x :: r) -> (y <= fold_left qmax r x)%Q).
Proof.
  revert x. induction r as [|z r IH]; intros x; simpl.
  - split; [left; reflexivity|]. intros y [<- | []]. apply Qle_refl.
  - destruct (IH (qmax x z)) as [Hin Hge].
    destruct (qmax_spec x z) as (Hx & Hz & Hxz). split.
    + destruct Hin as [E | E]; [|right; right; exact E].
      destruct Hxz as [E' | E']; rewrite <- E, E'; [left | right; left]; reflexivity.
    + intros y [<- | [<- | Hy]].
      * apply (Qle_trans _ _ _ Hx), Hge. left; reflexivity.
      * apply (Qle_trans _ _ _ Hz), Hge. left; reflexivity.
      * apply Hge. right; exact Hy.
Qed.

(** [max(xs, default=0.0)] reaches [thr] iff some element does, or [xs]
    is empty and [thr <= 0]. *)
Lemma max_default_ge (xs : list Q) thr :
  (thr <= match py_max xs with Some m => m | None => 0 end)%Q
  <-> (exists x, In x xs /\ (thr <= x)%Q) \/ (xs = [] /\ (thr <= 0)%Q).
Proof.
  destruct xs as [|x r]; simpl.
  - split; [intros H; right; split; [reflexivity | exact H]|].
    intros [[y [[] _]] | [_ H]]; exact H.
  - destruct (fold_qmax_spec r x) as [Hin Hge]. split.
    + intros H. left. exists (fold_left qmax r x). split; [exact Hin | exact H].
    + intros [[y [Hy H]] | [E _]]; [|discriminate].
      apply (Qle_trans _ _ _ H), Hge, Hy.
Qed.

(** The big-wall condition of [handle_book], read on the book's levels. *)
Definition wall_reached (thr : Q) (book : OrderBook.BookSnapshot) : Prop :=
  (exists l, In l (OrderBook.bs_bids book ++ OrderBook.bs_asks book) /\ (thr <= OrderBook.size l)%Q)
  \/ ((OrderBook.bs_bids book = [] \/ OrderBook.bs_asks book = []) /\ (thr <= 0)%Q).

Lemma wall_condition thr book :
  Qltb (qmax (match py_max (map OrderBook.size (OrderBook.bs_bids book)) with
              | Some m => m | None => 0%Q end)
             (match py_max (map OrderBook.size (OrderBook.bs_asks book)) with
              | Some m => m | None => 0%Q end)) thr = false
  <-> wall_reached thr book.
Proof.
  set (mb := match py_max _ with Some m => m | None => 0%Q end).
  set (ma := match py_max (map OrderBook.size (OrderBook.bs_asks book)) with
             | Some m => m | None => 0%Q end).
  assert (Hq : Qltb (qmax mb ma) thr = false <-> (thr <= mb \/ thr <= ma)%Q).
  { destruct (qmax_spec mb ma) as (H1 & H2 & H3). split.
    - intros H. apply Qltb_false in H. destruct H3 as [E | E]; rewrite E in H; tauto.
    - intros H. unfold Qltb. apply negb_false_iff, Qle_bool_iff.
      destruct H as [H | H]; eapply Qle_trans; eauto. }
  rewrite Hq. unfold mb, ma. rewrite !max_default_ge. unfold wall_reached.
  split.
  - intros [[[x [Hx H]] | [E H]] | [[x [Hx H]] | [E H]]].
    + apply in_map_iff in Hx. destruct Hx as [l [<- Hl]].
      left. exists l. split; [apply in_or_app; left; exact Hl | exact H].
    + right. split; [left; exact (map_eq_nil _ _ E) | exact H].
    + apply in_map_iff in Hx. destruct Hx as [l [<- Hl]].
      left. exists l. split; [apply in_or_app; right; exact Hl | exact H].
    + right. split; [right; exact (map_eq_nil _ _ E) | exact H].
  - intros [[l [Hl H]] | [[E | E] H]].
    + apply in_app_or in Hl. destruct Hl as [Hl | Hl].
      * left. left. exists (OrderBook.size l). split; [apply in_map, Hl | exact H].
      * right. left. exists (OrderBook.size l). split; [apply in_map, Hl | exact H].
    + left. right. split; [rewrite E; reflexivity | exact H].
    + right. right. split; [rewrite E; reflexivity | exact H].
Qed.

(** An emission for another key changes neither the count nor the
    cooldown of [(tok, sig)]. *)
Lemma emit_other_key cfg st meta sg m et now tok sig :
  (tm_token_id meta, sg) <> (tok, sig) ->
  count_signal tok sig (published (emit_signal cfg st meta sg m et now))
    = count_signal tok sig (published st)
  /\ dict_lookup pair_eqb (cooldowns (emit_signal cfg st meta sg m et now)) (tok, sig)
     = dict_lookup pair_eqb (cooldowns st) (tok, sig).
Proof.
  intros Hne. unfold emit_signal. destruct (Z.ltb _ _); [split; reflexivity|].
  cbn [published cooldowns]. split.
  - rewrite count_signal_app. unfold count_signal at 2, is_signal_of. simpl.
    destruct (String.eqb (tm_token_id meta) tok) eqn:E1, (String.eqb sg sig) eqn:E2; simpl;
      try lia.
    apply String.eqb_eq in E1, E2. subst. congruence.
  - apply lookup_set_other_gen; [exact pair_eqb_iff | congruence].
Qed.

Lemma major_change_other_key cfg st meta p ts n src now tok sig :
  sig <> "major_change" ->
  count_signal tok sig (published (maybe_emit_major_change cfg st meta p ts n src now))
    = count_signal tok sig (published st)
  /\ dict_lookup pair_eqb (cooldowns (maybe_emit_major_change cfg st meta p ts n src now)) (tok, sig)
     = dict_lookup pair_eqb (cooldowns st) (tok, sig).
Proof.
  intros Hs. unfold maybe_emit_major_change.
  destruct (Qle_bool _ 0); [split; reflexivity|].
  destruct (dict_lookup _ _ _) as [[pp pt]|]; [|split; reflexivity].
  repeat match goal with |- context [if ?c then _ else _] => destruct c end;
    try (split; reflexivity).
  match goal with |- count_signal _ _ (published (emit_signal ?c ?s ?m ?g ?mm ?e ?nw)) = _ /\ _ =>
    destruct (emit_other_key c s m g mm e nw tok sig) as [A B] end.
  - intros E. injection E as _ E. congruence.
  - rewrite A, B. split; reflexivity.
Qed.

(** For a registered token and a configured [big_wall_size], [handle_book]
    publishes one [big_wall] event exactly when some bid or ask level has a
    size of at least the threshold (or a side is empty and the threshold is
    at most 0) and the token's [big_wall] cooldown has run out; otherwise
    it publishes none. *)
Theorem handle_book_big_wall cfg thr st book now meta :
  dict_lookup String.eqb (token_meta st) (OrderBook.bs_token_id book) = Some meta ->
  let count := count_signal (tm_token_id meta) "big_wall" in
  let last := match dict_lookup pair_eqb (cooldowns st) (tm_token_id meta, "big_wall") with
              | Some t => t | None => 0 end in
  (count (published (handle_book cfg (Some thr) st book now)) = S (count (published st))
   /\ wall_reached thr book /\ cooldown_ms cfg <= now - last)
  \/ (count (published (handle_book cfg (Some thr) st book now)) = count (published st)
      /\ ~ (wall_reached thr book /\ cooldown_ms cfg <= now - last)).
Proof.
  intros Hm count last. unfold handle_book. rewrite Hm. cbv zeta.
  match goal with |- context [if Qltb _ thr then ?s else _] => set (s1 := s) end.
  assert (H1 : count (published s1) = count (published st)
               /\ dict_lookup pair_eqb (cooldowns s1) (tm_token_id meta, "big_wall")
                  = dict_lookup pair_eqb (cooldowns st) (tm_token_id meta, "big_wall")).
  { unfold s1, count. destruct (is_source _ _); [|split; reflexivity].
    destruct (py_max (map OrderBook.price (OrderBook.bs_bids book))),
             (py_min (map OrderBook.price (OrderBook.bs_asks book))); try (split; reflexivity).
    apply major_change_other_key. discriminate. }
  destruct H1 as [Hc Hl].
  destruct (Qltb _ thr) eqn:Hw.
  - right. split; [exact Hc|]. intros [Hwall _].
    apply (wall_condition thr book) in Hwall. congruence.
  - apply wall_condition in Hw. unfold emit_signal. rewrite Hl. fold last.
    destruct (Z.ltb (now - last) (cooldown_ms cfg)) eqn:Hcd.
    + right. split; [exact Hc|]. intros [_ H]. apply Z.ltb_lt in Hcd. lia.
    + left. split; [|split; [exact Hw | apply Z.ltb_ge, Hcd]].
      unfold count in *. cbn [published]. rewrite count_signal_app, Hc.
      match goal with |- (_ + count_signal ?a ?b [?ev])%nat = _ =>
        replace (count_signal a b [ev]) with 1%nat
          by (unfold count_signal, is_signal_of; simpl; rewrite !String.eqb_refl; reflexivity) end.
      lia.
Qed.

Lemma handle_book_big_wall_witness :
  count_signal "token-1" "big_wall"
    (published (handle_book cool_cfg (Some 500%Q) test_state ex_wall_book test_now)) = 1%nat.
Proof.
  destruct (handle_book_big_wall cool_cfg 500 test_state ex_wall_book test_now meta1 eq_refl)
    as [[H _] | [_ H]].
  - exact H.
  - exfalso. apply H. split.
    + left. exists {| OrderBook.price := 1#2; OrderBook.size := 900 |}.
      split; [left; reflexivity | unfold Qle; simpl; lia].
    + simpl. unfold test_now. lia.
Defined.

(** [update_registry(token_meta)] installs the new registry and keeps the
    window, last price and cooldowns of a token exactly when the token is
    registered: a dropped token has none left, so if it comes back it
    starts afresh. Published events are untouched. *)
Theorem update_registry_purges st metas tok sig :
  token_meta (update_registry st metas) = metas
  /\ published (update_registry st metas) = published st
  /\ dict_lookup String.eqb (windows (update_registry st metas)) tok
     = (if in_registry metas tok then dict_lookup String.eqb (windows st) tok else None)
  /\ dict_lookup String.eqb (last_price (update_registry st metas)) tok
     = (if in_registry metas tok then dict_lookup String.eqb (last_price st) tok else None)
  /\ dict_lookup pair_eqb (cooldowns (update_registry st metas)) (tok, sig)
     = (if in_registry metas tok then dict_lookup pair_eqb (cooldowns st) (tok, sig) else None).
Proof.
  unfold update_registry. cbn [token_meta published windows last_price cooldowns].
  split; [reflexivity|]. split; [reflexivity|].
  split; [|split].
  - exact (lookup_filter_gen String.eqb (fun a b => String.eqb_eq a b) (fun k => k)
             (in_registry metas) (windows st) tok).
  - exact (lookup_filter_gen String.eqb (fun a b => String.eqb_eq a b) (fun k => k)
             (in_registry metas) (last_price st) tok).
  - exact (lookup_filter_gen pair_eqb pair_eqb_iff fst (in_registry metas) (cooldowns st) (tok, sig)).
Qed.

End DetectorMoreProofs.

(* ------------------------------------------------------------------ *)
(** ** The signal engine of application/signals/detector.py *)

Module EngineMoreProofs.
Import Events Signals Engine EngineMore.
Import DetectorMoreProofs(lookup_filter_gen, lookup_set_other_gen, pair_eqb_iff, qsum_app).

(** [SignalEngine.update_registry(token_meta)] keeps a token's window,
    last price, best quote and cooldowns exactly when the token is
    registered, and a trade bucket exactly when its market is the market of
    a registered token; flushing a dropped bucket then does nothing. *)
Theorem update_registry_purges_engine cfg st metas tok sig key now :
  let st' := update_registry st metas in
  let active := existsb (String.eqb (fst key)) (map (fun kv => tm_market_id (snd kv)) metas) in
  token_meta st' = metas /\ published st' = published st
  /\ dict_lookup String.eqb (windows st') tok
     = (if DetectorMore.in_registry metas tok then dict_lookup String.eqb (windows st) tok else None)
  /\ dict_lookup String.eqb (last_price st') tok
     = (if DetectorMore.in_registry metas tok then dict_lookup String.eqb (last_price st) tok else None)
  /\ dict_lookup String.eqb (best_quote st') tok
     = (if DetectorMore.in_registry metas tok then dict_lookup String.eqb (best_quote st) tok else None)
  /\ dict_lookup key_eqb (cooldowns st') (tok, sig)
     = (if DetectorMore.in_registry metas tok then dict_lookup key_eqb (cooldowns st) (tok, sig) else None)
  /\ dict_lookup key_eqb (trade_buckets st') key
     = (if active then dict_lookup key_eqb (trade_buckets st) key else None)
  /\ (active = true \/ flush_trade_bucket cfg st' key now = st').
Proof.
  intros st' active.
  assert (HS : forall a b, String.eqb a b = true <-> a = b) by exact String.eqb_eq.
  assert (Hb : dict_lookup key_eqb (trade_buckets st') key
               = (if active then dict_lookup key_eqb (trade_buckets st) key else None)).
  { unfold st', update_registry. cbn [trade_buckets].
    destruct (trade_buckets st) as [|kv bs] eqn:E; [destruct active; reflexivity|].
    rewrite <- E.
    exact (lookup_filter_gen key_eqb pair_eqb_iff fst
             (fun m => existsb (String.eqb m) (map (fun kv => tm_market_id (snd kv)) metas))
             (trade_buckets st) key). }
  split; [reflexivity|]. split; [reflexivity|].
  split; [exact (lookup_filter_gen String.eqb HS (fun k => k) (DetectorMore.in_registry metas) (windows st) tok)|].
  split; [exact (lookup_filter_gen String.eqb HS (fun k => k) (DetectorMore.in_registry metas) (last_price st) tok)|].
  split; [exact (lookup_filter_gen String.eqb HS (fun k => k) (DetectorMore.in_registry metas) (best_quote st) tok)|].
  split; [exact (lookup_filter_gen key_eqb pair_eqb_iff fst (DetectorMore.in_registry metas) (cooldowns st) (tok, sig))|].
  split; [exact Hb|].
  destruct active eqn:Ea; [left; reflexivity|]. right.
  unfold flush_trade_bucket. rewrite Hb. reflexivity.
Qed.


Section Buckets.
  Variable key : string * string.

(** What a bucket holds after the deposits [l]. *)
Definition bucket_inv (l : list Deposit) (b : TradeSignalBucket) : Prop :=
  b_market_id b = fst key
  /\ (total_notional b == DetectorMore.qsum (map d_notional (filter d_big l)))%Q
  /\ (total_size b == DetectorMore.qsum (map (fun d => tt_size (d_trade d)) (filter d_big l)))%Q
  /\ has_big_trade b = existsb d_big l
  /\ has_volume_spike b = existsb d_spike l
  /\ match max_vol_1m b with
     | None => existsb d_spike l = false
     | Some m => In m (map d_vol_1m (filter d_spike l))
                 /\ Forall (fun v => (v <= m)%Q) (map d_vol_1m (filter d_spike l))
     end.

Lemma existsb_false_filter {A} (f : A -> bool) l : existsb f l = false -> filter f l = [].
Proof.
  induction l as [|x l IH]; simpl; [reflexivity|].
  destruct (f x); simpl; [discriminate | exact IH].
Qed.

Lemma bucket_inv_new meta : bucket_key meta = key -> bucket_inv [] (new_bucket meta).
Proof.
  intros Hk. unfold bucket_inv, new_bucket. simpl.
  split; [rewrite <- Hk; reflexivity|]. repeat split; reflexivity.
Qed.

Lemma deposit_lookup s d :
  bucket_key (d_meta d) = key ->
  dict_lookup key_eqb (trade_buckets (deposit s d)) key
  = Some (let b := match dict_lookup key_eqb (trade_buckets s) key with
                   | Some b => b | None => new_bucket (d_meta d) end in
          {| b_market_id := b_market_id b; b_token_id := tm_token_id (d_meta d);
             b_side := tm_side (d_meta d); b_category := tm_category (d_meta d);
             b_title := tm_title (d_meta d); b_topic_key := tm_topic_key (d_meta d);
             b_end_ts := tm_end_ts (d_meta d);
             total_notional := if d_big d then (total_notional b + d_notional d)%Q
                               else total_notional b;
             total_size := if d_big d then (total_size b + tt_size (d_trade d))%Q
                           else total_size b;
             b_last_price := tt_price (d_trade d); b_last_size := tt_size (d_trade d);
             max_vol_1m := if d_spike d
                           then match max_vol_1m b with
                                | None => Some (d_vol_1m d)
                                | Some m => Some (qmax m (d_vol_1m d)) end
                           else max_vol_1m b;
             has_big_trade := has_big_trade b || d_big d;
             has_volume_spike := has_volume_spike b || d_spike d |}).
Proof.
  intros Hk. unfold deposit, enqueue_trade_bucket. rewrite Hk. cbn [trade_buckets set_buckets].
  apply dict_lookup_set. intros k. apply pair_eqb_iff. reflexivity.
Qed.

Lemma bucket_inv_step l d b :
  bucket_inv l b ->
  bucket_inv (l ++ [d])
    {| b_market_id := b_market_id b; b_token_id := tm_token_id (d_meta d);
       b_side := tm_side (d_meta d); b_category := tm_category (d_meta d);
       b_title := tm_title (d_meta d); b_topic_key := tm_topic_key (d_meta d);
       b_end_ts := tm_end_ts (d_meta d);
       total_notional := if d_big d then (total_notional b + d_notional d)%Q
                         else total_notional b;
       total_size := if d_big d then (total_size b + tt_size (d_trade d))%Q
                     else total_size b;
       b_last_price := tt_price (d_trade d); b_last_size := tt_size (d_trade d);
       max_vol_1m := if d_spike d
                     then match max_vol_1m b with
                          | None => Some (d_vol_1m d)
                          | Some m => Some (qmax m (d_vol_1m d)) end
                     else max_vol_1m b;
       has_big_trade := has_big_trade b || d_big d;
       has_volume_spike := has_volume_spike b || d_spike d |}.
Proof.
  intros (Hm & Hn & Hs & Hbig & Hsp & Hmax). unfold bucket_inv. cbn.
  rewrite !filter_app, !map_app, !existsb_app. cbn.
  split; [exact Hm|].
  split; [rewrite DetectorMoreProofs.qsum_app; destruct (d_big d); simpl; rewrite Hn; ring|].
  split; [rewrite DetectorMoreProofs.qsum_app; destruct (d_big d); simpl; rewrite Hs; ring|].
  rewrite Hbig, Hsp, !orb_false_r. split; [reflexivity|]. split; [reflexivity|].
  destruct (d_spike d) eqn:Esp; simpl; rewrite ?app_nil_r, ?orb_true_r.
  - destruct (max_vol_1m b) as [m|] eqn:Em.
    + destruct Hmax as [Hin Hall].
      destruct (DetectorMoreProofs.qmax_spec m (d_vol_1m d)) as (H1 & H2 & H3). split.
      * apply in_or_app. destruct H3 as [-> | ->]; [left; exact Hin | right; simpl; auto].
      * apply Forall_app. split; [|apply Forall_cons; [exact H2 | apply Forall_nil]].
        eapply Forall_impl; [|exact Hall]. intros v Hv. exact (Qle_trans _ _ _ Hv H1).
    + rewrite (existsb_false_filter _ _ Hmax). simpl.
      split; [simpl; auto | apply Forall_cons; [apply Qle_refl | apply Forall_nil]].
  - rewrite orb_false_r. exact Hmax.
Qed.

End Buckets.




Definition eng_cool_inv (tok sig : string) (t0 : Z) (base : nat) (st : State) : Prop :=
  count_signal tok sig (published st) = base
  \/ (count_signal tok sig (published st) = S base
      /\ exists t, dict_lookup key_eqb (cooldowns st) (tok, sig) = Some t /\ t0 <= t).

Lemma eng_count_signal_app tok sig a b :
  count_signal tok sig (a ++ b) = (count_signal tok sig a + count_signal tok sig b)%nat.
Proof. unfold count_signal. rewrite filter_app, length_app. reflexivity. Qed.

Lemma eng_cool_inv_frame tok sig t0 base st st' :
  published st' = published st -> cooldowns st' = cooldowns st ->
  eng_cool_inv tok sig t0 base st -> eng_cool_inv tok sig t0 base st'.
Proof. unfold eng_cool_inv. intros -> ->. tauto. Qed.

Lemma eng_emit_cool_inv cfg tok sig t0 base st meta p m et now :
  t0 <= now < t0 + cooldown_ms cfg ->
  eng_cool_inv tok sig t0 base st -> eng_cool_inv tok sig t0 base (emit_signal cfg st meta p m et now).
Proof.
  intros Hnow Hinv. unfold emit_signal.
  destruct (Z.ltb _ _) eqn:Hlt; [exact Hinv|].
  unfold eng_cool_inv. cbn [published cooldowns set_published set_cooldowns].
  rewrite eng_count_signal_app.
  match goal with |- context [count_signal tok sig [?ev]] =>
    assert (Hev : count_signal tok sig [ev]
                  = if String.eqb (tm_token_id meta) tok && String.eqb (signal_value p) sig
                    then 1%nat else 0%nat)
      by (unfold count_signal, is_signal_of; simpl;
          destruct (String.eqb (tm_token_id meta) tok), (String.eqb (signal_value p) sig);
          reflexivity);
    rewrite Hev end.
  destruct (String.eqb (tm_token_id meta) tok) eqn:Et, (String.eqb (signal_value p) sig) eqn:Es;
    cbn [andb].
  - apply String.eqb_eq in Et, Es. rewrite Et, Es in *.
    destruct Hinv as [Hc | [Hc [t [Ht Ht0]]]].
    + right. split; [rewrite Hc; lia|]. exists now.
      split; [apply dict_lookup_set; intros k; apply pair_eqb_iff; reflexivity | lia].
    + rewrite Ht in Hlt. apply Z.ltb_ge in Hlt. lia.
  - rewrite Nat.add_0_r. rewrite lookup_set_other_gen by
      (exact pair_eqb_iff || (apply String.eqb_neq in Es; intros E; injection E; congruence)).
    exact Hinv.
  - rewrite Nat.add_0_r. rewrite lookup_set_other_gen by
      (exact pair_eqb_iff || (apply String.eqb_neq in Et; intros E; injection E; congruence)).
    exact Hinv.
  - rewrite Nat.add_0_r. rewrite lookup_set_other_gen by
      (exact pair_eqb_iff || (apply String.eqb_neq in Et; intros E; injection E; congruence)).
    exact Hinv.
Qed.

Ltac engine_cool_solve Hinv :=
  repeat match goal with
  | |- eng_cool_inv _ _ _ _ (emit_signal _ _ _ _ _ _ _) => apply eng_emit_cool_inv; [assumption|]
  | |- eng_cool_inv _ _ _ _ (if ?c then _ else _) => destruct c
  | |- eng_cool_inv _ _ _ _ (match ?c with Some _ => _ | None => _ end) => destruct c as [[]|]
  end;
  try (eapply eng_cool_inv_frame; [| | exact Hinv]; reflexivity).

Lemma eng_major_change_cool_inv cfg tok sig t0 base st meta p ts n src bb ba now :
  t0 <= now < t0 + cooldown_ms cfg ->
  eng_cool_inv tok sig t0 base st ->
  eng_cool_inv tok sig t0 base (maybe_emit_major_change cfg st meta p ts n src bb ba now).
Proof.
  intros Hnow Hinv. unfold maybe_emit_major_change.
  destruct (Qle_bool _ 0); [exact Hinv|].
  assert (Hs : eng_cool_inv tok sig t0 base
                 (set_last_price st (dict_set String.eqb (last_price st) (tm_token_id meta) (p, ts))))
    by (apply (eng_cool_inv_frame _ _ _ _ st); [reflexivity | reflexivity | exact Hinv]).
  destruct (dict_lookup _ _ _) as [[pp pt]|]; [|exact Hs]. cbv zeta.
  repeat match goal with |- context [if ?c then _ else _] => destruct c end;
    try exact Hs; apply eng_emit_cool_inv; assumption.
Qed.

Lemma enqueue_cool_inv tok sig t0 base st meta trade n v big spike :
  eng_cool_inv tok sig t0 base st ->
  eng_cool_inv tok sig t0 base (enqueue_trade_bucket st meta trade n v big spike).
Proof. apply eng_cool_inv_frame; reflexivity. Qed.

Lemma eng_handle_trade_cool_inv cfg tok sig t0 base st trade now :
  t0 <= now < t0 + cooldown_ms cfg ->
  eng_cool_inv tok sig t0 base st -> eng_cool_inv tok sig t0 base (handle_trade cfg st trade now).
Proof.
  intros Hnow Hinv. unfold handle_trade.
  destruct (dict_lookup _ _ _) as [meta|]; [|exact Hinv].
  destruct (is_market_expired cfg meta now); [exact Hinv|]. cbv zeta.
  set (s1 := set_windows st _).
  assert (H1 : eng_cool_inv tok sig t0 base s1)
    by (apply (eng_cool_inv_frame _ _ _ _ st); [reflexivity | reflexivity | exact Hinv]).
  match goal with |- context [if is_source ?a ?b then ?x else s1] =>
    assert (H2 : eng_cool_inv tok sig t0 base (if is_source a b then x else s1))
      by (destruct (is_source a b); [apply eng_major_change_cool_inv|]; assumption);
    revert H2; generalize (if is_source a b then x else s1); intros s2 H2 end.
  engine_cool_solve H2; apply enqueue_cool_inv, H2.
Qed.

Lemma flush_cool_inv cfg tok sig t0 base st key now :
  t0 <= now < t0 + cooldown_ms cfg ->
  eng_cool_inv tok sig t0 base st -> eng_cool_inv tok sig t0 base (flush_trade_bucket cfg st key now).
Proof.
  intros Hnow Hinv. unfold flush_trade_bucket.
  destruct (dict_lookup _ _ _) as [b|]; [|exact Hinv]. cbv zeta.
  assert (H1 : eng_cool_inv tok sig t0 base (set_buckets st (dict_pop key_eqb (trade_buckets st) key)))
    by (apply (eng_cool_inv_frame _ _ _ _ st); [reflexivity | reflexivity | exact Hinv]).
  destruct (dict_lookup _ _ _) as [meta|]; [|exact H1].
  destruct (is_market_expired _ _ _); [exact H1|]. apply eng_emit_cool_inv; assumption.
Qed.

(** However many trades and bucket flushes the engine handles while the
    clock stays within one cooldown period, it publishes at most one
    signal per token and signal type, merged or not. *)
Theorem engine_at_most_one_signal_per_cooldown cfg st calls tok sig t0 :
  Forall (fun c => t0 <= call_now c < t0 + cooldown_ms cfg) calls ->
  (count_signal tok sig (published (run_calls cfg st calls))
   <= S (count_signal tok sig (published st)))%nat.
Proof.
  intros Hcalls.
  assert (H : forall base, eng_cool_inv tok sig t0 base st ->
                           eng_cool_inv tok sig t0 base (run_calls cfg st calls)).
  { unfold run_calls. intros base. revert st.
    induction Hcalls as [|c cs Hc _ IH]; intros s Hs; simpl; [exact Hs|].
    apply IH. destruct c as [t n | k n]; simpl in Hc.
    - apply eng_handle_trade_cool_inv; assumption.
    - apply flush_cool_inv; assumption. }
  specialize (H (count_signal tok sig (published st)) (or_introl eq_refl)).
  destruct H as [-> | [-> _]]; lia.
Qed.

Lemma engine_at_most_one_signal_per_cooldown_witness :
  (count_signal "tok-yes" "big_trade"
     (published (run_calls cool_merge_cfg (empty_state [("tok-yes", meta_yes)])
        [OnTrade cheap_trade t0; OnTrade even_trade (t0 + 100); OnFlush ("m1", "YES") (t0 + 1000)]))
   <= S (count_signal "tok-yes" "big_trade" (published (empty_state [("tok-yes", meta_yes)]))))%nat.
Proof.
  apply (engine_at_most_one_signal_per_cooldown cool_merge_cfg _ _ _ _ t0).
  repeat constructor; simpl; unfold t0, cool_merge_cfg, mk_config; simpl; lia.
Defined.

End EngineMoreProofs.

(* ------------------------------------------------------------------ *)
(** ** Market selection: ranking *)

Module SelectionMoreProofs.
Import Selection SelectionProofs.

Lemma Qltb_true a b : Qltb a b = true <-> (a < b)%Q.
Proof.
  unfold Qltb. rewrite negb_true_iff. split.
  - intros H. apply Qnot_le_lt. intros H'. apply Qle_bool_iff in H'. congruence.
  - intros H. destruct (Qle_bool b a) eqn:E; [|reflexivity].
    apply Qle_bool_iff in E. exfalso. apply (Qlt_not_le _ _ H E).
Qed.

(** Python's tuple [<] is negatively transitive: if [a < c] then [a < b]
    or [b < c]. *)
Lemma tuple_lt_cotrans a b c :
  tuple_lt a c = true -> tuple_lt a b = true \/ tuple_lt b c = true.
Proof.
  revert b c. induction a as [|x a IH]; intros b c H.
  - destruct b as [|y b]; [right; exact H | left; reflexivity].
  - destruct c as [|z c]; [discriminate|]. destruct b as [|y b]; [right; reflexivity|].
    simpl in *.
    destruct (Qeq_bool x z) eqn:Exz, (Qeq_bool x y) eqn:Exy, (Qeq_bool y z) eqn:Eyz;
      repeat match goal with
      | E : Qeq_bool _ _ = true |- _ => apply Qeq_bool_iff in E
      | E : Qeq_bool _ _ = false |- _ => apply Qeq_bool_neq in E
      end.
    + apply IH. exact H.
    + exfalso. apply Eyz. rewrite <- Exy. exact Exz.
    + exfalso. apply Exy. rewrite Exz. symmetry. exact Eyz.
    + destruct (Qltb x y) eqn:Lxy; [left; reflexivity|]. right.
      apply Qltb_false in Lxy. apply Qltb_true. rewrite <- Exz.
      apply Qle_lteq in Lxy. destruct Lxy as [L | L]; [exact L|].
      exfalso. apply Exy. symmetry. exact L.
    + exfalso. apply Exz. rewrite Exy. exact Eyz.
    + right. apply Qltb_true. apply Qltb_true in H. rewrite <- Exy. exact H.
    + left. apply Qltb_true. apply Qltb_true in H. rewrite Eyz. exact H.
    + destruct (Qltb x y) eqn:Lxy; [left; reflexivity|]. right.
      apply Qltb_false in Lxy. apply Qltb_true in H. apply Qltb_true.
      apply (Qle_lt_trans _ _ _ Lxy H).
Qed.

Section Ranked.
  Context {A : Type} (lt : A -> A -> bool).
  Hypothesis lt_cotrans : forall a b c, lt a c = true -> lt a b = true \/ lt b c = true.

Lemma sorted_head_least x l : sorted_by lt (x :: l) -> forall y, In y l -> lt y x = false.
Proof.
  revert x. induction l as [|z l IH]; intros x Hs y Hy; [contradiction|].
  destruct Hs as [Hzx Hs]. destruct Hy as [<- | Hy]; [exact Hzx|].
  specialize (IH z Hs y Hy). destruct (lt y x) eqn:E; [|reflexivity].
  destruct (lt_cotrans _ z _ E) as [C | C]; congruence.
Qed.

Lemma sorted_prefix_least n l x y :
  sorted_by lt l -> In x (firstn n l) -> In y (skipn n l) -> lt y x = false.
Proof.
  revert l. induction n as [|n IH]; intros l Hs Hx Hy; [contradiction|].
  destruct l as [|a l]; [contradiction|]. simpl in Hx, Hy.
  destruct Hx as [<- | Hx].
  - apply (sorted_head_least _ l Hs). rewrite <- (firstn_skipn n l). apply in_or_app. right; exact Hy.
  - apply (IH l); [exact (sorted_by_tail lt _ _ Hs) | exact Hx | exact Hy].
Qed.
End Ranked.

(** Taking the first [k] of a list sorted by priority: the size, and no
    market left out ranks strictly before one taken. *)
Lemma sorted_take_spec p (l : list Market) k :
  0 <= k ->
  let out := py_prefix (sort_key tuple_lt (priority_key p) false l) k in
  length out = Nat.min (Z.to_nat k) (length l)
  /\ (forall x, In x out -> In x l)
  /\ (forall x y, In x out -> In y l -> ~ In y out ->
        tuple_lt (priority_key p y) (priority_key p x) = false).
Proof.
  intros Hk out. unfold out. rewrite py_prefix_nonneg by exact Hk.
  set (s := sort_key tuple_lt (priority_key p) false l).
  assert (Hperm : Permutation s l) by apply sort_by_perm.
  split; [rewrite length_firstn, (Permutation_length Hperm); reflexivity|].
  split; [intros x Hx; apply (Permutation_in _ Hperm), (In_firstn _ _ _ Hx)|].
  intros x y Hx Hy Hout.
  assert (Hys : In y (skipn (Z.to_nat k) s)).
  { apply Permutation_sym in Hperm. apply (Permutation_in _ Hperm) in Hy.
    rewrite <- (firstn_skipn (Z.to_nat k) s) in Hy. apply in_app_or in Hy.
    destruct Hy as [Hy | Hy]; [contradiction | exact Hy]. }
  apply (sorted_prefix_least (fun a b => tuple_lt (priority_key p a) (priority_key p b))
           (fun a b c => tuple_lt_cotrans (priority_key p a) (priority_key p b) (priority_key p c))
           (Z.to_nat k) s); [|exact Hx | exact Hys].
  apply sort_by_sorted. intros a b. apply tuple_lt_asym.
Qed.

(** For [top_k >= 0], [select_top_markets] returns [min(top_k, n)]
    markets, where [n] markets pass the liquidity and keyword filters; each
    returned market passed them, and no market that passed them but was
    left out has a priority tuple strictly smaller than a returned one. *)
Theorem select_top_keeps_best ms k hot ml allow block :
  0 <= k ->
  let kept := filter (keep_market ml (map lower allow) (map lower block)) ms in
  let out := select_top_markets ms k hot ml allow block in
  length out = Nat.min (Z.to_nat k) (length kept)
  /\ (forall x, In x out -> In x kept)
  /\ (forall x y, In x out -> In y kept -> ~ In y out ->
        tuple_lt (priority_key hot y) (priority_key hot x) = false).
Proof. intros Hk kept out. exact (sorted_take_spec hot kept k Hk). Qed.

Lemma select_top_keeps_best_witness :
  length (select_top_markets [mkt_a; mkt_b; mkt_c] 2 ["liquidity"] (Some 1%Q) [] [])
  = Nat.min 2 (length (filter (keep_market (Some 1%Q) [] []) [mkt_a; mkt_b; mkt_c])).
Proof.
  exact (proj1 (select_top_keeps_best [mkt_a; mkt_b; mkt_c] 2 ["liquidity"] (Some 1%Q) [] []
                  ltac:(lia))).
Defined.

(** For [max_per_topic >= 0], [select_primary_markets] returns, for every
    topic key, [min(max_per_topic, n)] markets of that topic, where [n]
    markets of the input have it once topic keys are assigned; no market of
    the topic that was left out ranks strictly before one returned. *)
Theorem select_primary_per_topic ms pr n k :
  0 <= n ->
  let group := of_key k (assign_topic_keys ms) in
  let out := of_key k (select_primary_markets ms pr n) in
  length out = Nat.min (Z.to_nat n) (length group)
  /\ (forall x, In x out -> In x group)
  /\ (forall x y, In x out -> In y group -> ~ In y out ->
        tuple_lt (priority_key pr y) (priority_key pr x) = false).
Proof.
  intros Hn group out.
  set (B := fun k => py_prefix (sort_key tuple_lt (priority_key pr) false
                                  (of_key k (assign_topic_keys ms))) n).
  assert (HB : forall k x, In x (B k) -> group_key x = k).
  { intros k' x Hx. apply In_py_prefix, In_sort_key in Hx.
    unfold of_key in Hx. apply filter_In in Hx. apply String.eqb_eq, (proj2 Hx). }
  assert (Hout : out = if existsb (String.eqb k) (keys (assign_topic_keys ms)) then B k else []).
  { unfold out. rewrite select_primary_spec. apply (of_key_concat B HB).
    apply key_fold_nodup. constructor. }
  destruct (existsb (String.eqb k) (keys (assign_topic_keys ms))) eqn:E.
  - rewrite Hout. exact (sorted_take_spec pr group n Hn).
  - assert (Hg : group = []).
    { apply of_key_nil. intros Hin. apply In_existsb in Hin. congruence. }
    rewrite Hout, Hg. simpl. rewrite Nat.min_0_r.
    split; [reflexivity|]. split; intros; contradiction.
Qed.

Lemma select_primary_per_topic_witness :
  length (of_key "will it rain" (select_primary_markets [mkt_a; mkt_b; mkt_c] ["liquidity"] 1))
  = Nat.min 1 (length (of_key "will it rain" (assign_topic_keys [mkt_a; mkt_b; mkt_c]))).
Proof.
  exact (proj1 (select_primary_per_topic [mkt_a; mkt_b; mkt_c] ["liquidity"] 1 "will it rain"
                  ltac:(lia))).
Defined.

End SelectionMoreProofs.

(* ------------------------------------------------------------------ *)
(** ** Outcome tokens and token ids *)

Module GammaTokensProofs.
Import GammaTokens.

Lemma fromkeys_fold_spec (xs acc : list string) :
  NoDup acc ->
  NoDup (fold_left (fun acc x => if existsb (String.eqb x) acc then acc else acc ++ [x]) xs acc)
  /\ (forall t, In t (fold_left (fun acc x => if existsb (String.eqb x) acc then acc else acc ++ [x])
                                xs acc) <-> In t acc \/ In t xs).
Proof.
  revert acc; induction xs as [|x xs IH]; intros acc Hnd; cbn [fold_left].
  - split; [exact Hnd|]. intro t; simpl; tauto.
  - destruct (existsb (String.eqb x) acc) eqn:E.
    + destruct (IH acc Hnd) as [H1 H2]. split; [exact H1|].
      intro t; rewrite H2. apply existsb_exists in E. destruct E as [y [Hy Ey]].
      apply String.eqb_eq in Ey; subst y. simpl. split; [tauto|].
      intros [?|[?|?]]; [tauto| subst; tauto | tauto].
    + assert (Hnd' : NoDup (acc ++ [x])).
      { apply NoDup_app; [exact Hnd | constructor; [simpl; tauto | constructor] |].
        intros y Hy [Hx|[]]; subst y.
        assert (existsb (String.eqb x) acc = true) by
          (apply existsb_exists; exists x; split; [exact Hy | apply String.eqb_refl]).
        congruence. }
      destruct (IH _ Hnd') as [H1 H2]. split; [exact H1|].
      intro t; rewrite H2, in_app_iff. simpl. tauto.
Qed.

Lemma dict_fromkeys_spec (xs : list string) :
  NoDup (dict_fromkeys xs) /\ (forall t, In t (dict_fromkeys xs) <-> In t xs).
Proof.
  destruct (fromkeys_fold_spec xs [] (NoDup_nil _)) as [H1 H2].
  split; [exact H1|]. intro t; unfold dict_fromkeys; rewrite H2; simpl; tauto.
Qed.

Lemma NoDup_filter_str (f : string -> bool) (l : list string) : NoDup l -> NoDup (filter f l).
Proof.
  induction 1 as [|x l Hx Hnd IH]; simpl; [constructor|].
  destruct (f x); [|exact IH]. constructor; [|exact IH].
  intro H; apply filter_In in H; tauto.
Qed.

(** The [token_ids] of a market hold each id once, never the empty id,
    and exactly the non-empty ids among the parsed [clobTokenIds] and the
    token ids of the outcomes. *)
Theorem market_token_ids_spec (clob : list string) (outcomes : list OutcomeToken) :
  NoDup (market_token_ids clob outcomes)
  /\ (forall t, In t (market_token_ids clob outcomes) <->
        t <> "" /\ (In t clob \/ exists o, In o outcomes /\ ot_token_id o = t)).
Proof.
  unfold market_token_ids.
  destruct (dict_fromkeys_spec (clob ++ map ot_token_id
             (filter (fun o => negb (String.eqb (ot_token_id o) "")) outcomes))) as [H1 H2].
  split; [apply NoDup_filter_str; exact H1|].
  intro t. rewrite filter_In, H2, in_app_iff, in_map_iff.
  rewrite Bool.negb_true_iff, String.eqb_neq.
  split.
  - intros [[Hc|[o [Ho Hin]]] Hne]; split; auto.
    right; exists o; apply filter_In in Hin; tauto.
  - intros [Hne [Hc|[o [Hin Ho]]]]; split; auto.
    right; exists o; split; [exact Ho|]. apply filter_In; split; [exact Hin|].
    rewrite Ho. apply Bool.negb_true_iff, String.eqb_neq; exact Hne.
Qed.

Lemma attach_eq (outcomes : list OutcomeToken) (clob : list string) :
  attach_outcome_token_ids outcomes clob =
  if Nat.eqb (length outcomes) (length clob) then
    map (fun oc => {| ot_token_id := if String.eqb (ot_token_id (fst oc)) ""
                                     then snd oc else ot_token_id (fst oc);
                      ot_side := ot_side (fst oc); ot_raw := ot_raw (fst oc) |})
        (combine outcomes clob)
  else outcomes.
Proof.
  unfold attach_outcome_token_ids.
  destruct outcomes as [|o os], clob as [|c cs]; simpl; try reflexivity.
  destruct (Nat.eqb (length os) (length cs)); reflexivity.
Qed.

(** [_attach_outcome_token_ids] returns the outcomes unchanged when their
    number differs from the number of CLOB token ids; otherwise the outcome
    at each index keeps its side and raw data and its own token id when that
    is not empty, and takes the CLOB token id at the same index when it is. *)
Theorem attach_outcome_token_ids_by_index (outcomes : list OutcomeToken) (clob : list string) :
  (length outcomes <> length clob -> attach_outcome_token_ids outcomes clob = outcomes)
  /\ length (attach_outcome_token_ids outcomes clob) = length outcomes
  /\ (forall i o c, length outcomes = length clob ->
        nth_error outcomes i = Some o -> nth_error clob i = Some c ->
        nth_error (attach_outcome_token_ids outcomes clob) i =
          Some {| ot_token_id := if String.eqb (ot_token_id o) "" then c else ot_token_id o;
                  ot_side := ot_side o; ot_raw := ot_raw o |}).
Proof.
  rewrite attach_eq. split; [|split].
  - intro Hne. apply Nat.eqb_neq in Hne. rewrite Hne. reflexivity.
  - destruct (Nat.eqb (length outcomes) (length clob)) eqn:E; [|reflexivity].
    apply Nat.eqb_eq in E. rewrite length_map, length_combine, E. lia.
  - intros i o c Hl Ho Hc. apply Nat.eqb_eq in Hl as Hl'. rewrite Hl'.
    rewrite nth_error_map.
    assert (Hcomb : nth_error (combine outcomes clob) i = Some (o, c)).
    { clear Hl Hl'. revert i clob Ho Hc; induction outcomes as [|o' os IH];
        intros i clob Ho Hc; [destruct i; discriminate|].
      destruct clob as [|c' cs]; [destruct i; discriminate|].
      destruct i as [|i]; simpl in *.
      - inversion Ho; inversion Hc; reflexivity.
      - apply IH; assumption. }
    rewrite Hcomb. reflexivity.
Qed.

Lemma digits_of_pos_nonempty (p : positive) (fuel : nat) (acc : string) :
  acc <> "" -> digits_of_pos p fuel acc <> "".
Proof.
  revert p acc; induction fuel as [|fuel IH]; intros p acc Hacc; simpl; [exact Hacc|].
  destruct (Z.pos p / 10) as [|p'|p']; try discriminate.
  apply IH; discriminate.
Qed.

Lemma digits_of_pos_S_nonempty (p : positive) (fuel : nat) (acc : string) :
  digits_of_pos p (S fuel) acc <> "".
Proof.
  simpl. destruct (Z.pos p / 10) as [|p'|p']; try discriminate.
  apply digits_of_pos_nonempty; discriminate.
Qed.

Lemma z_to_string_nonempty (z : Z) : z_to_string z <> "".
Proof.
  destruct z as [|p|p]; unfold z_to_string; [discriminate| |discriminate].
  apply digits_of_pos_S_nonempty.
Qed.

Lemma append_nonempty (s t : string) : s <> "" -> String.append s t <> "".
Proof. destruct s; simpl; [contradiction|discriminate]. Qed.

Lemma py_str_truthy_nonempty (v : json) : truthy v = true -> py_str v <> "".
Proof.
  destruct v as [|b|z|q|s|l|f]; cbn [py_str truthy]; intro H; try discriminate.
  - destruct b; discriminate.
  - apply z_to_string_nonempty.
  - destruct (Z.pos (Qden q) =? 1)%Z; apply append_nonempty, z_to_string_nonempty.
  - apply Bool.negb_true_iff, String.eqb_neq in H; exact H.
Qed.

Lemma py_str_items_nonempty (l : list json) :
  Forall (fun t => t <> "") (map py_str (filter truthy l)).
Proof.
  apply Forall_forall. intros t Ht. apply in_map_iff in Ht. destruct Ht as [v [Hv Hin]].
  subst t. apply filter_In in Hin. apply py_str_truthy_nonempty; tauto.
Qed.

Lemma filter_nonempty_ok (l : list string) :
  Forall (fun t => t <> "") (filter (fun t => negb (String.eqb t "")) l).
Proof.
  apply Forall_forall. intros t Ht. apply filter_In in Ht. destruct Ht as [_ Ht].
  apply Bool.negb_true_iff, String.eqb_neq in Ht; exact Ht.
Qed.

Lemma parse_clob_token_ids_nonempty (json_loads : string -> option json) (value : json) :
  Forall (fun t => t <> "") (parse_clob_token_ids json_loads value).
Proof.
  destruct value as [| | | |s|l|]; cbn [parse_clob_token_ids]; try apply Forall_nil.
  - destruct (String.eqb (strip s) "") eqn:Et; [apply Forall_nil|].
    destruct (String.prefix "[" (strip s));
      [destruct (json_loads (strip s)) as [[| | | | |l|]|]; try apply py_str_items_nonempty|];
      (destruct (Selection.contains "," (strip s));
       [apply filter_nonempty_ok
       |apply Forall_cons; [apply String.eqb_neq; exact Et | apply Forall_nil]]).
  - apply py_str_items_nonempty.
Qed.

(** [_parse_clob_token_ids] never yields an empty token id, whatever the
    value of [clobTokenIds] (absent, a list, a JSON or comma-separated
    string, or anything else). *)
Theorem parse_clob_token_ids_no_empty_id (json_loads : string -> option json) (value : json) :
  Forall (fun t => t <> "") (parse_clob_token_ids json_loads value).
Proof. exact (parse_clob_token_ids_nonempty json_loads value). Qed.

(** When a market lists as many outcomes as parsed CLOB token ids, every
    outcome leaves [_attach_outcome_token_ids] with a non-empty token id. *)
Theorem attached_outcomes_have_token_ids (json_loads : string -> option json) (value : json)
  (outcomes : list OutcomeToken) :
  length outcomes = length (parse_clob_token_ids json_loads value) ->
  Forall (fun o => ot_token_id o <> "")
         (attach_outcome_token_ids outcomes (parse_clob_token_ids json_loads value)).
Proof.
  intro Hl. rewrite attach_eq. apply Nat.eqb_eq in Hl. rewrite Hl.
  pose proof (parse_clob_token_ids_nonempty json_loads value) as F.
  rewrite Forall_forall in F |- *. intros o Ho.
  apply in_map_iff in Ho. destruct Ho as [[o0 c] [Ho Hin]]. subst o. cbn [ot_token_id fst snd].
  destruct (String.eqb (ot_token_id o0) "") eqn:E.
  - apply F. exact (in_combine_r _ _ _ _ Hin).
  - apply String.eqb_neq; exact E.
Qed.

Lemma attach_outcome_token_ids_by_index_witness :
  length [yes_outcome; no_outcome] = length ["c-yes"; "c-no"]
  /\ nth_error [yes_outcome; no_outcome] 0%nat = Some yes_outcome
  /\ nth_error ["c-yes"; "c-no"] 0%nat = Some "c-yes"
  /\ nth_error (attach_outcome_token_ids [yes_outcome; no_outcome] ["c-yes"; "c-no"]) 0%nat =
       Some {| ot_token_id := "c-yes"; ot_side := Some "Yes"; ot_raw := None |}.
Proof.
  split; [reflexivity|]. split; [reflexivity|]. split; [reflexivity|].
  apply (proj2 (proj2 (attach_outcome_token_ids_by_index
                         [yes_outcome; no_outcome] ["c-yes"; "c-no"])) 0%nat yes_outcome "c-yes");
    reflexivity.
Defined.

Lemma attached_outcomes_have_token_ids_witness :
  length [yes_outcome; no_outcome] = length (parse_clob_token_ids no_json (JStr " c-yes, c-no "))
  /\ Forall (fun o => ot_token_id o <> "")
       (attach_outcome_token_ids [yes_outcome; no_outcome]
          (parse_clob_token_ids no_json (JStr " c-yes, c-no "))).
Proof.
  split; [vm_compute; reflexivity|].
  apply attached_outcomes_have_token_ids. vm_compute. reflexivity.
Defined.

End GammaTokensProofs.
